(** * Email validation with a domain cache: a shallow embedding

    Source: [test_task_1/src/emails_validation.py].

    Conventions of the embedding.
    - A Python [str] is a [string]; a character is a code point below 256
      (the Latin-1 range), which fixes [str.isspace], the regex class [\s]
      and [str.lower] by finite tables.
    - A Python [dict] used as a map is a [gmap]; [None] is [option]'s [None].
      The row dictionaries of [csv.DictReader], whose order matters, are
      association lists.
    - Effects (clock, registry and DNS queries, files) are threaded through
      an explicit [World], with every external interaction recorded in a
      chronological trace; a raised exception is the left injection of the
      result.
    - What the module imports and does not define is a field of [Env]: the
      answers of [whois.whois] and [dns.resolver.resolve], the clock,
      [datetime.fromisoformat], and the text layer of the [csv] module (one
      record to text, text to records). [datetime] objects themselves,
      their comparison and [isoformat] are written out.
    - The file store is a map from paths to text. It has no directories,
      no permissions and no encodings: reading fails only on a path that
      names no file, and creating a directory, opening a file for writing
      and writing a row always succeed; parsing delimited text is total.
      The operating-system errors the source would let through at these
      points are therefore absent: where a statement below says that a
      computation returns, it speaks of the runs in which these operations
      succeed. The statements about a whole run of the driver do not rest
      on it: they say what holds whenever the run returns normally, or
      which exceptions cannot leave it.
    - The records of a saved snapshot follow the order of [map_to_list],
      not the order of insertion of the Python dictionary; no statement
      below speaks of that order. *)

From Stdlib Require Import ZArith NArith Ascii Bool Lia.
From stdpp Require Import gmap strings list fin_maps.

Set Warnings "-register-all".

(** ** Text primitives of [str] *)

Module Str.

Local Open Scope N_scope.

Definition ord (c : ascii) : N := N_of_ascii c.

(** [str.isspace] on one character; also the regex class [\s]. *)
Definition isspace (c : ascii) : bool :=
  let n := ord c in
  ((9 <=? n) && (n <=? 13)) || ((28 <=? n) && (n <=? 32))
  || (n =? 133) || (n =? 160).

Definition lower_char (c : ascii) : ascii :=
  let n := ord c in
  if ((65 <=? n) && (n <=? 90))
     || ((192 <=? n) && (n <=? 222) && negb (n =? 215))
  then ascii_of_N (n + 32) else c.

(** [s.lower()] *)
Fixpoint lower (s : string) : string :=
  match s with
  | EmptyString => EmptyString
  | String c s' => String (lower_char c) (lower s')
  end.

Fixpoint lstrip (s : string) : string :=
  match s with
  | EmptyString => EmptyString
  | String c s' => if isspace c then lstrip s' else s
  end.

Fixpoint rstrip (s : string) : string :=
  match s with
  | EmptyString => EmptyString
  | String c s' =>
      match rstrip s' with
      | EmptyString => if isspace c then EmptyString else String c EmptyString
      | r => String c r
      end
  end.

(** [s.strip()] *)
Definition strip (s : string) : string := rstrip (lstrip s).

Fixpoint all (p : ascii -> bool) (s : string) : bool :=
  match s with
  | EmptyString => true
  | String c s' => p c && all p s'
  end.

(** [c in s] for a one-character [c]. *)
Fixpoint contains (c : ascii) (s : string) : bool :=
  match s with
  | EmptyString => false
  | String x s' => if decide (x = c) then true else contains c s'
  end.

(** [s.split(sep, 1)]: [None] when [sep] does not occur (the result list
    has one element), otherwise the parts before and after the first
    occurrence. *)
Fixpoint split1 (sep : ascii) (s : string) : option (string * string) :=
  match s with
  | EmptyString => None
  | String x s' =>
      if decide (x = sep) then Some (EmptyString, s')
      else match split1 sep s' with
           | Some (a, b) => Some (String x a, b)
           | None => None
           end
  end.

(** [s.rsplit(sep, 1)[-1]]: the text after the last [sep], the whole of
    [s] when [sep] does not occur. *)
Fixpoint rsplit1_last (sep : ascii) (s : string) : string :=
  match s with
  | EmptyString => EmptyString
  | String x s' =>
      if contains sep s' then rsplit1_last sep s'
      else if decide (x = sep) then s' else s
  end.

(** [s.replace(c, by)] for a one-character [c]. *)
Fixpoint replace (c : ascii) (by_ : string) (s : string) : string :=
  match s with
  | EmptyString => EmptyString
  | String x s' =>
      if decide (x = c) then by_ +:+ replace c by_ s'
      else String x (replace c by_ s')
  end.

(** Truthiness of a [str]. *)
Definition truthy (s : string) : bool :=
  match s with EmptyString => false | _ => true end.

End Str.

(** ** Regular expressions, as far as [_email_re] needs them *)

Module Re.

Inductive regex : Type :=
| Void
| Eps
| Class (p : ascii -> bool)
| Cat (r1 r2 : regex)
| Alt (r1 r2 : regex)
| Star (r : regex).

Definition Chr (c : ascii) : regex :=
  Class (fun x => bool_decide (x = c)).
Definition Plus (r : regex) : regex := Cat r (Star r).

(** The language of a regular expression. *)
Inductive lang : regex -> string -> Prop :=
| lang_eps : lang Eps EmptyString
| lang_class p c : p c = true -> lang (Class p) (String c EmptyString)
| lang_cat r1 r2 s1 s2 : lang r1 s1 -> lang r2 s2 -> lang (Cat r1 r2) (s1 +:+ s2)
| lang_alt_l r1 r2 s : lang r1 s -> lang (Alt r1 r2) s
| lang_alt_r r1 r2 s : lang r2 s -> lang (Alt r1 r2) s
| lang_star_nil r : lang (Star r) EmptyString
| lang_star_cons r s1 s2 :
    lang r s1 -> lang (Star r) s2 -> lang (Star r) (s1 +:+ s2).

Fixpoint nullable (r : regex) : bool :=
  match r with
  | Void => false
  | Eps => true
  | Class _ => false
  | Cat r1 r2 => nullable r1 && nullable r2
  | Alt r1 r2 => nullable r1 || nullable r2
  | Star _ => true
  end.

Fixpoint deriv (c : ascii) (r : regex) : regex :=
  match r with
  | Void => Void
  | Eps => Void
  | Class p => if p c then Eps else Void
  | Cat r1 r2 =>
      if nullable r1 then Alt (Cat (deriv c r1) r2) (deriv c r2)
      else Cat (deriv c r1) r2
  | Alt r1 r2 => Alt (deriv c r1) (deriv c r2)
  | Star r1 => Cat (deriv c r1) (Star r1)
  end.

(** Does the whole of [s] belong to the language of [r]? *)
Fixpoint fullmatch (r : regex) (s : string) : bool :=
  match s with
  | EmptyString => nullable r
  | String c s' => fullmatch (deriv c r) s'
  end.

(** [s] without one final line feed, when it ends in one. *)
Fixpoint chop_newline (s : string) : option string :=
  match s with
  | EmptyString => None
  | String c EmptyString =>
      if decide (c = "010"%char) then Some EmptyString else None
  | String c s' => String c <$> chop_newline s'
  end.

(** [bool(re.compile("^" r "$").match(s))]: without [re.MULTILINE], [^]
    is the start of the text and [$] is its end or the position just
    before a line feed that ends it. *)
Definition match_anchored (r : regex) (s : string) : bool :=
  fullmatch r s
  || match chop_newline s with
     | Some s' => fullmatch r s'
     | None => false
     end.

End Re.

(** ** The pure helpers of the module *)

(** [[^@\s]] *)
Definition not_at_space (c : ascii) : bool :=
  negb (bool_decide (c = "@"%char)) && negb (Str.isspace c).

(** [_email_re = re.compile(r"^[^@\s]+@[^@\s]+\.[^@\s]+$")]; the anchors are
    the business of [Re.match_anchored]. *)
Definition _email_re : Re.regex :=
  Re.Cat (Re.Plus (Re.Class not_at_space))
    (Re.Cat (Re.Chr "@")
       (Re.Cat (Re.Plus (Re.Class not_at_space))
          (Re.Cat (Re.Chr ".") (Re.Plus (Re.Class not_at_space))))).

Definition _is_valid_email (email : string) : bool :=
  let email := Str.strip email in
  if negb (Str.truthy email) then false
  else Re.match_anchored _email_re email.

(** [VALID_EXTENSIONS = {".csv", ".txt"}] *)
Definition VALID_EXTENSIONS : list string := [".csv"; ".txt"].

Definition _is_valid_extension (path : string) : bool :=
  let ext := Str.rsplit1_last "." (Str.lower path) in
  bool_decide (("." +:+ ext) ∈ VALID_EXTENSIONS).

(** [_get_domain]: [email.strip().split("@", 1)[1].lower()]; indexing the
    one-element list raises [IndexError]. *)
Definition _get_domain (email : string) : option string :=
  match Str.split1 "@" (Str.strip email) with
  | Some (_, after) => Some (Str.lower after)
  | None => None
  end.

(** ** [datetime] objects *)

(** The fields of a [datetime]; [tzinfo] is the UTC offset in microseconds,
    [None] for a naive object. *)
Record datetime : Type := {
  year : Z; month : Z; day : Z;
  hour : Z; minute : Z; second : Z; microsecond : Z;
  tzinfo : option Z
}.

Module Datetime.

Local Open Scope Z_scope.

Definition is_leap (y : Z) : bool :=
  (y mod 4 =? 0) && (negb (y mod 100 =? 0) || (y mod 400 =? 0)).

Definition days_before_year (y : Z) : Z :=
  let y := y - 1 in y * 365 + y / 4 - y / 100 + y / 400.

Definition days_in_month (y m : Z) : Z :=
  if (m =? 2) then (if is_leap y then 29 else 28)
  else if (m =? 4) || (m =? 6) || (m =? 9) || (m =? 11) then 30 else 31.

Definition days_before_month (y m : Z) : Z :=
  foldr (fun k acc => days_in_month y (Z.of_nat k) + acc) 0
        (seq 1 (Z.to_nat (m - 1))).

(** [date.toordinal()] *)
Definition ymd2ord (y m d : Z) : Z :=
  days_before_year y + days_before_month y m + d.

(** Microseconds on the object's own wall clock since ordinal 0. *)
Definition wall_micros (t : datetime) : Z :=
  (((ymd2ord (year t) (month t) (day t) * 24 + hour t) * 60 + minute t) * 60
   + second t) * 1000000 + microsecond t.

(** The instant an aware object denotes, in microseconds of UTC. *)
Definition utc_micros (t : datetime) : Z :=
  wall_micros t - default 0 (tzinfo t).

(** [t.replace(tzinfo=timezone.utc)] *)
Definition replace_tzinfo_utc (t : datetime) : datetime :=
  {| year := year t; month := month t; day := day t;
     hour := hour t; minute := minute t; second := second t;
     microsecond := microsecond t; tzinfo := Some 0 |}.

Definition digit (n : Z) : ascii := ascii_of_N (48 + Z.to_N (n mod 10)).

(** ["%0<width>d" % n] for [0 <= n < 10 ^ width], the range of every field
    it is used on. *)
Fixpoint zfill (width : nat) (n : Z) : string :=
  match width with
  | O => EmptyString
  | S w => zfill w (n / 10) +:+ String (digit n) EmptyString
  end.

(** [_format_offset] *)
Definition format_offset (off : option Z) : string :=
  match off with
  | None => EmptyString
  | Some o =>
      let sign := if o <? 0 then "-" else "+" in
      let a := Z.abs o in
      let hh := a / 3600000000 in
      let mm := (a mod 3600000000) / 60000000 in
      let ss := (a mod 60000000) / 1000000 in
      let us := a mod 1000000 in
      sign +:+ zfill 2 hh +:+ ":" +:+ zfill 2 mm
      +:+ (if (ss =? 0) && (us =? 0) then EmptyString
           else ":" +:+ zfill 2 ss
                +:+ (if us =? 0 then EmptyString else "." +:+ zfill 6 us))
  end.

(** [t.isoformat()] *)
Definition isoformat (t : datetime) : string :=
  zfill 4 (year t) +:+ "-" +:+ zfill 2 (month t) +:+ "-" +:+ zfill 2 (day t)
  +:+ "T" +:+ zfill 2 (hour t) +:+ ":" +:+ zfill 2 (minute t)
  +:+ ":" +:+ zfill 2 (second t)
  +:+ (if microsecond t =? 0 then EmptyString
       else "." +:+ zfill 6 (microsecond t))
  +:+ format_offset (tzinfo t).

End Datetime.

(** ** Python values met in a registry answer *)

Inductive pyval : Type :=
| PNone
| PStr (s : string)
| PDatetime (t : datetime)
| PList (l : list pyval)
| POther (truth : bool).

(** [bool(v)]; a [datetime] is always true. *)
Definition py_truthy (v : pyval) : bool :=
  match v with
  | PNone => false
  | PStr s => Str.truthy s
  | PDatetime _ => true
  | PList l => match l with [] => false | _ => true end
  | POther b => b
  end.

(** ** Exceptions, the world and the environment *)

Inductive exn : Type :=
| ValueError (msg : string)
| IndexError
| AttributeError
| TypeError
| KeyError
| OSError
| QueryError.

Inductive event : Type :=
| EvWhois (domain : string)
| EvMx (domain : string)
| EvNow
| EvExists (path : string)
| EvMakedirs (path : string)
| EvOpen (path mode : string)
| EvWriteRow (path : string) (row : list string).

Record World : Type := {
  tick : nat;                    (* external interactions so far *)
  trace : list event;            (* oldest first *)
  files : gmap string string     (* regular files and their text *)
}.

(** What the program does not own: the registry and the resolver (an
    answer, or [None] when the query raises), the clock, and the library
    routines whose text is not part of the module. Answers may change from
    one interaction to the next: they depend on [tick]. *)
Class Env : Type := {
  whois_server : nat -> string -> option (gmap string pyval);
  mx_server : nat -> string -> option nat;
  clock : nat -> datetime;
  fromisoformat : string -> option datetime;
  csv_row : list string -> string;
  csv_parse : string -> list (list string);
  text_lines : string -> list string
}.

Definition M (A : Type) : Type := World -> World * (exn + A).

Definition ret {A} (a : A) : M A := fun w => (w, inr a).
Definition raise {A} (e : exn) : M A := fun w => (w, inl e).
Definition bind {A B} (m : M A) (k : A -> M B) : M B :=
  fun w => match m w with
           | (w', inl e) => (w', inl e)
           | (w', inr a) => k a w'
           end.

Notation "'do' x <- m ; k" := (bind m (fun x => k))
  (at level 10, x name, m at level 100, k at level 200).
Notation "'run' m ; k" := (bind m (fun _ => k))
  (at level 10, m at level 100, k at level 200).

(** [try: m  except Exception: h] *)
Definition try_except {A} (m : M A) (h : M A) : M A :=
  fun w => match m w with
           | (w', inl _) => h w'
           | r => r
           end.

Fixpoint foldM {A B} (f : B -> A -> M B) (b : B) (l : list A) : M B :=
  match l with
  | [] => ret b
  | x :: l' => do b' <- f b x; foldM f b' l'
  end.

Definition emit (e : event) : M unit :=
  fun w => ({| tick := tick w; trace := trace w ++ [e]; files := files w |},
            inr tt).

Definition advance : M nat :=
  fun w => ({| tick := S (tick w); trace := trace w; files := files w |},
            inr (tick w)).

Definition set_file (path text : string) : M unit :=
  fun w => ({| tick := tick w; trace := trace w;
               files := <[path := text]> (files w) |}, inr tt).

Definition get_files : M (gmap string string) :=
  fun w => (w, inr (files w)).

Section Program.

Context {E : Env}.

(** *** The collaborators *)

(** [whois.whois(domain)] *)
Definition whois_whois (domain : string) : M (gmap string pyval) :=
  run emit (EvWhois domain);
  do t <- advance;
  match whois_server t domain with
  | Some answer => ret answer
  | None => raise QueryError
  end.

(** [len(dns.resolver.resolve(domain, "MX"))] *)
Definition dns_resolve_mx (domain : string) : M nat :=
  run emit (EvMx domain);
  do t <- advance;
  match mx_server t domain with
  | Some n => ret n
  | None => raise QueryError
  end.

(** [datetime.now(timezone.utc)] *)
Definition datetime_now_utc : M datetime :=
  run emit EvNow;
  do t <- advance;
  ret (Datetime.replace_tzinfo_utc (clock t)).

(** [a > b] on [datetime] objects: a naive and an aware one do not
    compare. *)
Definition datetime_gt (a b : datetime) : M bool :=
  match tzinfo a, tzinfo b with
  | Some _, Some _ =>
      ret (Datetime.utc_micros b <? Datetime.utc_micros a)%Z
  | None, None =>
      ret (Datetime.wall_micros b <? Datetime.wall_micros a)%Z
  | _, _ => raise TypeError
  end.

(** [os.path.exists(path)] *)
Definition os_path_exists (path : string) : M bool :=
  run emit (EvExists path);
  do fs <- get_files;
  ret (bool_decide (is_Some (fs !! path))).

(** [os.makedirs(path, exist_ok=True)]; directories are not tracked, so
    the call is recorded and never fails. *)
Definition os_makedirs (path : string) : M unit := emit (EvMakedirs path).

(** [open(path, "r")] and reading the text, which the store holds
    decoded; the only failure is a path that names no file. *)
Definition open_read (path : string) : M string :=
  run emit (EvOpen path "r");
  do fs <- get_files;
  match fs !! path with
  | Some text => ret text
  | None => raise OSError
  end.

(** [open(path, "w")]: the file is created or truncated; a path that
    cannot be opened for writing is not modelled. *)
Definition open_write (path : string) : M unit :=
  run emit (EvOpen path "w");
  set_file path EmptyString.

(** [writer.writerow(...)] on the file open at [path], the row already
    laid out in the order of the field names; the text reaches the file at
    once (no buffering is modelled). *)
Definition writerow (path : string) (row : list string) : M unit :=
  run emit (EvWriteRow path row);
  do fs <- get_files;
  set_file path (default EmptyString (fs !! path) +:+ csv_row row).

(** The world after one [writerow]. *)
Definition wrote (path : string) (row : list string) (w : World) : World :=
  {| tick := tick w;
     trace := trace w ++ [EvWriteRow path row];
     files := <[path := default "" (files w !! path) +:+ csv_row row]> (files w) |}.

(** *** Registration lookup *)

Definition _extract_expiration_date (whois_data : gmap string pyval)
  : option datetime :=
  let exp := default PNone (whois_data !! "expiration_date") in
  if negb (py_truthy exp) then None
  else
    let exp := match exp with
               | PList (first :: _) => first
               | _ => exp
               end in
    match exp with
    | PStr s => fromisoformat (Str.replace "Z" "+00:00" s)
    | PDatetime t => Some t
    | _ => None
    end.

Definition _whois_domain (domain : string) : M bool :=
  do w <- try_except (do a <- whois_whois domain; ret (Some a)) (ret None);
  match w with
  | None => ret false
  | Some w =>
      match _extract_expiration_date w with
      | None => ret false
      | Some exp =>
          let exp := match tzinfo exp with
                     | None => Datetime.replace_tzinfo_utc exp
                     | Some _ => exp
                     end in
          do now <- datetime_now_utc;
          datetime_gt exp now
      end
  end.

(** *** Mail-exchange lookup *)

Definition _mx_queries_domain (domain : string) : M bool :=
  try_except (do answers <- dns_resolve_mx domain;
              ret (0 <? answers)%nat)
             (ret false).

(** *** Rows of [csv.DictReader] *)

(** A value of a row dictionary: text, the [restval] [None], or the list
    of surplus fields kept under the [restkey] [None]. *)
Inductive cell : Type :=
| CStr (s : string)
| CNone
| CRest (l : list string).

(** An insertion-ordered dictionary; the key [None] is the [restkey]. *)
Definition rowdict : Type := list (option string * cell).

(** [d[k] = v] *)
Fixpoint dict_set (k : option string) (v : cell) (d : rowdict) : rowdict :=
  match d with
  | [] => [(k, v)]
  | (k', v') :: d' =>
      if decide (k = k') then (k, v) :: d' else (k', v') :: dict_set k v d'
  end.

(** [d.get(k, dflt)] *)
Fixpoint dict_get (k : string) (dflt : cell) (d : rowdict) : cell :=
  match d with
  | [] => dflt
  | (k', v) :: d' => if decide (Some k = k') then v else dict_get k dflt d'
  end.

(** One step of [DictReader.__next__] on a non-blank record. *)
Definition dictreader_row (fieldnames row : list string) : rowdict :=
  let d := foldl (fun d kv => dict_set (Some kv.1) (CStr kv.2) d) []
                 (zip fieldnames row) in
  let lf := length fieldnames in
  let lr := length row in
  if (lf <? lr)%nat then dict_set None (CRest (drop lf row)) d
  else foldl (fun d k => dict_set (Some k) CNone d) d (drop lr fieldnames).

(** [csv.DictReader(f)]: the field names (the first record, if any) and
    the dictionaries of the later non-blank records. *)
Definition DictReader (text : string) : option (list string) * list rowdict :=
  match csv_parse text with
  | [] => (None, [])
  | fieldnames :: records =>
      (Some fieldnames,
       dictreader_row fieldnames
         <$> filter (fun r => r ≠ []) records)
  end.

(** *** The domain cache *)

(** A value of the cache; [checked_at] is text, or [None] when the
    snapshot record was too short to have the column. *)
Record DomainFact : Type := {
  whois_alive : bool;
  mx_exists : bool;
  checked_at : option string
}.

Definition cell_is (c : cell) (s : string) : bool :=
  match c with
  | CStr x => bool_decide (x = s)
  | _ => false
  end.

(** The body of the loop of [_load_domain_cache]; [None.strip()] raises. *)
Definition load_row (cache : gmap string DomainFact) (row : rowdict)
  : M (gmap string DomainFact) :=
  match dict_get "domain" (CStr "") row with
  | CStr s =>
      let domain := Str.lower (Str.strip s) in
      if negb (Str.truthy domain) then ret cache
      else ret (<[domain :=
                   {| whois_alive := cell_is (dict_get "whois_alive" (CStr "0") row) "1";
                      mx_exists := cell_is (dict_get "mx_exists" (CStr "0") row) "1";
                      checked_at := match dict_get "checked_at" (CStr "") row with
                                    | CStr t => Some t
                                    | _ => None
                                    end |}]> cache)
  | _ => raise AttributeError
  end.

Definition _load_domain_cache (path : option string)
  : M (gmap string DomainFact) :=
  match path with
  | None => ret ∅
  | Some p =>
      if negb (Str.truthy p) then ret ∅
      else
        do present <- os_path_exists p;
        if negb present then ret ∅
        else
          do text <- open_read p;
          foldM load_row ∅ (DictReader text).2
  end.

Definition bit (b : bool) : string := if b then "1" else "0".

(** [os.path.dirname] of [posixpath]. *)
Fixpoint upto_last (sep : ascii) (s : string) : string :=
  match s with
  | EmptyString => EmptyString
  | String x s' =>
      if Str.contains sep s' then String x (upto_last sep s')
      else if decide (x = sep) then String x EmptyString else EmptyString
  end.

Fixpoint rstrip_char (sep : ascii) (s : string) : string :=
  match s with
  | EmptyString => EmptyString
  | String c s' =>
      match rstrip_char sep s' with
      | EmptyString =>
          if decide (c = sep) then EmptyString else String c EmptyString
      | r => String c r
      end
  end.

Definition os_path_dirname (p : string) : string :=
  let head := upto_last "/" p in
  if Str.truthy head
     && negb (Str.all (fun c => bool_decide (c = "/"%char)) head)
  then rstrip_char "/" head else head.

Definition cache_fieldnames : list string :=
  ["domain"; "whois_alive"; "mx_exists"; "checked_at"].

(** The body of the loop of [_save_domain_cache]: the clock is read only
    when [checked_at] is falsy. *)
Definition save_row (path : string) (item : string * DomainFact) : M unit :=
  do stamp <- match checked_at item.2 with
              | Some t =>
                  if Str.truthy t then ret t
                  else do now <- datetime_now_utc; ret (Datetime.isoformat now)
              | None => do now <- datetime_now_utc; ret (Datetime.isoformat now)
              end;
  writerow path [item.1; bit (whois_alive item.2); bit (mx_exists item.2); stamp].

Definition _save_domain_cache (path : option string)
           (cache : gmap string DomainFact) : M unit :=
  match path with
  | None => ret tt
  | Some p =>
      if negb (Str.truthy p) then ret tt
      else
        let dirpath := os_path_dirname p in
        run (if Str.truthy dirpath then os_makedirs dirpath else ret tt);
        run open_write p;
        run writerow p cache_fieldnames;
        foldM (fun _ item => save_row p item) tt (map_to_list cache)
  end.

(** *** Resolution *)

(** [_process_email]; [writer] is the path of the open output file, and
    the mutated dictionary is returned. *)
Definition _process_email (email : string)
           (domain_cache : gmap string DomainFact) (writer : string)
  : M (gmap string DomainFact) :=
  let email := Str.strip email in
  if negb (_is_valid_email email) then ret domain_cache
  else
    match _get_domain email with
    | None => raise IndexError
    | Some domain =>
        do r <- match domain_cache !! domain with
                | None =>
                    do alive <- _whois_domain domain;
                    do mx <- (if alive then _mx_queries_domain domain
                              else ret false);
                    do now <- datetime_now_utc;
                    ret (<[domain := {| whois_alive := alive;
                                        mx_exists := mx;
                                        checked_at := Some (Datetime.isoformat now) |}]>
                           domain_cache,
                         alive, mx)
                | Some info =>
                    ret (domain_cache, whois_alive info, mx_exists info)
                end;
        run writerow writer [email; domain; bit r.1.2; bit r.2];
        ret r.1.1
    end.

(** Resolving addresses one after the other with the same cache and the
    same writer: the loop both branches of the driver run. *)
Definition process_all (emails : list string)
           (domain_cache : gmap string DomainFact) (writer : string)
  : M (gmap string DomainFact) :=
  foldM (fun cache email => _process_email email cache writer)
        domain_cache emails.

(** *** The batch driver *)

Definition output_fieldnames : list string :=
  ["email"; "domain"; "whois_alive"; "mx_exists"].

(** [x.strip()] on a row value: only text has the method. *)
Definition cell_strip (c : cell) : M string :=
  match c with
  | CStr s => ret (Str.strip s)
  | _ => raise AttributeError
  end.

(** [row["email"]] *)
Definition dict_index (k : string) (d : rowdict) : M cell :=
  match dict_get k CNone d, bool_decide (Some k ∈ d.*1) with
  | v, true => ret v
  | _, false => raise KeyError
  end.

Definition csv_branch (emails_file output_file : string)
           (domain_cache : gmap string DomainFact)
  : M (gmap string DomainFact) :=
  do text <- open_read emails_file;
  let reader := DictReader text in
  let has_email_col := bool_decide ("email" ∈ default [] reader.1) in
  foldM (fun cache row =>
           match row with
           | [] => ret cache
           | first :: _ =>
               do email <- (if has_email_col
                            then do v <- dict_index "email" row; cell_strip v
                            else cell_strip first.2);
               _process_email email cache output_file
           end)
        domain_cache reader.2.

Definition txt_branch (emails_file output_file : string)
           (domain_cache : gmap string DomainFact)
  : M (gmap string DomainFact) :=
  do text <- open_read emails_file;
  process_all (Str.strip <$> text_lines text) domain_cache output_file.

Definition validate_emails (emails_file output_file : string)
           (cached_domains : option string) : M unit :=
  if negb (_is_valid_extension emails_file)
  then raise (ValueError "Входной файл должен быть .csv/.txt")
  else
    do domain_cache <- _load_domain_cache cached_domains;
    let ext := Str.rsplit1_last "." (Str.lower emails_file) in
    let out_dir := os_path_dirname output_file in
    run (if Str.truthy out_dir then os_makedirs out_dir else ret tt);
    run open_write output_file;
    run writerow output_file output_fieldnames;
    do domain_cache <-
      (if bool_decide (ext = "csv")
       then csv_branch emails_file output_file domain_cache
       else if bool_decide (ext = "txt")
       then txt_branch emails_file output_file domain_cache
       else raise (ValueError "Поддерживаются только .csv и .txt"));
    _save_domain_cache cached_domains domain_cache.

End Program.

(** ** Observations on traces and caches *)

#[global] Instance event_eq_dec : EqDecision event.
Proof. solve_decision. Defined.

Definition is_lookup (e : event) : bool :=
  match e with
  | EvWhois _ | EvMx _ => true
  | _ => false
  end.

(** The registry and resolver queries of a trace, in order. *)
Definition lookup_calls (tr : list event) : list event :=
  List.filter is_lookup tr.

(** How often the event [ev] occurs in a trace. *)
Definition calls (ev : event) (tr : list event) : nat :=
  length (List.filter (fun e => bool_decide (e = ev)) tr).

(** A dead registration excludes a mail exchanger. *)
Definition fact_ok (f : DomainFact) : Prop :=
  whois_alive f = false -> mx_exists f = false.

Definition cache_ok (cache : gmap string DomainFact) : Prop :=
  forall d f, cache !! d = Some f -> fact_ok f.

(** What a run that starts with [cache], adds the events [new] and ends
    with [cache'] must satisfy: entries are only added; a domain is looked
    up at most once per kind of query, and not at all when it was cached;
    a looked-up domain ends up cached; every output row shows the flags of
    the cached fact of its domain. *)
Definition run_ok (cache : gmap string DomainFact) (new : list event)
           (cache' : gmap string DomainFact) : Prop :=
  cache ⊆ cache'
  /\ (forall d, (calls (EvWhois d) new <= 1 /\ calls (EvMx d) new <= 1)%nat)
  /\ (forall d, is_Some (cache !! d) ->
                calls (EvWhois d) new = 0%nat /\ calls (EvMx d) new = 0%nat)
  /\ (forall d, (0 < calls (EvWhois d) new + calls (EvMx d) new)%nat ->
                is_Some (cache' !! d))
  /\ (forall p e d a m,
         EvWriteRow p [e; d; a; m] ∈ new ->
         exists f, cache' !! d = Some f
                   /\ a = bit (whois_alive f) /\ m = bit (mx_exists f)).

(** The records in the file at [path] according to a trace: those written
    since the file was last opened for writing. *)
Definition record_step (path : string) (acc : list (list string)) (e : event)
  : list (list string) :=
  match e with
  | EvOpen p mode =>
      if decide (p = path /\ mode = "w") then [] else acc
  | EvWriteRow p r => if decide (p = path) then acc ++ [r] else acc
  | _ => acc
  end.

Definition file_records (path : string) (tr : list event) : list (list string) :=
  foldl (record_step path) [] tr.

(** The cache keys the program itself produces: not empty, lower-cased, no
    white space at either end. *)
Definition keys_normal (cache : gmap string DomainFact) : Prop :=
  forall d, is_Some (cache !! d) ->
            d <> "" /\ Str.lower d = d /\ Str.strip d = d.




Section Snapshots.

Context {E : Env}.


(** The snapshot record of a cache item saved while the tick went from [lo]
    to [hi]: a truthy [checked_at] is kept, a falsy one (absent or empty)
    is replaced by a reading of the clock in ISO form. *)
Definition saved_as (lo hi : nat) (item : string * DomainFact)
           (row : list string) : Prop :=
  exists stamp,
    row = [item.1; bit (whois_alive item.2); bit (mx_exists item.2); stamp]
    /\ stamp <> ""
    /\ match checked_at item.2 with
       | Some (String c t) => stamp = String c t
       | _ => exists t, (lo <= t < hi)%nat
                        /\ stamp = Datetime.isoformat
                                     (Datetime.replace_tzinfo_utc (clock t))
       end.

End Snapshots.

(** ** A concrete environment, to run the program on examples *)

Module Demo.

(** [s.split(sep)] for a one-character [sep]. *)
Fixpoint split_on (sep : ascii) (s : string) : list string :=
  match s with
  | EmptyString => [EmptyString]
  | String c s' =>
      if decide (c = sep) then EmptyString :: split_on sep s'
      else match split_on sep s' with
           | [] => [String c EmptyString]
           | x :: r => String c x :: r
           end
  end.

Definition LF : string := String "010" EmptyString.

Fixpoint join (sep : string) (l : list string) : string :=
  match l with
  | [] => EmptyString
  | [x] => x
  | x :: r => x +:+ sep +:+ join sep r
  end.

(** The lines of a text, each ended by a line feed. *)
Definition lines (text : string) : list string :=
  match reverse (split_on "010" text) with
  | EmptyString :: r => reverse r
  | r => reverse r
  end.

(** A dialect without quoting: commas between fields, a line feed after
    each record. It transports every field free of commas and line feeds. *)
Definition plain_row (row : list string) : string := join "," row +:+ LF.

Definition plain_parse (text : string) : list (list string) :=
  (fun l => match l with
            | EmptyString => []
            | _ => split_on "," l
            end) <$> lines text.

Definition noon : datetime :=
  {| year := 2026; month := 11; day := 3; hour := 12; minute := 0;
     second := 0; microsecond := 0; tzinfo := None |}.

Definition far : datetime :=
  {| year := 2099; month := 1; day := 1; hour := 0; minute := 0;
     second := 0; microsecond := 0; tzinfo := Some 0%Z |}.

(** [b.com] is registered until 2099 and has one mail exchanger, [d.org]
    expired in 2001, every other query fails; the clock advances one second
    per interaction; the parser knows the two expiration texts. *)
#[local] Instance env : Env := {|
  whois_server := fun _ d =>
    if decide (d = "b.com")
    then Some {[ "expiration_date" := PStr "2099-01-01T00:00:00Z" ]}
    else if decide (d = "d.org")
    then Some {[ "expiration_date" := PList [PStr "2001-01-01T00:00:00"] ]}
    else None;
  mx_server := fun _ d => if decide (d = "b.com") then Some 1%nat else None;
  clock := fun t =>
    {| year := 2026; month := 11; day := 3; hour := 12; minute := 0;
       second := Z.of_nat t mod 60; microsecond := 0; tzinfo := None |};
  fromisoformat := fun s =>
    if decide (s = "2099-01-01T00:00:00+00:00") then Some far
    else if decide (s = "2001-01-01T00:00:00")
    then Some {| year := 2001; month := 1; day := 1; hour := 0; minute := 0;
                 second := 0; microsecond := 0; tzinfo := None |}
    else None;
  csv_row := plain_row;
  csv_parse := plain_parse;
  text_lines := lines
|}.

Definition world0 : World := {| tick := 0; trace := []; files := ∅ |}.

(** A snapshot with one record whose registration flag is 0 and whose
    mail-exchange flag is 1. *)
Definition stale_snapshot : World :=
  {| tick := 0; trace := [];
     files := {[ "cache.csv" :=
                   "domain,whois_alive,mx_exists,checked_at" +:+ LF
                   +:+ "d.org,0,1,2024-01-01T00:00:00+00:00" +:+ LF ]} |}.

(** The cache of scenario B. *)
Definition cached_b_com : gmap string DomainFact :=
  {[ "b.com" := {| whois_alive := true; mx_exists := true;
                   checked_at := Some "2024-01-01T00:00:00+00:00" |} ]}.

(** Two facts, one without a time stamp. *)
Definition two_facts : gmap string DomainFact :=
  {[ "b.com" := {| whois_alive := true; mx_exists := true;
                   checked_at := Some "2024-01-01T00:00:00+00:00" |};
     "d.org" := {| whois_alive := false; mx_exists := false;
                   checked_at := None |} ]}.


(** A line-oriented input with two addresses and a line that is none. *)
Definition txt_text : string :=
  "a@b.com" +:+ LF +:+ "  junk " +:+ LF +:+ " c@d.org " +:+ LF.

Definition txt_world : World :=
  {| tick := 0; trace := []; files := {[ "in.txt" := txt_text ]} |}.

(** A delimited input with the addresses in the second column and a blank
    record. *)
Definition csv_text : string :=
  "name,email" +:+ LF +:+ "ann,a@b.com" +:+ LF +:+ LF
  +:+ "bob, c@d.org" +:+ LF.

Definition csv_world : World :=
  {| tick := 0; trace := []; files := {[ "in.csv" := csv_text ]} |}.

(** The same with a record that stops before the [email] column. *)
Definition short_text : string :=
  "name,email" +:+ LF +:+ "ann,a@b.com" +:+ LF +:+ "bob" +:+ LF
  +:+ "cy,c@d.org" +:+ LF.

Definition short_world : World :=
  {| tick := 0; trace := []; files := {[ "in.csv" := short_text ]} |}.

(** A snapshot with a domain that occurs twice, in different spellings,
    and a record cut short. *)
Definition dup_text : string :=
  "domain,whois_alive,mx_exists,checked_at" +:+ LF
  +:+ " B.com,0,0,2023-01-01" +:+ LF
  +:+ "b.com,1,1,2024-01-01" +:+ LF
  +:+ "d.org,1" +:+ LF.

Definition dup_world : World :=
  {| tick := 0; trace := []; files := {[ "cache.csv" := dup_text ]} |}.

(** A snapshot whose two records are sound: a live registration with a
    mail exchanger, and a dead one without. *)
Definition sound_text : string :=
  "domain,whois_alive,mx_exists,checked_at" +:+ LF
  +:+ "b.com,1,1,2024-01-01T00:00:00+00:00" +:+ LF
  +:+ "d.org,0,0,2024-01-01T00:00:00+00:00" +:+ LF.

Definition sound_snapshot : World :=
  {| tick := 0; trace := []; files := {[ "cache.csv" := sound_text ]} |}.

End Demo.

(** ** Further observations *)

(** Every character class of [r] gives the same answer on [c] and on
    [f c]. *)
Fixpoint class_stable (f : ascii -> ascii) (r : Re.regex) : Prop :=
  match r with
  | Re.Void | Re.Eps => True
  | Re.Class p => forall c, p (f c) = p c
  | Re.Cat r1 r2 | Re.Alt r1 r2 => class_stable f r1 /\ class_stable f r2
  | Re.Star r1 => class_stable f r1
  end.

(** The files a computation may change: outside [S] it leaves every file
    as it found it, whether it returns or raises. *)
Definition touches_only {A} (S : string -> Prop) (m : M A) : Prop :=
  forall w q, ~ S q -> files (m w).1 !! q = files w !! q.

(** The exceptions a computation may raise. *)
Definition raises_only {A} (S : exn -> Prop) (m : M A) : Prop :=
  forall w x, (m w).2 = inl x -> S x.

(** No file at all, and no exception at all. *)
Definition nothing : string -> Prop := fun _ => False.
Definition never : exn -> Prop := fun _ => False.

(** The exceptions that can leave the driver: the complaint about the
    extension, a file that cannot be read, a row value that is [None]. *)
Definition driver_errors (x : exn) : Prop :=
  x = ValueError "Входной файл должен быть .csv/.txt"
  \/ x = OSError \/ x = AttributeError.

(** What can leave the driver once the extension is accepted, in a file
    store where writing cannot fail. *)
Definition read_errors (x : exn) : Prop := x = OSError \/ x = AttributeError.

(** A computation only ever appends to the trace. *)
Definition appends_only {A} (m : M A) : Prop :=
  forall w, exists tr, trace (m w).1 = trace w ++ tr.

(** The column of a delimited input that holds the addresses: the one
    named [email] when the header has it, the first one otherwise. *)
Definition address_column (fieldnames : list string) (i : nat) : Prop :=
  fieldnames !! i = Some "email"
  \/ (("email" ∉ fieldnames) /\ i = 0%nat /\ fieldnames <> []).

(** The addresses a delimited input offers: the [i]-th field, trimmed, of
    every record that is not blank. *)
Definition addresses_of (i : nat) (records : list (list string)) : list string :=
  omap (fun r : list string => Str.strip <$> (r !! i))
       (filter (fun r => r ≠ []) records).

(** The body of the loop of the delimited branch, for a reader with the
    given field names. *)
Definition csv_step {E : Env} (fieldnames : list string) (output_file : string)
           (cache : gmap string DomainFact) (row : rowdict)
  : M (gmap string DomainFact) :=
  match row with
  | [] => ret cache
  | first :: _ =>
      do email <- (if bool_decide ("email" ∈ fieldnames)
                   then do v <- dict_index "email" row; cell_strip v
                   else cell_strip first.2);
      _process_email email cache output_file
  end.

(** The output row of a valid address, flags apart. *)
Definition row_of_address (email : string) (row : list string) : Prop :=
  exists d a m,
    _get_domain email = Some d /\ row = [Str.strip email; d; a; m]
    /\ (a = "0" \/ a = "1") /\ (m = "0" \/ m = "1").

(** A record of a snapshot, as the reader hands it to the loader, is sound
    when it reports a mail exchanger only together with a live
    registration: its [mx_exists] field reads [1] only if its
    [whois_alive] field does. *)
Definition record_ok (row : rowdict) : Prop :=
  dict_get "mx_exists" (CStr "0") row = CStr "1" ->
  dict_get "whois_alive" (CStr "0") row = CStr "1".

(** Every record of the snapshot at [path], if there is one, is sound. *)
Definition snapshot_ok {E : Env} (path : option string) (w : World) : Prop :=
  forall p text,
    path = Some p -> files w !! p = Some text ->
    Forall record_ok (DictReader text).2.

(** The exceptions that are raised somewhere inside the program but are
    caught, or guarded against, before they can leave it: a failed
    registry or resolver query, the index error of [_get_domain], the key
    error of [row["email"]], the type error of comparing a naive with an
    aware time, and the driver's second complaint about the extension. *)
Definition internal_errors (x : exn) : Prop :=
  x = QueryError \/ x = IndexError \/ x = KeyError \/ x = TypeError
  \/ x = ValueError "Поддерживаются только .csv и .txt".

(** * Properties *)

(** ** Text *)

#[local] Arguments String.append !_ _ / : simpl nomatch.

Lemma append_nil_r (s : string) : s +:+ "" = s.
Proof. induction s as [|c s IH]; simpl; [reflexivity | now rewrite IH]. Qed.

Lemma append_assoc (a b c : string) : (a +:+ b) +:+ c = a +:+ (b +:+ c).
Proof. induction a as [|x a IH]; simpl; [reflexivity | now rewrite IH]. Qed.

Lemma append_eq_nil (a b : string) : a +:+ b = "" -> a = "" /\ b = "".
Proof. destruct a; simpl; [tauto | discriminate]. Qed.

Lemma append_eq_cons (a b : string) (c : ascii) (s : string) :
  a +:+ b = String c s ->
  (a = "" /\ b = String c s) \/ (exists a', a = String c a' /\ s = a' +:+ b).
Proof.
  destruct a as [|x a]; simpl; intros H; [left; auto | right].
  injection H as -> <-. eauto.
Qed.

Module StrFacts.

Import Str.

Lemma all_app p (a b : string) : all p (a +:+ b) = all p a && all p b.
Proof.
  induction a as [|c a IH]; simpl; [reflexivity |].
  rewrite IH. now rewrite andb_assoc.
Qed.

Lemma contains_app c (a b : string) :
  contains c (a +:+ b) = contains c a || contains c b.
Proof.
  induction a as [|x a IH]; simpl; [reflexivity |].
  destruct (decide (x = c)); [reflexivity | exact IH].
Qed.

Lemma contains_all c (s : string) :
  contains c s = negb (all (fun x => negb (bool_decide (x = c))) s).
Proof.
  induction s as [|x s IH]; simpl; [reflexivity |].
  destruct (decide (x = c)) as [->|Hne].
  - now rewrite bool_decide_eq_true_2.
  - rewrite bool_decide_eq_false_2 by assumption. simpl. exact IH.
Qed.

(** Case folding neither creates nor removes a full stop. *)
Lemma lower_char_dot (c : ascii) : lower_char c = "."%char <-> c = "."%char.
Proof.
  destruct c as [[] [] [] [] [] [] [] []]; vm_compute; split; congruence.
Qed.

Lemma lower_app (a b : string) : lower (a +:+ b) = lower a +:+ lower b.
Proof. induction a as [|c a IH]; simpl; [reflexivity | now rewrite IH]. Qed.

Lemma contains_dot_lower (s : string) : contains "." (lower s) = contains "." s.
Proof.
  induction s as [|c s IH]; simpl; [reflexivity |].
  destruct (decide (lower_char c = "."%char)) as [H|H];
    destruct (decide (c = "."%char)) as [H'|H']; try reflexivity; try exact IH;
    pose proof (lower_char_dot c); tauto.
Qed.

Lemma rsplit1_last_none sep (s : string) :
  contains sep s = false -> rsplit1_last sep s = s.
Proof.
  destruct s as [|x s]; simpl; [reflexivity |].
  destruct (decide (x = sep)); [discriminate |].
  intros ->. reflexivity.
Qed.

Lemma rsplit1_last_app sep (base e : string) :
  contains sep e = false -> rsplit1_last sep (base +:+ String sep e) = e.
Proof.
  intros He. induction base as [|x base IH]; simpl.
  - rewrite He. destruct (decide (sep = sep)); [reflexivity | congruence].
  - rewrite contains_app. simpl.
    destruct (decide (sep = sep)); [| congruence].
    rewrite orb_true_r. exact IH.
Qed.

(** What [lstrip] and [rstrip] leave. *)
Lemma lstrip_head (s : string) c r :
  lstrip s = String c r -> isspace c = false.
Proof.
  induction s as [|x s IH]; simpl; [discriminate |].
  destruct (isspace x) eqn:Hx; [exact IH |].
  intros [= <- <-]. exact Hx.
Qed.

Lemma rstrip_nil_all (s : string) : rstrip s = "" <-> all isspace s = true.
Proof.
  induction s as [|c s IH]; simpl; [tauto |].
  destruct (rstrip s) eqn:Hr.
  - destruct (isspace c); simpl; [| split; discriminate].
    split; intros _; [now apply IH | reflexivity].
  - split; [discriminate |].
    intros [_ H]%andb_prop. apply IH in H. discriminate.
Qed.

Lemma rstrip_fixed (s : string) :
  (forall a c, s = a +:+ String c "" -> isspace c = false) -> rstrip s = s.
Proof.
  induction s as [|c s IH]; intros H; [reflexivity |].
  cbn [rstrip]. destruct s as [|d s'].
  - cbn. rewrite (H "" c eq_refl). reflexivity.
  - rewrite IH; [reflexivity |].
    intros a x Hx. apply (H (String c a) x). simpl. now rewrite Hx.
Qed.

Lemma rstrip_last (s a : string) c :
  rstrip s = a +:+ String c "" -> isspace c = false.
Proof.
  revert a. induction s as [|x s IH]; simpl; intros a.
  - destruct a; discriminate.
  - destruct (rstrip s) as [|y r] eqn:Hr.
    + destruct (isspace x) eqn:Hx; [destruct a; discriminate |].
      destruct a as [|z a]; simpl.
      * intros [= <-]. exact Hx.
      * intros [= _ H]. destruct a; discriminate.
    + destruct a as [|z a]; simpl; [discriminate |].
      intros [= _ H]. apply (IH a). exact H.
Qed.

Lemma rstrip_head (s : string) c r :
  rstrip s = String c r -> exists r', s = String c r'.
Proof.
  destruct s as [|x s]; simpl; [discriminate |].
  destruct (rstrip s); [destruct (isspace x) |]; intros [= <- <-] || discriminate;
    eauto.
Qed.

Lemma strip_head (s : string) c r : strip s = String c r -> isspace c = false.
Proof.
  unfold strip. intros H. destruct (rstrip_head _ _ _ H) as [r' Hr'].
  exact (lstrip_head _ _ _ Hr').
Qed.

Lemma strip_last (s a : string) c :
  strip s = a +:+ String c "" -> isspace c = false.
Proof. unfold strip. apply rstrip_last. Qed.

Lemma lstrip_fixed (s : string) c r :
  s = String c r -> isspace c = false -> lstrip s = s.
Proof. intros -> H. simpl. now rewrite H. Qed.

(** [strip] is idempotent. *)
Lemma strip_strip (s : string) : strip (strip s) = strip s.
Proof.
  destruct (strip s) as [|c r] eqn:Hs; [reflexivity |].
  unfold strip at 1.
  rewrite (lstrip_fixed _ c r eq_refl (strip_head _ _ _ Hs)).
  apply rstrip_fixed. intros a x Hx. rewrite <- Hs in Hx.
  exact (strip_last _ _ _ Hx).
Qed.

(** Text free of white space is left alone by [strip]. *)
Lemma strip_no_space (s : string) :
  all (fun c => negb (isspace c)) s = true -> strip s = s.
Proof.
  intros H. unfold strip.
  assert (Hl : lstrip s = s).
  { destruct s as [|c r]; [reflexivity |]. simpl in *.
    apply andb_prop in H as [Hc _]. apply negb_true_iff in Hc.
    now rewrite Hc. }
  rewrite Hl. apply rstrip_fixed. intros a c ->.
  rewrite all_app in H. simpl in H.
  apply andb_prop in H as [_ H]. apply andb_prop in H as [H _].
  now apply negb_true_iff in H.
Qed.

(** [strip] only removes characters. *)
Lemma lstrip_suffix (s : string) : exists a, s = a +:+ lstrip s.
Proof.
  induction s as [|c s [a IH]]; simpl; [exists ""; reflexivity |].
  destruct (isspace c); [| exists ""; reflexivity].
  exists (String c a). simpl. now rewrite <- IH.
Qed.

Lemma rstrip_prefix (s : string) : exists b, s = rstrip s +:+ b.
Proof.
  induction s as [|c s [b IH]]; simpl; [exists ""; reflexivity |].
  destruct (rstrip s) as [|y r] eqn:Hr.
  - destruct (isspace c).
    + exists (String c s). reflexivity.
    + exists b. simpl. simpl in IH. now rewrite <- IH.
  - exists b. simpl. simpl in IH. now rewrite <- IH.
Qed.

Lemma strip_infix (s : string) : exists a b, s = a +:+ strip s +:+ b.
Proof.
  destruct (lstrip_suffix s) as [a Ha].
  destruct (rstrip_prefix (lstrip s)) as [b Hb].
  exists a, b. unfold strip. now rewrite <- Hb.
Qed.

Lemma contains_strip c (s : string) :
  contains c (strip s) = true -> contains c s = true.
Proof.
  destruct (strip_infix s) as (a & b & H). intros Hc.
  rewrite H, !contains_app, Hc. now rewrite orb_true_r.
Qed.

Lemma split1_app sep (l r : string) :
  contains sep l = false ->
  split1 sep (l +:+ String sep r) = Some (l, r).
Proof.
  induction l as [|x l IH]; simpl.
  - intros _. destruct (decide (sep = sep)); [reflexivity | congruence].
  - destruct (decide (x = sep)); [discriminate |].
    intros H. now rewrite (IH H).
Qed.

Lemma split1_none sep (s : string) :
  contains sep s = false -> split1 sep s = None.
Proof.
  induction s as [|x s IH]; simpl; [reflexivity |].
  destruct (decide (x = sep)); [discriminate |].
  intros H. now rewrite (IH H).
Qed.

Lemma replace_none c by_ (s : string) :
  contains c s = false -> replace c by_ s = s.
Proof.
  induction s as [|x s IH]; simpl; [reflexivity |].
  destruct (decide (x = c)); [discriminate |].
  intros H. now rewrite (IH H).
Qed.

Lemma replace_app c by_ (a b : string) :
  replace c by_ (a +:+ b) = replace c by_ a +:+ replace c by_ b.
Proof.
  induction a as [|x a IH]; simpl; [reflexivity |].
  destruct (decide (x = c)); rewrite IH; [| reflexivity].
  now rewrite append_assoc.
Qed.

End StrFacts.

(** ** The matcher decides the language *)

Module ReFacts.

Import Re.

Lemma lang_cat_inv r1 r2 s :
  lang (Cat r1 r2) s -> exists s1 s2, s = s1 +:+ s2 /\ lang r1 s1 /\ lang r2 s2.
Proof. inversion 1; subst; eauto. Qed.

Lemma lang_class_inv p s :
  lang (Class p) s -> exists c, s = String c "" /\ p c = true.
Proof. inversion 1; subst; eauto. Qed.

Lemma lang_chr_inv c s : lang (Chr c) s -> s = String c "".
Proof.
  intros (x & -> & H)%lang_class_inv.
  apply bool_decide_eq_true in H. now subst.
Qed.

Lemma lang_chr c : lang (Chr c) (String c "").
Proof. apply lang_class. now apply bool_decide_eq_true. Qed.

Lemma nullable_lang r : nullable r = true <-> lang r "".
Proof.
  induction r as [| |p|r1 IH1 r2 IH2|r1 IH1 r2 IH2|r IH]; simpl.
  - split; [discriminate | inversion 1].
  - split; [constructor | reflexivity].
  - split; [discriminate | inversion 1].
  - rewrite andb_true_iff, IH1, IH2. split.
    + intros [H1 H2]. exact (lang_cat _ _ "" "" H1 H2).
    + intros (s1 & s2 & Hs & H1 & H2)%lang_cat_inv.
      symmetry in Hs. apply append_eq_nil in Hs as [-> ->]. auto.
  - rewrite orb_true_iff, IH1, IH2. split.
    + intros [H|H]; [now apply lang_alt_l | now apply lang_alt_r].
    + inversion 1; subst; auto.
  - split; [constructor | reflexivity].
Qed.

Lemma deriv_sound c r : forall s, lang (deriv c r) s -> lang r (String c s).
Proof.
  induction r as [| |p|r1 IH1 r2 IH2|r1 IH1 r2 IH2|r IH]; simpl; intros s H.
  - inversion H.
  - inversion H.
  - destruct (p c) eqn:Hp; inversion H; subst. now constructor.
  - assert (Hcat : forall s, lang (Cat (deriv c r1) r2) s ->
                             lang (Cat r1 r2) (String c s)).
    { intros s' (s1 & s2 & -> & H1 & H2)%lang_cat_inv.
      exact (lang_cat _ _ (String c s1) s2 (IH1 _ H1) H2). }
    destruct (nullable r1) eqn:Hn; [| now apply Hcat].
    inversion H; subst; [now apply Hcat |].
    apply nullable_lang in Hn.
    exact (lang_cat _ _ "" (String c s) Hn (IH2 _ ltac:(eassumption))).
  - inversion H; subst; [apply lang_alt_l | apply lang_alt_r]; auto.
  - apply lang_cat_inv in H as (s1 & s2 & -> & H1 & H2).
    exact (lang_star_cons _ (String c s1) s2 (IH _ H1) H2).
Qed.

Lemma deriv_complete c r s0 :
  lang r s0 -> forall s, s0 = String c s -> lang (deriv c r) s.
Proof.
  induction 1 as [|p x Hp|r1 r2 s1 s2 H1 IH1 H2 IH2|r1 r2 u H IH|r1 r2 u H IH
                 |r|r s1 s2 H1 IH1 H2 IH2]; intros s Hs; simpl.
  - discriminate.
  - injection Hs as -> <-. rewrite Hp. constructor.
  - apply append_eq_cons in Hs as [[-> ->]|(a & -> & ->)].
    + apply nullable_lang in H1. rewrite H1.
      apply lang_alt_r. now apply IH2.
    + specialize (IH1 _ eq_refl).
      destruct (nullable r1); [apply lang_alt_l |]; now apply lang_cat.
  - apply lang_alt_l. now apply IH.
  - apply lang_alt_r. now apply IH.
  - discriminate.
  - apply append_eq_cons in Hs as [[-> ->]|(a & -> & ->)].
    + now apply IH2.
    + apply lang_cat; [now apply IH1 | assumption].
Qed.

Lemma fullmatch_lang r s : fullmatch r s = true <-> lang r s.
Proof.
  revert r. induction s as [|c s IH]; intros r; simpl.
  - apply nullable_lang.
  - rewrite IH. split; [apply deriv_sound |].
    intros H. exact (deriv_complete _ _ _ H _ eq_refl).
Qed.

Lemma lang_star_class p s : lang (Star (Class p)) s <-> Str.all p s = true.
Proof.
  split.
  - intros H. remember (Star (Class p)) as r eqn:Hr.
    induction H as [| | | | | |r s1 s2 H1 _ H2 IH2]; try discriminate.
    + reflexivity.
    + injection Hr as ->. apply lang_class_inv in H1 as (c & -> & Hc).
      simpl. rewrite Hc. now apply IH2.
  - induction s as [|c s IH]; simpl; intros H; [constructor |].
    apply andb_prop in H as [Hc Hs].
    exact (lang_star_cons _ (String c "") s (lang_class _ _ Hc) (IH Hs)).
Qed.

Lemma lang_plus_class p s :
  lang (Plus (Class p)) s <-> s <> "" /\ Str.all p s = true.
Proof.
  unfold Plus. split.
  - intros (s1 & s2 & -> & (c & -> & Hc)%lang_class_inv & H2%lang_star_class)%lang_cat_inv.
    simpl. rewrite Hc, H2. split; [discriminate | reflexivity].
  - intros [Hne H]. destruct s as [|c s]; [contradiction |].
    simpl in H. apply andb_prop in H as [Hc Hs].
    exact (lang_cat _ _ (String c "") s (lang_class _ _ Hc)
             (proj2 (lang_star_class _ _) Hs)).
Qed.

(** Text that [rstrip] produced does not end in a line feed, so [$] can
    only match at its very end. *)
Lemma chop_newline_rstrip s : chop_newline (Str.rstrip s) = None.
Proof.
  induction s as [|c s IH]; [reflexivity |].
  cbn [Str.rstrip]. destruct (Str.rstrip s) as [|y r] eqn:Hr.
  - destruct (Str.isspace c) eqn:Hc; [reflexivity |].
    cbn. destruct (decide (c = "010"%char)) as [->|]; [discriminate | reflexivity].
  - cbn [chop_newline]. cbn [chop_newline] in IH. rewrite IH. reflexivity.
Qed.

Lemma match_anchored_strip r s :
  match_anchored r (Str.strip s) = fullmatch r (Str.strip s).
Proof.
  unfold match_anchored, Str.strip. rewrite chop_newline_rstrip.
  apply orb_false_r.
Qed.

End ReFacts.

(** ** Syntax validator *)

(** The shape the pattern describes: local part, [@], and a domain part
    with a full stop inside; every other character outside [@] and white
    space. *)
Definition email_shape (s : string) : Prop :=
  exists l d t : string,
    s = l +:+ "@" +:+ d +:+ "." +:+ t
    /\ l <> "" /\ d <> "" /\ t <> ""
    /\ Str.all not_at_space l = true
    /\ Str.all not_at_space d = true
    /\ Str.all not_at_space t = true.

Lemma email_re_shape (s : string) : Re.lang _email_re s <-> email_shape s.
Proof.
  unfold _email_re, email_shape. split.
  - intros (l & s1 & -> & Hl & H1)%ReFacts.lang_cat_inv.
    apply ReFacts.lang_cat_inv in H1 as (a & s2 & -> & ->%ReFacts.lang_chr_inv & H2).
    apply ReFacts.lang_cat_inv in H2 as (d & s3 & -> & Hd & H3).
    apply ReFacts.lang_cat_inv in H3 as (b & t & -> & ->%ReFacts.lang_chr_inv & Ht).
    apply ReFacts.lang_plus_class in Hl as [? ?], Hd as [? ?], Ht as [? ?].
    exists l, d, t. repeat split; assumption.
  - intros (l & d & t & -> & Hl & Hd & Ht & Al & Ad & At).
    apply Re.lang_cat; [now apply ReFacts.lang_plus_class |].
    apply (Re.lang_cat _ _ "@"); [apply ReFacts.lang_chr |].
    apply Re.lang_cat; [now apply ReFacts.lang_plus_class |].
    apply (Re.lang_cat _ _ "."); [apply ReFacts.lang_chr |].
    now apply ReFacts.lang_plus_class.
Qed.

Lemma is_valid_email_lang (a : string) :
  _is_valid_email a = true <-> Re.lang _email_re (Str.strip a).
Proof.
  unfold _is_valid_email. rewrite ReFacts.match_anchored_strip.
  rewrite <- ReFacts.fullmatch_lang.
  destruct (Str.strip a); simpl; [| reflexivity].
  split; discriminate.
Qed.

Lemma not_at_space_no_at (s : string) :
  Str.all not_at_space s = true -> Str.contains "@" s = false.
Proof.
  induction s as [|c s IH]; simpl; [reflexivity |].
  unfold not_at_space at 1. intros [[H1 _]%andb_prop H2]%andb_prop.
  apply negb_true_iff, bool_decide_eq_false in H1.
  destruct (decide (c = "@"%char)); [contradiction | auto].
Qed.

Lemma not_at_space_no_space (s : string) :
  Str.all not_at_space s = true ->
  Str.all (fun c => negb (Str.isspace c)) s = true.
Proof.
  induction s as [|c s IH]; simpl; [reflexivity |].
  unfold not_at_space at 1. intros [[_ H1]%andb_prop H2]%andb_prop.
  rewrite H1. simpl. auto.
Qed.

Lemma email_shape_no_space (s : string) :
  email_shape s -> Str.all (fun c => negb (Str.isspace c)) s = true.
Proof.
  intros (l & d & t & -> & _ & _ & _ & Al & Ad & At).
  rewrite !StrFacts.all_app. simpl.
  now rewrite !not_at_space_no_space by assumption.
Qed.

Lemma email_shape_split (s : string) :
  email_shape s ->
  exists l dom, Str.split1 "@" s = Some (l, dom)
                /\ Str.contains "@" dom = false
                /\ Str.contains "." dom = true.
Proof.
  intros (l & d & t & -> & _ & _ & _ & Al & Ad & At).
  exists l, (d +:+ "." +:+ t). split; [| split].
  - apply (StrFacts.split1_app "@"). now apply not_at_space_no_at.
  - rewrite !StrFacts.contains_app. simpl.
    now rewrite !not_at_space_no_at by assumption.
  - rewrite !StrFacts.contains_app. simpl. now rewrite orb_true_r.
Qed.

(** C6. [_is_valid_email] trims the address; it is false when nothing is
    left, and otherwise true exactly when the trimmed text is in the
    language of [^[^@\s]+@[^@\s]+\.[^@\s]+$], that is, has the shape
    local part, [@], domain part with an inner full stop. In particular it
    is false when the address has no [@], when white space remains inside
    the trimmed text, and when the domain part has no full stop. *)
Theorem is_valid_email_spec (a : string) :
  (Str.strip a = "" -> _is_valid_email a = false)
  /\ (_is_valid_email a = true <-> Re.lang _email_re (Str.strip a))
  /\ (_is_valid_email a = true <-> email_shape (Str.strip a))
  /\ (Str.contains "@" a = false -> _is_valid_email a = false)
  /\ (Str.all (fun c => negb (Str.isspace c)) (Str.strip a) = false ->
      _is_valid_email a = false)
  /\ (forall d, _get_domain a = Some d -> Str.contains "." d = false ->
                _is_valid_email a = false).
Proof.
  assert (Hshape : _is_valid_email a = true <-> email_shape (Str.strip a)).
  { rewrite is_valid_email_lang. apply email_re_shape. }
  repeat split.
  - intros H. unfold _is_valid_email. now rewrite H.
  - apply is_valid_email_lang.
  - apply is_valid_email_lang.
  - apply Hshape.
  - apply Hshape.
  - intros Hat. apply not_true_is_false. intros Hv.
    apply Hshape, email_shape_split in Hv as (l & dom & Hs & _ & _).
    destruct (Str.contains "@" (Str.strip a)) eqn:Hc.
    + apply StrFacts.contains_strip in Hc. congruence.
    + rewrite (StrFacts.split1_none _ _ Hc) in Hs. discriminate.
  - intros Hsp. apply not_true_is_false. intros Hv.
    apply Hshape, email_shape_no_space in Hv. congruence.
  - intros d Hd Hdot. apply not_true_is_false. intros Hv.
    apply Hshape, email_shape_split in Hv as (l & dom & Hs & _ & Hdom).
    unfold _get_domain in Hd. rewrite Hs in Hd. injection Hd as <-.
    rewrite StrFacts.contains_dot_lower in Hdot. congruence.
Qed.

(** ** Extension check *)

Lemma rsplit1_last_lower (s : string) :
  Str.rsplit1_last "." (Str.lower s) = Str.lower (Str.rsplit1_last "." s).
Proof.
  induction s as [|c s IH]; [reflexivity |].
  cbn [Str.lower Str.rsplit1_last]. rewrite StrFacts.contains_dot_lower.
  destruct (Str.contains "." s); [exact IH |].
  pose proof (StrFacts.lower_char_dot c) as Hc.
  destruct (decide (Str.lower_char c = "."%char));
    destruct (decide (c = "."%char)); try reflexivity; tauto.
Qed.

Lemma valid_extension_iff (path : string) :
  _is_valid_extension path = true <->
  Str.lower (Str.rsplit1_last "." path) = "csv"
  \/ Str.lower (Str.rsplit1_last "." path) = "txt".
Proof.
  unfold _is_valid_extension, VALID_EXTENSIONS.
  rewrite bool_decide_eq_true, rsplit1_last_lower, !elem_of_cons, elem_of_nil.
  simpl. split.
  - intros [[= ->]|[[= ->]|[]]]; auto.
  - intros [->| ->]; auto.
Qed.

(** C9. The extension is the lower-cased text after the last full stop of
    the path, and the whole lower-cased path when it has none; so a path
    without any full stop is accepted exactly when the whole of it reads
    [csv] or [txt] in any letter case, as the file named [txt] is. *)
Theorem is_valid_extension_last_dot :
  (forall path,
      _is_valid_extension path
      = bool_decide (Str.lower (Str.rsplit1_last "." path) ∈ ["csv"; "txt"]))
  /\ (forall base e,
         Str.contains "." e = false ->
         Str.rsplit1_last "." (base +:+ "." +:+ e) = e)
  /\ (forall path,
         Str.contains "." path = false ->
         Str.rsplit1_last "." path = path
         /\ (_is_valid_extension path = true <->
             Str.lower path = "csv" \/ Str.lower path = "txt"))
  /\ _is_valid_extension "txt" = true
  /\ _is_valid_extension "CSV" = true
  /\ _is_valid_extension "notes" = false.
Proof.
  split; [| split; [| split]].
  - intros path. destruct (_is_valid_extension path) eqn:H; symmetry.
    + apply bool_decide_eq_true. apply valid_extension_iff in H.
      rewrite !elem_of_cons. tauto.
    + apply bool_decide_eq_false. intros Hin.
      rewrite !elem_of_cons, elem_of_nil in Hin.
      assert (_is_valid_extension path = true)
        by (apply valid_extension_iff; tauto).
      congruence.
  - intros base e He. exact (StrFacts.rsplit1_last_app "." base e He).
  - intros path Hp. pose proof (StrFacts.rsplit1_last_none "." path Hp) as Hr.
    split; [exact Hr |]. rewrite valid_extension_iff, Hr. reflexivity.
  - repeat split; vm_compute; reflexivity.
Qed.

(** ** Registration lookup *)

Section Lookups.

Context {E : Env}.

Lemma wall_micros_replace_utc (t : datetime) :
  Datetime.wall_micros (Datetime.replace_tzinfo_utc t) = Datetime.wall_micros t.
Proof. reflexivity. Qed.

(** The world after a registry query and the answer it got. *)
Lemma whois_whois_run (domain : string) (w : World) :
  whois_whois domain w
  = ({| tick := S (tick w); trace := trace w ++ [EvWhois domain];
        files := files w |},
     match whois_server (tick w) domain with
     | Some a => inr a
     | None => inl QueryError
     end).
Proof.
  unfold whois_whois, bind, emit, advance, ret, raise. simpl.
  destruct (whois_server (tick w) domain); reflexivity.
Qed.

Lemma datetime_now_utc_run (w : World) :
  datetime_now_utc w
  = ({| tick := S (tick w); trace := trace w ++ [EvNow]; files := files w |},
     inr (Datetime.replace_tzinfo_utc (clock (tick w)))).
Proof. reflexivity. Qed.

(** [_whois_domain] in one equation: the answer, and the world it leaves. *)
Lemma _whois_domain_run (domain : string) (w : World) :
  _whois_domain domain w
  = match whois_server (tick w) domain ≫= _extract_expiration_date with
    | Some exp =>
        ({| tick := S (S (tick w));
            trace := trace w ++ [EvWhois domain; EvNow];
            files := files w |},
         inr (Datetime.utc_micros
                (Datetime.replace_tzinfo_utc (clock (S (tick w))))
              <? Datetime.utc_micros exp)%Z)
    | None =>
        ({| tick := S (tick w); trace := trace w ++ [EvWhois domain];
            files := files w |},
         inr false)
    end.
Proof.
  unfold _whois_domain, bind, try_except. rewrite whois_whois_run.
  destruct (whois_server (tick w) domain) as [a|]; cbn [mbind option_bind];
    [| reflexivity].
  unfold ret at 1.
  destruct (_extract_expiration_date a) as [exp|]; [| reflexivity].
  rewrite datetime_now_utc_run. cbn [tick trace files].
  rewrite <- app_assoc. cbn [app].
  unfold datetime_gt, ret.
  destruct (tzinfo exp) as [o|] eqn:Ho; cbn [tzinfo Datetime.replace_tzinfo_utc].
  - rewrite Ho. reflexivity.
  - do 3 f_equal. unfold Datetime.utc_micros. rewrite Ho. reflexivity.
Qed.

(** C5. [_whois_domain] never raises. It answers true exactly when the
    query succeeds, an expiration time is extracted from the answer, and
    that time, read as UTC when it carries no zone, is strictly after the
    instant the clock shows; a failed query or a failed extraction gives
    false. The extraction takes a [datetime] as it is, the first element
    of a list, and parses text as ISO-8601 after turning [Z] into
    [+00:00]; anything else yields nothing. *)
Theorem whois_domain_fail_closed (domain : string) (w : World) :
  (exists b w', _whois_domain domain w = (w', inr b))
  /\ (whois_server (tick w) domain = None ->
      (_whois_domain domain w).2 = inr false)
  /\ (forall a, whois_server (tick w) domain = Some a ->
                _extract_expiration_date a = None ->
                (_whois_domain domain w).2 = inr false)
  /\ ((_whois_domain domain w).2 = inr true <->
      exists a exp,
        whois_server (tick w) domain = Some a
        /\ _extract_expiration_date a = Some exp
        /\ (Datetime.utc_micros
              (Datetime.replace_tzinfo_utc (clock (S (tick w))))
            < Datetime.wall_micros exp - default 0 (tzinfo exp))%Z)
  /\ (forall (a : gmap string pyval) v,
         a !! "expiration_date" = Some v ->
         match v with
         | PDatetime t | PList (PDatetime t :: _) =>
             _extract_expiration_date a = Some t
         | PStr EmptyString => _extract_expiration_date a = None
         | PStr s | PList (PStr s :: _) =>
             _extract_expiration_date a
             = fromisoformat (Str.replace "Z" "+00:00" s)
             /\ (Str.contains "Z" s = false ->
                 Str.replace "Z" "+00:00" s = s)
             /\ (forall body, s = body +:+ "Z" ->
                              Str.contains "Z" body = false ->
                              Str.replace "Z" "+00:00" s = body +:+ "+00:00")
         | _ => _extract_expiration_date a = None
         end)
  /\ (forall a : gmap string pyval,
         a !! "expiration_date" = None -> _extract_expiration_date a = None).
Proof.
  rewrite _whois_domain_run.
  split; [| split; [| split; [| split; [| split]]]].
  - destruct (whois_server (tick w) domain ≫= _extract_expiration_date); eauto.
  - intros ->. reflexivity.
  - intros a -> Ha. simpl. rewrite Ha. reflexivity.
  - destruct (whois_server (tick w) domain) as [a|] eqn:Hq; simpl.
    + destruct (_extract_expiration_date a) as [exp|] eqn:He; simpl.
      * split.
        -- intros [= H]. apply Z.ltb_lt in H. exists a, exp. auto.
        -- intros (a' & exp' & [= <-] & He' & H).
           rewrite He in He'. injection He' as <-.
           f_equal. now apply Z.ltb_lt.
      * split; [discriminate |].
        intros (a' & exp' & [= <-] & He' & _). congruence.
    + split; [discriminate |]. intros (a' & exp' & Hq' & _). discriminate.
  - intros a v Hv. unfold _extract_expiration_date. rewrite Hv. simpl.
    assert (Hrep : forall s,
               (Str.contains "Z" s = false -> Str.replace "Z" "+00:00" s = s)
               /\ (forall body, s = body +:+ "Z" ->
                                Str.contains "Z" body = false ->
                                Str.replace "Z" "+00:00" s = body +:+ "+00:00")).
    { intros s. split; [apply StrFacts.replace_none |].
      intros body -> Hb. rewrite StrFacts.replace_app.
      now rewrite (StrFacts.replace_none _ _ _ Hb). }
    destruct v as [|s|t|l|b]; simpl; try reflexivity.
    + destruct s; [reflexivity |]. split; [reflexivity | apply Hrep].
    + destruct l as [|[|s|t|l'|b] rest]; simpl; try reflexivity.
      split; [reflexivity | apply Hrep].
    + destruct b; reflexivity.
  - intros a Ha. unfold _extract_expiration_date. now rewrite Ha.
Qed.

End Lookups.

(** ** Resolution *)

Section Resolution.

Context {E : Env}.

Lemma writerow_run path row w : writerow path row w = (wrote path row w, inr tt).
Proof. reflexivity. Qed.

Lemma _mx_queries_domain_run (domain : string) (w : World) :
  _mx_queries_domain domain w
  = ({| tick := S (tick w); trace := trace w ++ [EvMx domain];
        files := files w |},
     inr match mx_server (tick w) domain with
         | Some n => (0 <? n)%nat
         | None => false
         end).
Proof.
  unfold _mx_queries_domain, try_except, dns_resolve_mx, bind, emit, advance,
    ret, raise. simpl.
  destruct (mx_server (tick w) domain); reflexivity.
Qed.

Lemma is_valid_email_strip (e : string) :
  _is_valid_email (Str.strip e) = _is_valid_email e.
Proof. unfold _is_valid_email. now rewrite StrFacts.strip_strip. Qed.

Lemma _get_domain_strip (e : string) : _get_domain (Str.strip e) = _get_domain e.
Proof. unfold _get_domain. now rewrite StrFacts.strip_strip. Qed.

(** A valid address has a domain: [_get_domain] cannot raise on it. *)
Lemma valid_email_domain (e : string) :
  _is_valid_email e = true -> exists d, _get_domain e = Some d.
Proof.
  intros H. apply is_valid_email_lang, email_re_shape in H.
  apply email_shape_split in H as (l & dom & Hs & _).
  unfold _get_domain. rewrite Hs. eauto.
Qed.

Lemma process_email_invalid e cache wr w :
  _is_valid_email e = false -> _process_email e cache wr w = (w, inr cache).
Proof.
  intros H. unfold _process_email. now rewrite is_valid_email_strip, H.
Qed.

Lemma cache_hit_run e cache wr w d f :
  _is_valid_email e = true ->
  _get_domain e = Some d ->
  cache !! d = Some f ->
  _process_email e cache wr w
  = (wrote wr [Str.strip e; d; bit (whois_alive f); bit (mx_exists f)] w,
     inr cache).
Proof.
  intros Hv Hd Hc. unfold _process_email.
  rewrite is_valid_email_strip, Hv, _get_domain_strip, Hd, Hc. reflexivity.
Qed.

(** C3. On a cache hit the resolution queries nothing and reads no clock,
    leaves the cache as it is, and writes the output row from the cached
    fact: the only effect is that row. *)
Theorem cache_hit_frame (e : string) (cache : gmap string DomainFact)
        (wr : string) (w : World) (d : string) (f : DomainFact) :
  _is_valid_email e = true ->
  _get_domain e = Some d ->
  cache !! d = Some f ->
  _process_email e cache wr w
  = (wrote wr [Str.strip e; d; bit (whois_alive f); bit (mx_exists f)] w,
     inr cache)
  /\ lookup_calls
       (trace (wrote wr [Str.strip e; d; bit (whois_alive f); bit (mx_exists f)] w))
     = lookup_calls (trace w)
  /\ tick (wrote wr [Str.strip e; d; bit (whois_alive f); bit (mx_exists f)] w)
     = tick w.
Proof.
  intros Hv Hd Hc. split; [| split; [| reflexivity]].
  - apply cache_hit_run; assumption.
  - unfold lookup_calls, wrote. cbn [trace].
    rewrite List.filter_app. simpl. apply app_nil_r.
Qed.

(** The world after a miss: the registry, then the resolver if the
    registration is alive, then the clock and the output row. *)
Lemma process_email_miss e cache wr w d :
  _is_valid_email e = true ->
  _get_domain e = Some d ->
  cache !! d = None ->
  exists w1 alive w2 mx n1,
    _whois_domain d w = (w1, inr alive)
    /\ trace w1 = trace w ++ EvWhois d :: n1
    /\ (n1 = [] \/ n1 = [EvNow])
    /\ (if alive then _mx_queries_domain d w1 else ret false w1) = (w2, inr mx)
    /\ trace w2 = trace w1 ++ (if alive then [EvMx d] else [])
    /\ (alive = false -> mx = false)
    /\ _process_email e cache wr w
       = (wrote wr [Str.strip e; d; bit alive; bit mx]
            {| tick := S (tick w2); trace := trace w2 ++ [EvNow];
               files := files w2 |},
          inr (<[d := {| whois_alive := alive; mx_exists := mx;
                         checked_at :=
                           Some (Datetime.isoformat
                                   (Datetime.replace_tzinfo_utc (clock (tick w2)))) |}]>
                 cache)).
Proof.
  intros Hv Hd Hc.
  assert (Hw : exists w1 alive n1,
             _whois_domain d w = (w1, inr alive)
             /\ trace w1 = trace w ++ EvWhois d :: n1
             /\ (n1 = [] \/ n1 = [EvNow])).
  { rewrite _whois_domain_run.
    destruct (whois_server (tick w) d ≫= _extract_expiration_date);
      do 3 eexists; (split; [reflexivity |]); cbn [trace]; eauto. }
  destruct Hw as (w1 & alive & n1 & Hw & Ht1 & Hn1).
  assert (Hmx : exists w2 mx,
             (if alive then _mx_queries_domain d w1 else ret false w1)
             = (w2, inr mx)
             /\ trace w2 = trace w1 ++ (if alive then [EvMx d] else [])
             /\ (alive = false -> mx = false)).
  { destruct alive.
    - rewrite _mx_queries_domain_run. do 2 eexists.
      split; [reflexivity |]. split; [reflexivity | discriminate].
    - unfold ret. do 2 eexists. split; [reflexivity |].
      split; [now rewrite app_nil_r | reflexivity]. }
  destruct Hmx as (w2 & mx & Hmx & Ht2 & Hmxf).
  exists w1, alive, w2, mx, n1. repeat (split; [assumption |]).
  unfold _process_email.
  rewrite is_valid_email_strip, Hv, _get_domain_strip, Hd, Hc.
  cbn [negb]. unfold bind at 1 2. rewrite Hw.
  unfold bind at 1.
  replace ((if alive then _mx_queries_domain d else ret false) w1)
    with (w2, @inr exn bool mx) by (now destruct alive).
  reflexivity.
Qed.

Lemma lookup_calls_app (a b : list event) :
  lookup_calls (a ++ b) = lookup_calls a ++ lookup_calls b.
Proof. apply List.filter_app. Qed.

(** C2. On a cache miss the registry is queried first. When it reports the
    registration dead, the resolver is not queried and the new fact has
    both flags false; when it reports it alive, the resolver is queried
    once, after the registry, and its answer is the mail-exchange flag of
    the new fact. The fact goes into the cache and onto the output row. *)
Theorem cache_miss_short_circuit (e : string) (cache : gmap string DomainFact)
        (wr : string) (w : World) (d : string) :
  _is_valid_email e = true ->
  _get_domain e = Some d ->
  cache !! d = None ->
  exists w1 alive w' f,
    _whois_domain d w = (w1, inr alive)
    /\ _process_email e cache wr w = (w', inr (<[d := f]> cache))
    /\ whois_alive f = alive
    /\ last (trace w')
       = Some (EvWriteRow wr [Str.strip e; d; bit alive; bit (mx_exists f)])
    /\ (alive = false ->
        mx_exists f = false
        /\ lookup_calls (trace w') = lookup_calls (trace w) ++ [EvWhois d])
    /\ (alive = true ->
        (_mx_queries_domain d w1).2 = inr (mx_exists f)
        /\ lookup_calls (trace w')
           = lookup_calls (trace w) ++ [EvWhois d; EvMx d]).
Proof.
  intros Hv Hd Hc.
  destruct (process_email_miss e cache wr w d Hv Hd Hc)
    as (w1 & alive & w2 & mx & n1 & Hw & Ht1 & Hn1 & Hmx & Ht2 & Hmxf & Hp).
  exists w1, alive. eexists. eexists.
  split; [exact Hw |]. split; [exact Hp |]. cbn [whois_alive mx_exists].
  split; [reflexivity |].
  assert (Hl1 : lookup_calls (trace w1) = lookup_calls (trace w) ++ [EvWhois d]).
  { rewrite Ht1, lookup_calls_app. f_equal.
    destruct Hn1 as [-> | ->]; reflexivity. }
  split; [| split].
  - unfold wrote. cbn [trace]. apply last_snoc.
  - intros ->. split; [now apply Hmxf |].
    unfold wrote. cbn [trace]. rewrite Ht2, app_nil_r.
    rewrite !lookup_calls_app, Hl1. simpl. now rewrite !app_nil_r.
  - intros ->. split; [now rewrite Hmx |].
    unfold wrote. cbn [trace]. rewrite Ht2.
    rewrite !lookup_calls_app, Hl1. simpl. rewrite !app_nil_r.
    now rewrite <- app_assoc.
Qed.

(** *** Counting queries over a run *)

Lemma calls_app ev (a b : list event) :
  calls ev (a ++ b) = (calls ev a + calls ev b)%nat.
Proof. unfold calls. now rewrite List.filter_app, length_app. Qed.

Lemma calls_cons ev x (l : list event) :
  calls ev (x :: l) = ((if bool_decide (x = ev) then 1 else 0) + calls ev l)%nat.
Proof. unfold calls. simpl. destruct (bool_decide (x = ev)); reflexivity. Qed.

Lemma calls_nil ev : calls ev [] = 0%nat.
Proof. reflexivity. Qed.

Ltac calls_simpl :=
  repeat (rewrite ?calls_app, ?calls_cons, ?calls_nil);
  repeat case_bool_decide; simplify_eq; try lia.

Lemma run_ok_refl (cache : gmap string DomainFact) : run_ok cache [] cache.
Proof.
  split; [reflexivity |]. split; [| split; [| split]].
  - intros d. rewrite !calls_nil. lia.
  - intros d _. rewrite !calls_nil. auto.
  - intros d. rewrite !calls_nil. lia.
  - intros p e d a m H. apply elem_of_nil in H. contradiction.
Qed.

Lemma run_ok_trans c n1 c1 n2 c2 :
  run_ok c n1 c1 -> run_ok c1 n2 c2 -> run_ok c (n1 ++ n2) c2.
Proof.
  intros (Hs1 & Hle1 & Hin1 & Hnew1 & Hrow1) (Hs2 & Hle2 & Hin2 & Hnew2 & Hrow2).
  assert (Hmono : forall d, is_Some (c !! d) -> is_Some (c1 !! d)).
  { intros d [f Hf]. exists f. exact (lookup_weaken _ _ _ _ Hf Hs1). }
  assert (Hmono2 : forall d, is_Some (c1 !! d) -> is_Some (c2 !! d)).
  { intros d [f Hf]. exists f. exact (lookup_weaken _ _ _ _ Hf Hs2). }
  split; [etrans; eassumption |]. split; [| split; [| split]].
  - intros d. rewrite !calls_app.
    destruct (Hle1 d) as [Hw1 Hm1]. destruct (Hle2 d) as [Hw2 Hm2].
    destruct (decide (0 < calls (EvWhois d) n1 + calls (EvMx d) n1)%nat) as [Hpos|Hz].
    + destruct (Hin2 d (Hnew1 d Hpos)) as [-> ->]. lia.
    + lia.
  - intros d Hd. rewrite !calls_app.
    destruct (Hin1 d Hd) as [-> ->].
    destruct (Hin2 d (Hmono d Hd)) as [-> ->]. split; reflexivity.
  - intros d. rewrite !calls_app. intros Hpos.
    destruct (decide (0 < calls (EvWhois d) n1 + calls (EvMx d) n1)%nat) as [H1|H1].
    + apply Hmono2, Hnew1, H1.
    + apply Hnew2. lia.
  - intros p e d a m [H|H]%elem_of_app.
    + destruct (Hrow1 _ _ _ _ _ H) as (f & Hf & Ha & Hm).
      exists f. split; [exact (lookup_weaken _ _ _ _ Hf Hs2) | auto].
    + exact (Hrow2 _ _ _ _ _ H).
Qed.

(** One resolution: it does not raise, appends to the trace, and respects
    [run_ok]; the domain of a valid address is cached afterwards. *)
Lemma process_email_step e cache wr w :
  exists w' c' new,
    _process_email e cache wr w = (w', inr c')
    /\ trace w' = trace w ++ new
    /\ run_ok cache new c'
    /\ (cache_ok cache -> cache_ok c')
    /\ (forall d, _is_valid_email e = true -> _get_domain e = Some d ->
                  is_Some (c' !! d)).
Proof.
  destruct (_is_valid_email e) eqn:Hv.
  2:{ exists w, cache, []. rewrite process_email_invalid by assumption.
      split; [reflexivity |]. split; [now rewrite app_nil_r |].
      split; [apply run_ok_refl |]. split; [auto | discriminate]. }
  destruct (valid_email_domain e Hv) as [d Hd].
  destruct (cache !! d) as [f|] eqn:Hc.
  - pose proof (cache_hit_run e cache wr w d f Hv Hd Hc) as Hp.
    eexists. exists cache. eexists. split; [exact Hp |].
    split; [reflexivity |]. split; [| split; [auto |]].
    + split; [reflexivity |]. split; [| split; [| split]].
      * intros d'. calls_simpl.
      * intros d' _. calls_simpl.
      * intros d'. calls_simpl.
      * intros p e' d' a m H. apply list_elem_of_singleton in H.
        injection H as -> -> -> -> ->. eauto.
    + intros d' _ Hd'. rewrite Hd in Hd'. injection Hd' as <-. eauto.
  - destruct (process_email_miss e cache wr w d Hv Hd Hc)
      as (w1 & alive & w2 & mx & n1 & Hw & Ht1 & Hn1 & Hmx & Ht2 & Hmxf & Hp).
    eexists. eexists. eexists. split; [exact Hp |].
    split; [| split; [| split]].
    + unfold wrote. cbn [trace]. rewrite Ht2, Ht1.
      rewrite <- !app_assoc. reflexivity.
    + split; [now apply insert_subseteq |]. split; [| split; [| split]].
      * intros d'. destruct Hn1 as [-> | ->]; destruct alive; calls_simpl.
      * intros d' [f' Hf']. assert (d' <> d) by congruence.
        destruct Hn1 as [-> | ->]; destruct alive; calls_simpl.
      * intros d'. destruct (decide (d' = d)) as [->|Hne].
        -- intros _. rewrite lookup_insert_eq. eauto.
        -- destruct Hn1 as [-> | ->]; destruct alive; calls_simpl.
      * intros p e' d' a m H. eexists.
        assert (Hrow : EvWriteRow p [e'; d'; a; m]
                       = EvWriteRow wr [Str.strip e; d; bit alive; bit mx]).
        { destruct Hn1 as [-> | ->]; destruct alive; simpl in H;
            repeat (apply elem_of_cons in H as [H|H]; [try discriminate H |]);
            try (apply elem_of_nil in H; contradiction); exact H. }
        injection Hrow as -> -> -> -> ->.
        rewrite lookup_insert_eq. split; [reflexivity | split; reflexivity].
    + intros Hok d' f'. rewrite lookup_insert.
      case_decide; [| apply Hok]. intros [= <-]. exact Hmxf.
    + intros d' _ Hd'. rewrite Hd in Hd'. injection Hd' as <-.
      rewrite lookup_insert_eq. eauto.
Qed.

Lemma process_all_cons e emails cache wr w :
  process_all (e :: emails) cache wr w
  = match _process_email e cache wr w with
    | (w', inl x) => (w', inl x)
    | (w', inr c') => process_all emails c' wr w'
    end.
Proof. reflexivity. Qed.

Lemma process_all_run emails : forall cache wr w,
  exists w' c' new,
    process_all emails cache wr w = (w', inr c')
    /\ trace w' = trace w ++ new
    /\ run_ok cache new c'
    /\ (cache_ok cache -> cache_ok c')
    /\ (forall e d, e ∈ emails -> _is_valid_email e = true ->
                    _get_domain e = Some d -> is_Some (c' !! d)).
Proof.
  induction emails as [|e emails IH]; intros cache wr w.
  - exists w, cache, []. split; [reflexivity |].
    split; [now rewrite app_nil_r |]. split; [apply run_ok_refl |].
    split; [auto |]. intros e d H. apply elem_of_nil in H. contradiction.
  - destruct (process_email_step e cache wr w)
      as (w1 & c1 & n1 & Hp & Ht & Hrun & Hok & Hdom).
    destruct (IH c1 wr w1) as (w2 & c2 & n2 & Hp2 & Ht2 & Hrun2 & Hok2 & Hdom2).
    exists w2, c2, (n1 ++ n2). rewrite process_all_cons, Hp.
    split; [exact Hp2 |]. split; [now rewrite Ht2, Ht, app_assoc |].
    split; [eapply run_ok_trans; eassumption |]. split; [auto |].
    intros e' d [->|Hin]%elem_of_cons Hv Hd.
    + destruct (Hdom d Hv Hd) as [f Hf]. exists f.
      destruct Hrun2 as [Hsub _]. exact (lookup_weaken _ _ _ _ Hf Hsub).
    + eauto.
Qed.

(** C4. In one run over any list of addresses, each domain is sent to the
    registry at most once and to the resolver at most once, and not at all
    when it was cached at the start. The first resolution of a domain puts
    its fact into the cache, where it stays unchanged, so every later
    resolution is a hit; all output rows of one domain carry the flags of
    that one fact. *)
Theorem one_lookup_per_domain (emails : list string)
        (cache : gmap string DomainFact) (wr : string) (w : World) :
  exists w' cache' new,
    process_all emails cache wr w = (w', inr cache')
    /\ trace w' = trace w ++ new
    /\ cache ⊆ cache'
    /\ (forall d, (calls (EvWhois d) new <= 1)%nat
                  /\ (calls (EvMx d) new <= 1)%nat)
    /\ (forall d, is_Some (cache !! d) ->
                  calls (EvWhois d) new = 0%nat /\ calls (EvMx d) new = 0%nat)
    /\ (forall e d, e ∈ emails -> _is_valid_email e = true ->
                    _get_domain e = Some d ->
                    exists f,
                      cache' !! d = Some f
                      /\ forall e2 wr2 w2,
                          _is_valid_email e2 = true ->
                          _get_domain e2 = Some d ->
                          _process_email e2 cache' wr2 w2
                          = (wrote wr2 [Str.strip e2; d; bit (whois_alive f);
                                        bit (mx_exists f)] w2,
                             inr cache'))
    /\ (forall p1 e1 a1 m1 p2 e2 a2 m2 d,
           EvWriteRow p1 [e1; d; a1; m1] ∈ new ->
           EvWriteRow p2 [e2; d; a2; m2] ∈ new ->
           a1 = a2 /\ m1 = m2).
Proof.
  destruct (process_all_run emails cache wr w)
    as (w' & c' & new & Hp & Ht & (Hsub & Hle & Hin & _ & Hrow) & _ & Hdom).
  exists w', c', new. repeat (split; [assumption |]). split.
  - intros e d He Hv Hd. destruct (Hdom e d He Hv Hd) as [f Hf].
    exists f. split; [exact Hf |].
    intros e2 wr2 w2 Hv2 Hd2. now apply cache_hit_run.
  - intros p1 e1 a1 m1 p2 e2 a2 m2 d H1 H2.
    destruct (Hrow _ _ _ _ _ H1) as (f1 & Hf1 & -> & ->).
    destruct (Hrow _ _ _ _ _ H2) as (f2 & Hf2 & -> & ->).
    rewrite Hf1 in Hf2. injection Hf2 as <-. auto.
Qed.

Lemma bit_zero (b : bool) : bit b = "0" <-> b = false.
Proof. destruct b; simpl; split; congruence. Qed.

End Resolution.

(** ** The snapshot of the cache *)

Section SnapshotFacts.

Context {E : Env}.

Lemma append_nonempty (a b : string) : a <> "" -> a +:+ b <> "".
Proof. destruct a; [contradiction | discriminate]. Qed.

Lemma zfill_nonempty n z : Datetime.zfill (S n) z <> "".
Proof.
  simpl. intros H. apply append_eq_nil in H as [_ H]. discriminate.
Qed.

Lemma isoformat_nonempty (t : datetime) : Datetime.isoformat t <> "".
Proof. unfold Datetime.isoformat. apply append_nonempty, zfill_nonempty. Qed.

Lemma file_records_app path (a b : list event) :
  file_records path (a ++ b) = foldl (record_step path) (file_records path a) b.
Proof. apply foldl_app. Qed.

Lemma saved_as_mono lo hi lo' hi' item row :
  (lo' <= lo)%nat -> (hi <= hi')%nat ->
  saved_as lo hi item row -> saved_as lo' hi' item row.
Proof.
  intros Hlo Hhi (stamp & Hrow & Hne & H). exists stamp.
  split; [exact Hrow |]. split; [exact Hne |].
  destruct (checked_at item.2) as [[|c t]|]; try exact H;
    destruct H as (t' & Ht & Hs); exists t'; (split; [lia | exact Hs]).
Qed.

Lemma open_write_run path w :
  open_write path w
  = ({| tick := tick w; trace := trace w ++ [EvOpen path "w"];
        files := <[path := ""]> (files w) |}, inr tt).
Proof. reflexivity. Qed.

(** One iteration of the loop of [_save_domain_cache]. *)
Lemma save_row_run path item w :
  exists w' row new,
    save_row path item w = (w', inr tt)
    /\ trace w' = trace w ++ new
    /\ (forall acc, foldl (record_step path) acc new = acc ++ [row])
    /\ saved_as (tick w) (tick w') item row
    /\ (tick w <= tick w')%nat
    /\ (match checked_at item.2 with
        | Some (String _ _) => tick w' = tick w
        | _ => tick w' = S (tick w)
        end).
Proof.
  unfold save_row.
  assert (Hnow : exists w' row new,
             bind (do now <- datetime_now_utc; ret (Datetime.isoformat now))
                  (fun stamp => writerow path
                     [item.1; bit (whois_alive item.2); bit (mx_exists item.2); stamp]) w
             = (w', inr tt)
             /\ trace w' = trace w ++ new
             /\ (forall acc, foldl (record_step path) acc new = acc ++ [row])
             /\ (exists stamp,
                    row = [item.1; bit (whois_alive item.2);
                           bit (mx_exists item.2); stamp]
                    /\ stamp <> ""
                    /\ exists t, (tick w <= t < tick w')%nat
                                 /\ stamp = Datetime.isoformat
                                              (Datetime.replace_tzinfo_utc (clock t)))
             /\ tick w' = S (tick w)).
  { pose (stamp := Datetime.isoformat
                     (Datetime.replace_tzinfo_utc (clock (tick w)))).
    pose (row := [item.1; bit (whois_alive item.2); bit (mx_exists item.2);
                  stamp]).
    exists (wrote path row
              {| tick := S (tick w); trace := trace w ++ [EvNow];
                 files := files w |}), row, [EvNow; EvWriteRow path row].
    split; [reflexivity |]. cbn [trace wrote tick].
    split; [now rewrite <- app_assoc |]. split; [| split].
    - intros acc. cbn [foldl record_step]. now rewrite decide_True.
    - exists stamp. split; [reflexivity |].
      split; [apply isoformat_nonempty |].
      exists (tick w). split; [lia | reflexivity].
    - reflexivity. }
  destruct (checked_at item.2) as [[|c t]|] eqn:Hc.
  - destruct Hnow as (w' & row & new & Hr & Ht & Hf & (stamp & Hrow & Hne & Hs) & Htick).
    exists w', row, new. repeat (split; [assumption |]).
    split; [| split; [lia | exact Htick]].
    exists stamp. rewrite Hc. auto.
  - pose (row := [item.1; bit (whois_alive item.2); bit (mx_exists item.2);
                  String c t]).
    exists (wrote path row w), row, [EvWriteRow path row].
    split; [reflexivity |]. cbn [trace wrote tick].
    split; [reflexivity |]. split; [| split; [| split; [lia | reflexivity]]].
    + intros acc. cbn [foldl record_step]. now rewrite decide_True.
    + exists (String c t). rewrite Hc.
      split; [reflexivity |]. split; [discriminate | reflexivity].
  - destruct Hnow as (w' & row & new & Hr & Ht & Hf & (stamp & Hrow & Hne & Hs) & Htick).
    exists w', row, new. repeat (split; [assumption |]).
    split; [| split; [lia | exact Htick]].
    exists stamp. rewrite Hc. auto.
Qed.

Lemma save_loop_run path items : forall w,
  exists w' rows new,
    foldM (fun _ item => save_row path item) tt items w = (w', inr tt)
    /\ trace w' = trace w ++ new
    /\ (forall acc, foldl (record_step path) acc new = acc ++ rows)
    /\ Forall2 (saved_as (tick w) (tick w')) items rows
    /\ (tick w <= tick w')%nat.
Proof.
  induction items as [|item items IH]; intros w.
  - exists w, [], []. split; [reflexivity |]. split; [now rewrite app_nil_r |].
    split; [intros acc; now rewrite app_nil_r |]. split; [constructor | lia].
  - destruct (save_row_run path item w)
      as (w1 & row & n1 & Hr & Ht & Hf & Hs & Hle & _).
    destruct (IH w1) as (w2 & rows & n2 & Hr2 & Ht2 & Hf2 & Hs2 & Hle2).
    exists w2, (row :: rows), (n1 ++ n2).
    split; [cbn [foldM]; unfold bind; now rewrite Hr |].
    split; [now rewrite Ht2, Ht, app_assoc |].
    split; [intros acc; now rewrite foldl_app, Hf, Hf2, <- app_assoc |].
    split; [| lia].
    constructor.
    + eapply saved_as_mono; [| | exact Hs]; lia.
    + eapply Forall2_impl; [exact Hs2 |].
      intros x y. apply saved_as_mono; lia.
Qed.

(** [_save_domain_cache] on a usable path: the file holds the header and
    one record per fact. *)
Lemma save_run (p : string) cache w :
  Str.truthy p = true ->
  exists w' rows,
    _save_domain_cache (Some p) cache w = (w', inr tt)
    /\ file_records p (trace w') = cache_fieldnames :: rows
    /\ Forall2 (saved_as (tick w) (tick w')) (map_to_list cache) rows.
Proof.
  intros Hp. unfold _save_domain_cache. rewrite Hp. cbn [negb].
  set (pre := if Str.truthy (os_path_dirname p)
              then os_makedirs (os_path_dirname p) else ret tt).
  assert (Hpre : exists w0 n0,
             pre w = (w0, inr tt) /\ trace w0 = trace w ++ n0
             /\ tick w0 = tick w).
  { unfold pre. destruct (Str.truthy (os_path_dirname p)).
    - do 2 eexists. split; [reflexivity |]. split; reflexivity.
    - exists w, []. split; [reflexivity |]. split; [now rewrite app_nil_r | reflexivity]. }
  destruct Hpre as (w0 & n0 & Hpre & Ht0 & Htick0).
  unfold bind at 1. rewrite Hpre.
  unfold bind at 1. rewrite open_write_run.
  unfold bind at 1. rewrite writerow_run.
  match goal with |- context [foldM _ tt _ ?w1] =>
    destruct (save_loop_run p (map_to_list cache) w1)
      as (w2 & rows & n2 & Hr2 & Ht2 & Hf2 & Hs2 & Hle2)
  end.
  exists w2, rows. split; [exact Hr2 |]. split.
  - rewrite Ht2. cbn [wrote trace]. unfold file_records.
    rewrite !foldl_app, Hf2. cbn [foldl record_step].
    rewrite !decide_True by (first [reflexivity | split; reflexivity]).
    reflexivity.
  - cbn [wrote tick] in Hs2. now rewrite Htick0 in Hs2.
Qed.

(** C10. Saving to a usable path writes the header and then one record per
    fact. A fact with a truthy [checked_at] keeps that text verbatim; a
    fact whose [checked_at] is absent or empty gets the ISO form of a clock
    reading taken during the save. No record has an empty [checked_at]. *)
Theorem save_stamps_missing_checked_at (p : string)
        (cache : gmap string DomainFact) (w : World) :
  Str.truthy p = true ->
  exists w' rows,
    _save_domain_cache (Some p) cache w = (w', inr tt)
    /\ file_records p (trace w') = cache_fieldnames :: rows
    /\ Forall2 (saved_as (tick w) (tick w')) (map_to_list cache) rows
    /\ Forall (fun row => exists d a m stamp,
                   row = [d; a; m; stamp] /\ stamp <> "") rows.
Proof.
  intros Hp. destruct (save_run p cache w Hp) as (w' & rows & Hr & Hf & Hs).
  exists w', rows. repeat (split; [assumption |]).
  clear -Hs. induction Hs as [|item row items rows (stamp & -> & Hne & _) _ IH];
    constructor; eauto 6.
Qed.

(** *** Loading what was saved *)








Lemma load_run (p : string) (w : World) text fieldnames records :
  Str.truthy p = true ->
  files w !! p = Some text ->
  csv_parse text = fieldnames :: records ->
  _load_domain_cache (Some p) w
  = foldM load_row ∅
      (dictreader_row fieldnames <$> filter (fun r => r ≠ []) records)
      {| tick := tick w; trace := trace w ++ [EvExists p; EvOpen p "r"];
         files := files w |}.
Proof.
  intros Hp Hf Hparse. unfold _load_domain_cache. rewrite Hp. cbn [negb].
  unfold bind at 1, os_path_exists, bind, emit, get_files, ret. cbn [files].
  rewrite Hf. rewrite bool_decide_eq_true_2 by eauto. cbn [negb].
  unfold open_read, bind, emit, get_files, ret. cbn [files trace tick].
  rewrite Hf. unfold DictReader. rewrite Hparse. cbn [snd].
  rewrite <- app_assoc. reflexivity.
Qed.


End SnapshotFacts.

(** ** Concrete runs *)

Section Runs.

#[local] Existing Instance Demo.env.

(** Scenario A of the specification: three addresses, an empty cache, one
    registered domain and one expired. *)
Example scenario_a :
  exists w' cache',
    process_all ["a@b.com"; "not-an-email"; "c@d.org"] ∅ "out.csv" Demo.world0
    = (w', inr cache')
    /\ file_records "out.csv" (EvOpen "out.csv" "w" :: trace w')
       = [["a@b.com"; "b.com"; "1"; "1"]; ["c@d.org"; "d.org"; "0"; "0"]]
    /\ lookup_calls (trace w')
       = [EvWhois "b.com"; EvMx "b.com"; EvWhois "d.org"].
Proof.
  do 2 eexists. split; [vm_compute; reflexivity |].
  split; vm_compute; reflexivity.
Qed.

(** C1 fails as stated: a fact loaded from a snapshot is returned as it was
    stored, here with a dead registration and a mail exchanger, in the
    cache and on the output row. *)
Lemma loaded_fact_breaks_invariant :
  exists w1 cache w2 f,
    _load_domain_cache (Some "cache.csv") Demo.stale_snapshot = (w1, inr cache)
    /\ _process_email "c@d.org" cache "out.csv" w1 = (w2, inr cache)
    /\ cache !! "d.org" = Some f
    /\ whois_alive f = false
    /\ mx_exists f = true
    /\ last (trace w2)
       = Some (EvWriteRow "out.csv" ["c@d.org"; "d.org"; "0"; "1"])
    /\ lookup_calls (trace w2) = [].
Proof.
  do 4 eexists. split; [vm_compute; reflexivity |].
  split; [vm_compute; reflexivity |].
  split; [vm_compute; reflexivity |].
  repeat split; vm_compute; reflexivity.
Qed.

Lemma cache_ok_empty : cache_ok ∅.
Proof. intros d f H. rewrite lookup_empty in H. discriminate. Qed.

Lemma cache_miss_short_circuit_witness :
  _is_valid_email "c@d.org" = true
  /\ _get_domain "c@d.org" = Some "d.org"
  /\ (∅ : gmap string DomainFact) !! "d.org" = None
  /\ exists w1 alive w' f,
      _whois_domain "d.org" Demo.world0 = (w1, inr alive)
      /\ _process_email "c@d.org" ∅ "out.csv" Demo.world0
         = (w', inr (<["d.org" := f]> ∅))
      /\ whois_alive f = alive
      /\ last (trace w')
         = Some (EvWriteRow "out.csv"
                   [Str.strip "c@d.org"; "d.org"; bit alive; bit (mx_exists f)])
      /\ (alive = false ->
          mx_exists f = false
          /\ lookup_calls (trace w')
             = lookup_calls (trace Demo.world0) ++ [EvWhois "d.org"])
      /\ (alive = true ->
          (_mx_queries_domain "d.org" w1).2 = inr (mx_exists f)
          /\ lookup_calls (trace w')
             = lookup_calls (trace Demo.world0)
               ++ [EvWhois "d.org"; EvMx "d.org"]).
Proof.
  split; [vm_compute; reflexivity |].
  split; [vm_compute; reflexivity |].
  split; [vm_compute; reflexivity |].
  apply (cache_miss_short_circuit "c@d.org" ∅ "out.csv" Demo.world0 "d.org");
    vm_compute; reflexivity.
Defined.

(** Scenario B of the specification. *)
Lemma cache_hit_frame_witness :
  _is_valid_email "x@b.com" = true
  /\ _get_domain "x@b.com" = Some "b.com"
  /\ Demo.cached_b_com !! "b.com"
     = Some {| whois_alive := true; mx_exists := true;
               checked_at := Some "2024-01-01T00:00:00+00:00" |}
  /\ _process_email "x@b.com" Demo.cached_b_com "out.csv" Demo.world0
     = (wrote "out.csv" [Str.strip "x@b.com"; "b.com"; bit true; bit true]
          Demo.world0,
        inr Demo.cached_b_com)
  /\ lookup_calls
       (trace (wrote "out.csv" [Str.strip "x@b.com"; "b.com"; bit true; bit true]
                 Demo.world0))
     = lookup_calls (trace Demo.world0)
  /\ tick (wrote "out.csv" [Str.strip "x@b.com"; "b.com"; bit true; bit true]
             Demo.world0)
     = tick Demo.world0.
Proof.
  split; [vm_compute; reflexivity |].
  split; [vm_compute; reflexivity |].
  split; [vm_compute; reflexivity |].
  apply (cache_hit_frame "x@b.com" Demo.cached_b_com "out.csv" Demo.world0 "b.com"
           {| whois_alive := true; mx_exists := true;
              checked_at := Some "2024-01-01T00:00:00+00:00" |});
    vm_compute; reflexivity.
Defined.

Lemma two_facts_keys_normal : keys_normal Demo.two_facts.
Proof.
  intros d [f H]. unfold Demo.two_facts in H.
  apply lookup_insert_Some in H as [[<- _]|[_ H]].
  - repeat split; [discriminate | vm_compute; reflexivity ..].
  - apply lookup_singleton_Some in H as [<- _].
    repeat split; [discriminate | vm_compute; reflexivity ..].
Qed.

Lemma save_stamps_missing_checked_at_witness :
  Str.truthy "cache.csv" = true
  /\ exists w' rows,
      _save_domain_cache (Some "cache.csv") Demo.two_facts Demo.world0 = (w', inr tt)
      /\ file_records "cache.csv" (trace w') = cache_fieldnames :: rows
      /\ Forall2 (saved_as (tick Demo.world0) (tick w'))
                 (map_to_list Demo.two_facts) rows
      /\ Forall (fun row => exists d a m stamp,
                     row = [d; a; m; stamp] /\ stamp <> "") rows.
Proof.
  split; [reflexivity |].
  apply (save_stamps_missing_checked_at "cache.csv" Demo.two_facts Demo.world0).
  reflexivity.
Defined.

(** What the save of [Demo.two_facts] leaves in the file. *)
Example save_two_facts :
  files (_save_domain_cache (Some "cache.csv") Demo.two_facts Demo.world0).1
  !! "cache.csv"
  = Some ("domain,whois_alive,mx_exists,checked_at" +:+ Demo.LF
          +:+ "b.com,1,1,2024-01-01T00:00:00+00:00" +:+ Demo.LF
          +:+ "d.org,0,0,2026-11-03T12:00:00+00:00" +:+ Demo.LF).
Proof. vm_compute. reflexivity. Qed.




(** Scenario C of the specification: the registry query for [z.io] fails;
    the fact has both flags false and the resolver is not queried. *)
Example scenario_c :
  exists w' cache' f,
    process_all ["q@z.io"] ∅ "out.csv" Demo.world0 = (w', inr cache')
    /\ cache' !! "z.io" = Some f
    /\ whois_alive f = false /\ mx_exists f = false
    /\ lookup_calls (trace w') = [EvWhois "z.io"]
    /\ calls (EvMx "z.io") (trace w') = 0%nat.
Proof.
  do 3 eexists. split; [vm_compute; reflexivity |].
  split; [vm_compute; reflexivity |].
  repeat split; vm_compute; reflexivity.
Qed.

(** The same domain twice, once in capitals: one query of each kind. *)
Example same_domain_twice :
  exists w' cache',
    process_all ["a@b.com"; " A@B.COM "] ∅ "out.csv" Demo.world0
    = (w', inr cache')
    /\ lookup_calls (trace w') = [EvWhois "b.com"; EvMx "b.com"]
    /\ file_records "out.csv" (EvOpen "out.csv" "w" :: trace w')
       = [["a@b.com"; "b.com"; "1"; "1"]; ["A@B.COM"; "b.com"; "1"; "1"]].
Proof.
  do 2 eexists. split; [vm_compute; reflexivity |].
  split; vm_compute; reflexivity.
Qed.

Example valid_emails :
  _is_valid_email "  a@b.com " = true
  /\ _is_valid_email "a@b" = false
  /\ _is_valid_email "a b@c.d" = false
  /\ _is_valid_email "a@b@c.d" = false
  /\ _is_valid_email "a@.d" = false
  /\ _is_valid_email "" = false.
Proof. repeat split; vm_compute; reflexivity. Qed.

Example valid_extensions :
  _is_valid_extension "data/In.CSV" = true
  /\ _is_valid_extension "list.txt" = true
  /\ _is_valid_extension "list.csv.bak" = false
  /\ _is_valid_extension "dir.csv/list" = false.
Proof. repeat split; vm_compute; reflexivity. Qed.

Example ordinal_of_a_day : Datetime.ymd2ord 2026 11 3 = 739923%Z.
Proof. vm_compute. reflexivity. Qed.

(** A snapshot without the [checked_at] column loads with an empty time
    stamp, a record cut short loads with none; saving stamps both. *)
Example load_without_checked_at :
  exists w1 cache,
    _load_domain_cache (Some "cache.csv")
      {| tick := 0; trace := [];
         files := {[ "cache.csv" :=
                       "domain,whois_alive,mx_exists" +:+ Demo.LF
                       +:+ "b.com,1,1" +:+ Demo.LF ]} |}
    = (w1, inr cache)
    /\ cache !! "b.com"
       = Some {| whois_alive := true; mx_exists := true;
                 checked_at := Some "" |}.
Proof. do 2 eexists. split; vm_compute; reflexivity. Qed.

(** The driver on an unsupported extension and on a supported one. *)
Example driver_runs :
  validate_emails "in.pdf" "out.csv" None Demo.stale_snapshot
  = (Demo.stale_snapshot,
     inl (ValueError "Входной файл должен быть .csv/.txt"))
  /\ exists w',
      validate_emails "in.txt" "out.csv" (Some "cache.csv")
        {| tick := 0; trace := [];
           files := {[ "in.txt" := "x@d.org" +:+ Demo.LF ]} |}
      = (w', inr tt)
      /\ files w' !! "out.csv"
         = Some ("email,domain,whois_alive,mx_exists" +:+ Demo.LF
                 +:+ "x@d.org,d.org,0,0" +:+ Demo.LF)
      /\ is_Some (files w' !! "cache.csv").
Proof.
  split; [reflexivity |].
  eexists. split; [vm_compute; reflexivity |].
  split; [vm_compute; reflexivity |].
  eexists. vm_compute. reflexivity.
Qed.

End Runs.

(** * Beyond the claims *)

(** ** Letter case and white space *)

Module CaseFacts.

Import Str.

Lemma lower_char_idem c : lower_char (lower_char c) = lower_char c.
Proof. destruct c as [[] [] [] [] [] [] [] []]; vm_compute; reflexivity. Qed.

Lemma isspace_lower_char c : isspace (lower_char c) = isspace c.
Proof. destruct c as [[] [] [] [] [] [] [] []]; vm_compute; reflexivity. Qed.

Lemma lower_char_at c : bool_decide (lower_char c = "@"%char)
                        = bool_decide (c = "@"%char).
Proof. destruct c as [[] [] [] [] [] [] [] []]; vm_compute; reflexivity. Qed.

Lemma not_at_space_lower_char c : not_at_space (lower_char c) = not_at_space c.
Proof. unfold not_at_space. now rewrite lower_char_at, isspace_lower_char. Qed.

Lemma lower_lower s : lower (lower s) = lower s.
Proof.
  induction s as [|c s IH]; simpl; [reflexivity |].
  now rewrite lower_char_idem, IH.
Qed.

Lemma all_lower p s :
  (forall c, p (lower_char c) = p c) -> all p (lower s) = all p s.
Proof.
  intros Hp. induction s as [|c s IH]; simpl; [reflexivity |].
  now rewrite Hp, IH.
Qed.

Lemma lower_nil s : lower s = "" <-> s = "".
Proof. destruct s; simpl; split; congruence. Qed.

Lemma lstrip_lower s : lstrip (lower s) = lower (lstrip s).
Proof.
  induction s as [|c s IH]; simpl; [reflexivity |].
  rewrite isspace_lower_char. destruct (isspace c); [exact IH | reflexivity].
Qed.

Lemma rstrip_lower s : rstrip (lower s) = lower (rstrip s).
Proof.
  induction s as [|c s IH]; [reflexivity |].
  cbn [lower rstrip]. rewrite IH, isspace_lower_char.
  destruct (rstrip s); simpl; [destruct (isspace c) |]; reflexivity.
Qed.

Lemma strip_lower s : strip (lower s) = lower (strip s).
Proof. unfold strip. now rewrite lstrip_lower, rstrip_lower. Qed.

Lemma split1_at_lower s :
  split1 "@" (lower s)
  = (fun ab : string * string => (lower ab.1, lower ab.2)) <$> split1 "@" s.
Proof.
  induction s as [|c s IH]; [reflexivity |].
  cbn [lower split1]. pose proof (lower_char_at c) as Hc.
  destruct (decide (lower_char c = "@"%char)) as [H|H];
    destruct (decide (c = "@"%char)) as [H'|H'].
  - reflexivity.
  - rewrite (bool_decide_eq_true_2 _ H), (bool_decide_eq_false_2 _ H') in Hc.
    discriminate.
  - rewrite (bool_decide_eq_false_2 _ H), (bool_decide_eq_true_2 _ H') in Hc.
    discriminate.
  - rewrite IH. destruct (split1 "@" s) as [[a b]|]; reflexivity.
Qed.

(** Trimming removes no character that is not white space. *)
Lemma contains_lstrip c s :
  isspace c = false -> contains c (lstrip s) = contains c s.
Proof.
  intros Hc. induction s as [|x s IH]; simpl; [reflexivity |].
  destruct (isspace x) eqn:Hx; [| reflexivity].
  destruct (decide (x = c)) as [->|]; [congruence | exact IH].
Qed.

Lemma contains_rstrip c s :
  isspace c = false -> contains c (rstrip s) = contains c s.
Proof.
  intros Hc. induction s as [|x s IH]; [reflexivity |].
  cbn [rstrip contains]. destruct (rstrip s) as [|y r] eqn:Hr.
  - simpl in IH. destruct (isspace x) eqn:Hx; simpl;
      destruct (decide (x = c)) as [->|]; congruence.
  - cbn [contains]. destruct (decide (x = c)); [reflexivity | exact IH].
Qed.

Lemma contains_strip_eq c s :
  isspace c = false -> contains c (strip s) = contains c s.
Proof.
  intros Hc. unfold strip. now rewrite contains_rstrip, contains_lstrip.
Qed.

Lemma split1_is_none sep s : split1 sep s = None <-> contains sep s = false.
Proof.
  split; [| apply StrFacts.split1_none].
  induction s as [|x s IH]; simpl; [reflexivity |].
  destruct (decide (x = sep)); [discriminate |].
  destruct (split1 sep s) as [[a b]|]; [discriminate | auto].
Qed.

End CaseFacts.

Lemma deriv_stable f c r :
  class_stable f r ->
  Re.deriv (f c) r = Re.deriv c r /\ class_stable f (Re.deriv c r).
Proof.
  induction r as [| |p|r1 IH1 r2 IH2|r1 IH1 r2 IH2|r IH]; simpl; intros H.
  - auto.
  - auto.
  - rewrite H. destruct (p c); simpl; auto.
  - destruct H as [H1 H2].
    destruct (IH1 H1) as [-> S1]. destruct (IH2 H2) as [-> S2].
    destruct (Re.nullable r1); simpl; auto.
  - destruct H as [H1 H2].
    destruct (IH1 H1) as [-> S1]. destruct (IH2 H2) as [-> S2]. simpl. auto.
  - destruct (IH H) as [-> S1]. simpl. auto.
Qed.

Lemma fullmatch_lower r s :
  class_stable Str.lower_char r ->
  Re.fullmatch r (Str.lower s) = Re.fullmatch r s.
Proof.
  revert r. induction s as [|c s IH]; intros r H; simpl; [reflexivity |].
  destruct (deriv_stable Str.lower_char c r H) as [-> H'].
  now apply IH.
Qed.

Lemma email_re_stable : class_stable Str.lower_char _email_re.
Proof.
  unfold _email_re, Re.Plus, Re.Chr. simpl.
  repeat split; intros c;
    first [apply CaseFacts.not_at_space_lower_char
          | apply CaseFacts.lower_char_at
          | apply bool_decide_ext; apply StrFacts.lower_char_dot ].
Qed.

(** X1. Neither the verdict of the validator nor the extracted domain
    depends on the letter case of the address: lower-casing the address
    first changes neither. *)
Theorem address_case_insensitive (e : string) :
  _is_valid_email (Str.lower e) = _is_valid_email e
  /\ _get_domain (Str.lower e) = _get_domain e.
Proof.
  split.
  - unfold _is_valid_email.
    rewrite !ReFacts.match_anchored_strip, CaseFacts.strip_lower.
    rewrite (fullmatch_lower _ _ email_re_stable).
    destruct (Str.strip e); reflexivity.
  - unfold _get_domain. rewrite CaseFacts.strip_lower, CaseFacts.split1_at_lower.
    destruct (Str.split1 "@" (Str.strip e)) as [[a b]|]; simpl; [| reflexivity].
    now rewrite CaseFacts.lower_lower.
Qed.

(** X2. [_get_domain] fails (the index error of the source) exactly on the
    addresses without [@]; otherwise it returns a lower-cased text. *)
Theorem get_domain_fails_iff_no_at (e : string) :
  (_get_domain e = None <-> Str.contains "@" e = false)
  /\ (forall d, _get_domain e = Some d -> Str.lower d = d).
Proof.
  split.
  - unfold _get_domain.
    rewrite <- (CaseFacts.contains_strip_eq "@" e) by reflexivity.
    rewrite <- CaseFacts.split1_is_none.
    destruct (Str.split1 "@" (Str.strip e)) as [[a b]|]; split; congruence.
  - intros d. unfold _get_domain.
    destruct (Str.split1 "@" (Str.strip e)) as [[a b]|]; [| discriminate].
    intros [= <-]. apply CaseFacts.lower_lower.
Qed.

Lemma email_shape_domain (s : string) :
  email_shape s ->
  exists l dom, Str.split1 "@" s = Some (l, dom)
                /\ dom <> ""
                /\ Str.all not_at_space dom = true
                /\ Str.contains "." dom = true.
Proof.
  intros (l & d & t & -> & _ & Hd & _ & Al & Ad & At).
  exists l, (d +:+ "." +:+ t). split; [| split; [| split]].
  - apply (StrFacts.split1_app "@"). now apply not_at_space_no_at.
  - now apply append_nonempty.
  - rewrite !StrFacts.all_app, Ad, At. reflexivity.
  - rewrite !StrFacts.contains_app. simpl. now rewrite orb_true_r.
Qed.

Lemma valid_domain_normal (e : string) :
  _is_valid_email e = true ->
  exists d, _get_domain e = Some d
            /\ d <> "" /\ Str.lower d = d /\ Str.strip d = d
            /\ Str.all not_at_space d = true
            /\ Str.contains "." d = true.
Proof.
  intros Hv. apply is_valid_email_lang, email_re_shape in Hv.
  apply email_shape_domain in Hv as (l & dom & Hs & Hne & Hall & Hdot).
  exists (Str.lower dom). unfold _get_domain. rewrite Hs.
  split; [reflexivity |].
  assert (Hall' : Str.all not_at_space (Str.lower dom) = true).
  { rewrite CaseFacts.all_lower; [exact Hall |].
    apply CaseFacts.not_at_space_lower_char. }
  split; [now rewrite CaseFacts.lower_nil |].
  split; [apply CaseFacts.lower_lower |].
  split; [apply StrFacts.strip_no_space, not_at_space_no_space, Hall' |].
  split; [exact Hall' | now rewrite StrFacts.contains_dot_lower].
Qed.

(** X3. The domain of a valid address is a well-formed cache key: not
    empty, lower-cased, unchanged by trimming, free of [@] and of white
    space, and with a full stop in it. *)
Theorem valid_address_has_normal_domain (e : string) :
  _is_valid_email e = true ->
  exists d, _get_domain e = Some d
            /\ d <> "" /\ Str.lower d = d /\ Str.strip d = d
            /\ Str.contains "@" d = false
            /\ Str.all (fun c => negb (Str.isspace c)) d = true
            /\ Str.contains "." d = true.
Proof.
  intros Hv.
  destruct (valid_domain_normal e Hv) as (d & Hd & Hne & Hl & Hs & Hall & Hdot).
  exists d. repeat (split; [assumption |]).
  split; [now apply not_at_space_no_at |].
  split; [now apply not_at_space_no_space | exact Hdot].
Qed.

(** ** Mail-exchange lookup *)

Section MoreLookups.

Context {E : Env}.

(** X4. [_mx_queries_domain] never raises. It makes one resolver query and
    touches nothing else; it answers true exactly when the query succeeds
    with at least one record, so a failed query gives false. *)
Theorem mx_queries_fail_closed (domain : string) (w : World) :
  exists b,
    _mx_queries_domain domain w
    = ({| tick := S (tick w); trace := trace w ++ [EvMx domain];
          files := files w |}, inr b)
    /\ (b = true <-> exists n, mx_server (tick w) domain = Some n /\ (0 < n)%nat)
    /\ (mx_server (tick w) domain = None -> b = false).
Proof.
  rewrite _mx_queries_domain_run.
  destruct (mx_server (tick w) domain) as [n|] eqn:Hq.
  - exists (0 <? n)%nat. split; [reflexivity |]. split; [| discriminate].
    rewrite Nat.ltb_lt. split; [eauto |]. intros (n' & [= <-] & H). exact H.
  - exists false. split; [reflexivity |]. split; [| reflexivity].
    split; [discriminate |]. intros (n & Hn & _). discriminate.
Qed.

End MoreLookups.

(** ** Which files change, which exceptions escape *)

Section Frames.

Context {E : Env}.

Lemma touches_only_weaken {A} (S S' : string -> Prop) (m : M A) :
  (forall q, S q -> S' q) -> touches_only S m -> touches_only S' m.
Proof. intros HS Hm w q Hq. apply Hm. intros H. apply Hq, HS, H. Qed.

Lemma touches_only_ret {A} S (a : A) : touches_only S (ret a).
Proof. intros w q _. reflexivity. Qed.

Lemma touches_only_raise {A} S x : touches_only S (@raise A x).
Proof. intros w q _. reflexivity. Qed.

Lemma touches_only_emit S e : touches_only S (emit e).
Proof. intros w q _. reflexivity. Qed.

Lemma touches_only_advance S : touches_only S advance.
Proof. intros w q _. reflexivity. Qed.

Lemma touches_only_get_files S : touches_only S get_files.
Proof. intros w q _. reflexivity. Qed.

Lemma touches_only_set_file (S : string -> Prop) p text :
  S p -> touches_only S (set_file p text).
Proof.
  intros Hp w q Hq. cbn. apply lookup_insert_ne. intros ->. contradiction.
Qed.

Lemma touches_only_bind {A B} S (m : M A) (k : A -> M B) :
  touches_only S m -> (forall a, touches_only S (k a)) ->
  touches_only S (bind m k).
Proof.
  intros Hm Hk w q Hq. unfold bind. specialize (Hm w q Hq).
  destruct (m w) as [w1 [x|a]]; cbn [fst] in *; [exact Hm |].
  rewrite (Hk a w1 q Hq). exact Hm.
Qed.

Lemma touches_only_try {A} S (m h : M A) :
  touches_only S m -> touches_only S h -> touches_only S (try_except m h).
Proof.
  intros Hm Hh w q Hq. unfold try_except. specialize (Hm w q Hq).
  destruct (m w) as [w1 [x|a]]; cbn [fst] in *; [| exact Hm].
  rewrite (Hh w1 q Hq). exact Hm.
Qed.

Lemma touches_only_foldM {A B} S (f : B -> A -> M B) l :
  (forall b a, touches_only S (f b a)) -> forall b, touches_only S (foldM f b l).
Proof.
  intros Hf. induction l as [|a l IH]; intros b; cbn [foldM].
  - apply touches_only_ret.
  - apply touches_only_bind; [apply Hf | exact IH].
Qed.

Lemma raises_only_weaken {A} (S S' : exn -> Prop) (m : M A) :
  (forall x, S x -> S' x) -> raises_only S m -> raises_only S' m.
Proof. intros HS Hm w x Hx. apply HS, (Hm w x Hx). Qed.

Lemma raises_only_ret {A} S (a : A) : raises_only S (ret a).
Proof. intros w x H. discriminate. Qed.

Lemma raises_only_raise {A} (S : exn -> Prop) x : S x -> raises_only S (@raise A x).
Proof. intros Hx w y [= <-]. exact Hx. Qed.

Lemma raises_only_bind {A B} S (m : M A) (k : A -> M B) :
  raises_only S m -> (forall a, raises_only S (k a)) ->
  raises_only S (bind m k).
Proof.
  intros Hm Hk w x. unfold bind. specialize (Hm w).
  destruct (m w) as [w1 [y|a]]; cbn [snd] in *.
  - intros [= <-]. now apply Hm.
  - apply Hk.
Qed.

Lemma raises_only_try {A} S (m h : M A) :
  raises_only S h -> raises_only S (try_except m h).
Proof.
  intros Hh w x. unfold try_except.
  destruct (m w) as [w1 [y|a]]; cbn [snd]; [apply Hh | discriminate].
Qed.

Lemma raises_only_foldM {A B} S (f : B -> A -> M B) l :
  (forall b a, a ∈ l -> raises_only S (f b a)) ->
  forall b, raises_only S (foldM f b l).
Proof.
  induction l as [|a l IH]; intros Hf b; cbn [foldM].
  - apply raises_only_ret.
  - apply raises_only_bind; [apply Hf, list_elem_of_here |].
    intros b'. apply IH. intros b'' a' Ha'. apply Hf.
    now apply list_elem_of_further.
Qed.

Lemma whois_domain_touches S domain : touches_only S (_whois_domain domain).
Proof.
  intros w q _. rewrite _whois_domain_run.
  destruct (whois_server (tick w) domain ≫= _extract_expiration_date);
    reflexivity.
Qed.

Lemma mx_queries_touches S domain : touches_only S (_mx_queries_domain domain).
Proof. intros w q _. rewrite _mx_queries_domain_run. reflexivity. Qed.

Lemma now_touches S : touches_only S datetime_now_utc.
Proof. intros w q _. reflexivity. Qed.

Lemma writerow_touches (S : string -> Prop) p row :
  S p -> touches_only S (writerow p row).
Proof.
  intros Hp w q Hq. rewrite writerow_run. cbn.
  apply lookup_insert_ne. intros ->. contradiction.
Qed.

Lemma open_write_touches (S : string -> Prop) p :
  S p -> touches_only S (open_write p).
Proof.
  intros Hp w q Hq. rewrite open_write_run. cbn.
  apply lookup_insert_ne. intros ->. contradiction.
Qed.

Lemma open_read_touches S p : touches_only S (open_read p).
Proof.
  intros w q _. unfold open_read, bind, emit, get_files. cbn.
  destruct (files w !! p); reflexivity.
Qed.

Lemma process_email_touches (S : string -> Prop) e cache wr :
  S wr -> touches_only S (_process_email e cache wr).
Proof.
  intros Hwr. unfold _process_email.
  destruct (negb (_is_valid_email (Str.strip e))); [apply touches_only_ret |].
  destruct (_get_domain (Str.strip e)) as [d|]; [| apply touches_only_raise].
  apply touches_only_bind.
  - destruct (cache !! d); [apply touches_only_ret |].
    apply touches_only_bind; [apply whois_domain_touches |]. intros alive.
    apply touches_only_bind.
    { destruct alive; [apply mx_queries_touches | apply touches_only_ret]. }
    intros mx. apply touches_only_bind; [apply now_touches |].
    intros now. apply touches_only_ret.
  - intros r. apply touches_only_bind; [now apply writerow_touches |].
    intros _. apply touches_only_ret.
Qed.

Lemma process_all_touches (S : string -> Prop) emails wr :
  S wr -> forall cache, touches_only S (process_all emails cache wr).
Proof.
  intros Hwr cache. unfold process_all. apply touches_only_foldM.
  intros b a. now apply process_email_touches.
Qed.

Lemma load_row_pure cache row w : (load_row cache row w).1 = w.
Proof.
  unfold load_row. destruct (dict_get "domain" (CStr "") row); try reflexivity.
  destruct (negb _); reflexivity.
Qed.

Lemma load_touches S path : touches_only S (_load_domain_cache path).
Proof.
  unfold _load_domain_cache. destruct path as [p|]; [| apply touches_only_ret].
  destruct (negb (Str.truthy p)); [apply touches_only_ret |].
  apply touches_only_bind.
  { intros w q _. reflexivity. }
  intros present. destruct (negb present); [apply touches_only_ret |].
  apply touches_only_bind; [apply open_read_touches |].
  intros text. apply touches_only_foldM.
  intros b a w q _. now rewrite load_row_pure.
Qed.

Lemma save_row_touches (S : string -> Prop) p item :
  S p -> touches_only S (save_row p item).
Proof.
  intros Hp. unfold save_row. apply touches_only_bind.
  - destruct (checked_at item.2) as [t|];
      [destruct (Str.truthy t); [apply touches_only_ret |] |];
      (apply touches_only_bind; [apply now_touches |];
       intros now; apply touches_only_ret).
  - intros stamp. now apply writerow_touches.
Qed.

Lemma save_touches (S : string -> Prop) path cache :
  (forall p, path = Some p -> S p) ->
  touches_only S (_save_domain_cache path cache).
Proof.
  intros HS. unfold _save_domain_cache.
  destruct path as [p|]; [| apply touches_only_ret].
  destruct (negb (Str.truthy p)); [apply touches_only_ret |].
  specialize (HS p eq_refl).
  apply touches_only_bind.
  { destruct (Str.truthy (os_path_dirname p));
      [apply touches_only_emit | apply touches_only_ret]. }
  intros _. apply touches_only_bind; [now apply open_write_touches |].
  intros _. apply touches_only_bind; [now apply writerow_touches |].
  intros _. apply touches_only_foldM. intros b a. now apply save_row_touches.
Qed.

Lemma cell_strip_touches S c : touches_only S (cell_strip c).
Proof. destruct c; [apply touches_only_ret | apply touches_only_raise ..]. Qed.

Lemma dict_index_touches S k d : touches_only S (dict_index k d).
Proof.
  unfold dict_index. destruct (bool_decide _);
    [apply touches_only_ret | apply touches_only_raise].
Qed.

Lemma csv_branch_touches (S : string -> Prop) emails_file output_file cache :
  S output_file -> touches_only S (csv_branch emails_file output_file cache).
Proof.
  intros Hout. unfold csv_branch.
  apply touches_only_bind; [apply open_read_touches |].
  intros text. apply touches_only_foldM. intros b row.
  destruct row as [|first row']; [apply touches_only_ret |].
  apply touches_only_bind.
  - destruct (bool_decide _); [| apply cell_strip_touches].
    apply touches_only_bind; [apply dict_index_touches |].
    intros v. apply cell_strip_touches.
  - intros email. now apply process_email_touches.
Qed.

Lemma txt_branch_touches (S : string -> Prop) emails_file output_file cache :
  S output_file -> touches_only S (txt_branch emails_file output_file cache).
Proof.
  intros Hout. unfold txt_branch.
  apply touches_only_bind; [apply open_read_touches |].
  intros text. now apply process_all_touches.
Qed.

(** X5. Whatever happens, [validate_emails] changes no file other than the
    output file and the cache file: every other path, the input among
    them, holds afterwards what it held before, also when the run ends in
    an exception. Resolving addresses alone changes only the output file,
    and loading the cache changes no file at all. *)
Theorem validate_emails_frame :
  (forall emails_file output_file cached_domains,
      touches_only (fun q => q = output_file \/ cached_domains = Some q)
                   (validate_emails emails_file output_file cached_domains))
  /\ (forall emails cache wr,
         touches_only (fun q => q = wr) (process_all emails cache wr))
  /\ (forall path, touches_only nothing (_load_domain_cache path))
  /\ (forall path cache,
         touches_only (fun q => path = Some q) (_save_domain_cache path cache)).
Proof.
  split; [| split; [| split]].
  - intros emails_file output_file cached_domains.
    set (S := fun q => q = output_file \/ cached_domains = Some q).
    assert (Hout : S output_file) by (left; reflexivity).
    unfold validate_emails.
    destruct (negb (_is_valid_extension emails_file));
      [apply touches_only_raise |].
    apply touches_only_bind; [apply load_touches |]. intros cache.
    apply touches_only_bind.
    { destruct (Str.truthy (os_path_dirname output_file));
        [apply touches_only_emit | apply touches_only_ret]. }
    intros _. apply touches_only_bind; [now apply open_write_touches |].
    intros _. apply touches_only_bind; [now apply writerow_touches |].
    intros _. apply touches_only_bind.
    + destruct (bool_decide _); [now apply csv_branch_touches |].
      destruct (bool_decide _); [now apply txt_branch_touches |].
      apply touches_only_raise.
    + intros cache'. apply save_touches. intros p ->. right. reflexivity.
  - intros emails cache wr. now apply process_all_touches.
  - intros path. apply load_touches.
  - intros path cache. apply save_touches. auto.
Qed.

(** *** Exceptions *)

Lemma dict_set_keys k v d k' :
  k' ∈ (dict_set k v d).*1 <-> k' = k \/ k' ∈ d.*1.
Proof.
  induction d as [|[k0 v0] d IH]; cbn [dict_set].
  - cbn. rewrite list_elem_of_singleton, elem_of_nil. tauto.
  - destruct (decide (k = k0)) as [<-|Hne]; cbn [fmap list_fmap fst].
    + rewrite !elem_of_cons. tauto.
    + rewrite !elem_of_cons, IH. cbn. tauto.
Qed.

Lemma foldl_zip_keys l : forall (d : rowdict) k',
  (k' ∈ d.*1 \/ exists k v, k' = Some k /\ (k, v) ∈ l) ->
  k' ∈ (foldl (fun d (kv : string * string) =>
                 dict_set (Some kv.1) (CStr kv.2) d) d l).*1.
Proof.
  induction l as [|[k0 v0] l IH]; intros d k' H; cbn [foldl].
  - destruct H as [H|(k & v & _ & H)]; [exact H |].
    apply elem_of_nil in H. contradiction.
  - apply IH. destruct H as [H|(k & v & -> & H)].
    + left. apply dict_set_keys. now right.
    + apply elem_of_cons in H as [[= -> ->]|H].
      * left. apply dict_set_keys. now left.
      * right. eauto.
Qed.

Lemma foldl_restval_keys l : forall (d : rowdict) k',
  (k' ∈ d.*1 \/ exists k, k' = Some k /\ k ∈ l) ->
  k' ∈ (foldl (fun d k => dict_set (Some k) CNone d) d l).*1.
Proof.
  induction l as [|k0 l IH]; intros d k' H; cbn [foldl].
  - destruct H as [H|(k & _ & H)]; [exact H |].
    apply elem_of_nil in H. contradiction.
  - apply IH. destruct H as [H|(k & -> & H)].
    + left. apply dict_set_keys. now right.
    + apply elem_of_cons in H as [->|H].
      * left. apply dict_set_keys. now left.
      * right. eauto.
Qed.

Lemma zip_or_drop (fn : list string) : forall (r : list string) k,
  k ∈ fn -> (exists v, (k, v) ∈ zip fn r) \/ k ∈ drop (length r) fn.
Proof.
  induction fn as [|k0 fn IH]; intros r k Hk.
  - apply elem_of_nil in Hk. contradiction.
  - destruct r as [|v0 r]; [right; exact Hk |]. cbn [zip zip_with length drop].
    apply elem_of_cons in Hk as [->|Hk].
    + left. exists v0. apply list_elem_of_here.
    + destruct (IH r k Hk) as [(v & Hv)|Hd]; [left | right; exact Hd].
      exists v. now apply list_elem_of_further.
Qed.

(** Every field name is a key of every row dictionary. *)
Lemma dictreader_row_keys fn r k :
  k ∈ fn -> Some k ∈ (dictreader_row fn r).*1.
Proof.
  intros Hk. unfold dictreader_row.
  destruct (zip_or_drop fn r k Hk) as [(v & Hv)|Hd].
  - destruct (length fn <? length r)%nat.
    + apply dict_set_keys. right. apply foldl_zip_keys. right. eauto.
    + apply foldl_restval_keys. left. apply foldl_zip_keys. right. eauto.
  - destruct (length fn <? length r)%nat eqn:Hlt.
    + apply Nat.ltb_lt in Hlt. rewrite drop_ge in Hd by lia.
      apply elem_of_nil in Hd. contradiction.
    + apply foldl_restval_keys. right. eauto.
Qed.

Lemma whois_domain_never_raises domain : raises_only never (_whois_domain domain).
Proof.
  intros w x. rewrite _whois_domain_run.
  destruct (whois_server (tick w) domain ≫= _extract_expiration_date);
    discriminate.
Qed.

Lemma process_email_never_raises e cache wr :
  raises_only never (_process_email e cache wr).
Proof.
  intros w x. destruct (process_email_step e cache wr w) as (w' & c' & new & -> & _).
  discriminate.
Qed.

Lemma process_all_never_raises emails cache wr :
  raises_only never (process_all emails cache wr).
Proof.
  intros w x. destruct (process_all_run emails cache wr w) as (w' & c' & new & -> & _).
  discriminate.
Qed.

Lemma save_never_raises path cache :
  raises_only never (_save_domain_cache path cache).
Proof.
  intros w x. destruct path as [p|]; [| discriminate].
  destruct (Str.truthy p) eqn:Hp.
  - destruct (save_run p cache w Hp) as (w' & rows & -> & _). discriminate.
  - unfold _save_domain_cache. rewrite Hp. discriminate.
Qed.

Lemma load_row_raises cache row :
  raises_only (fun x => x = AttributeError) (load_row cache row).
Proof.
  intros w x. unfold load_row.
  destruct (dict_get "domain" (CStr "") row);
    [destruct (negb _); discriminate | intros [= <-]; reflexivity ..].
Qed.

(** [_load_domain_cache] on a usable path, by what the path holds. *)
Lemma load_cases (p : string) (w : World) :
  Str.truthy p = true ->
  _load_domain_cache (Some p) w
  = match files w !! p with
    | Some text =>
        foldM load_row ∅ (DictReader text).2
          {| tick := tick w; trace := trace w ++ [EvExists p; EvOpen p "r"];
             files := files w |}
    | None =>
        ({| tick := tick w; trace := trace w ++ [EvExists p];
            files := files w |}, inr ∅)
    end.
Proof.
  intros Hp. unfold _load_domain_cache. rewrite Hp. cbn [negb].
  unfold bind at 1, os_path_exists, bind, emit, get_files, ret. cbn [files].
  destruct (files w !! p) as [text|] eqn:Hf.
  - rewrite bool_decide_eq_true_2 by eauto. cbn [negb].
    unfold open_read, bind, emit, get_files, ret. cbn [files trace tick].
    rewrite Hf, <- app_assoc. reflexivity.
  - rewrite bool_decide_eq_false_2 by (intros [? ?]; discriminate).
    reflexivity.
Qed.

Lemma load_raises path :
  raises_only (fun x => x = AttributeError) (_load_domain_cache path).
Proof.
  intros w x. destruct path as [p|]; [| discriminate].
  destruct (Str.truthy p) eqn:Hp.
  - rewrite (load_cases p w Hp). destruct (files w !! p); [| discriminate].
    apply (raises_only_foldM (fun x => x = AttributeError)).
    intros b a _. apply load_row_raises.
  - unfold _load_domain_cache. rewrite Hp. discriminate.
Qed.

Lemma open_read_raises p : raises_only (fun x => x = OSError) (open_read p).
Proof.
  intros w x. unfold open_read, bind, emit, get_files, ret, raise. cbn.
  destruct (files w !! p); [discriminate | intros [= <-]; reflexivity].
Qed.

Lemma cell_strip_raises c :
  raises_only (fun x => x = AttributeError) (cell_strip c).
Proof. intros w x. destruct c; cbn; [discriminate | intros [= <-]; reflexivity ..]. Qed.

Lemma csv_branch_raises emails_file output_file cache :
  raises_only read_errors (csv_branch emails_file output_file cache).
Proof.
  unfold csv_branch. apply raises_only_bind.
  { eapply raises_only_weaken; [| apply open_read_raises].
    intros x ->. now left. }
  intros text. unfold DictReader.
  destruct (csv_parse text) as [|fn records]; [apply raises_only_ret |].
  cbn [fst snd default id]. apply raises_only_foldM. intros b row Hrow.
  apply list_elem_of_fmap in Hrow as (r & -> & _).
  destruct (dictreader_row fn r) as [|first rest] eqn:Hd; [apply raises_only_ret |].
  rewrite <- Hd. apply raises_only_bind.
  - eapply raises_only_weaken with (S := fun x => x = AttributeError);
      [intros x ->; now right |].
    destruct (bool_decide ("email" ∈ fn)) eqn:Hcol; [| apply cell_strip_raises].
    apply bool_decide_eq_true in Hcol.
    apply raises_only_bind; [| intros v; apply cell_strip_raises].
    intros w x. unfold dict_index.
    rewrite bool_decide_eq_true_2 by now apply dictreader_row_keys.
    discriminate.
  - intros email. eapply raises_only_weaken; [| apply process_email_never_raises].
    intros x [].
Qed.

Lemma txt_branch_raises emails_file output_file cache :
  raises_only read_errors (txt_branch emails_file output_file cache).
Proof.
  unfold txt_branch. apply raises_only_bind.
  - eapply raises_only_weaken; [| apply open_read_raises].
    intros x ->. now left.
  - intros text. eapply raises_only_weaken; [| apply process_all_never_raises].
    intros x [].
Qed.

(** Once the extension is accepted, what leaves the driver in the model,
    where writing a file cannot fail, is a file that cannot be read or the
    attribute error of a row value that is [None]; neither complaint about
    the extension can. *)
Lemma validate_accepted_raises (emails_file output_file : string)
      (cached_domains : option string) :
  _is_valid_extension emails_file = true ->
  raises_only read_errors
    (validate_emails emails_file output_file cached_domains).
Proof.
  intros Hext. unfold validate_emails. rewrite Hext. cbn [negb].
  apply raises_only_bind.
  { eapply raises_only_weaken; [| apply load_raises].
    intros x ->. now right. }
  intros cache. apply raises_only_bind.
  { destruct (Str.truthy _); intros w x; discriminate. }
  intros _. apply raises_only_bind; [intros w x; discriminate |].
  intros _. apply raises_only_bind; [intros w x; discriminate |].
  intros _. apply raises_only_bind.
  - apply valid_extension_iff in Hext. rewrite <- rsplit1_last_lower in Hext.
    destruct Hext as [-> | ->]; cbn [bool_decide decide_rel];
      [apply csv_branch_raises |].
    rewrite bool_decide_eq_false_2 by discriminate.
    rewrite bool_decide_eq_true_2 by reflexivity.
    apply txt_branch_raises.
  - intros cache'. eapply raises_only_weaken; [| apply save_never_raises].
    intros x [].
Qed.

Lemma validate_emails_raises (emails_file output_file : string)
      (cached_domains : option string) :
  raises_only driver_errors
    (validate_emails emails_file output_file cached_domains).
Proof.
  destruct (_is_valid_extension emails_file) eqn:Hext.
  - eapply raises_only_weaken; [| now apply validate_accepted_raises].
    intros x [-> | ->]; [right; now left | right; now right].
  - unfold validate_emails. rewrite Hext. apply raises_only_raise. now left.
Qed.

Lemma driver_errors_not_internal (x : exn) :
  driver_errors x -> ~ internal_errors x.
Proof.
  intros [-> | [-> | ->]] [H | [H | [H | [H | H]]]]; discriminate.
Qed.

(** X6. The exceptions raised inside the program never leave
    [validate_emails]: whatever exception ends a run, it is not a failed
    registry or resolver query (both are caught and read as [False]), not
    the index error of [_get_domain] (an accepted address has its [@]), not
    the key error of [row["email"]] (a row has the key whenever the header
    has the column), not the type error of comparing a naive with an aware
    time (a naive expiration time is read as UTC first), and not the
    second [ValueError] of the driver, which cannot be reached. *)
Theorem validate_emails_errors (emails_file output_file : string)
        (cached_domains : option string) (w : World) (x : exn) :
  (validate_emails emails_file output_file cached_domains w).2 = inl x ->
  x <> QueryError /\ x <> IndexError /\ x <> KeyError /\ x <> TypeError
  /\ x <> ValueError "Поддерживаются только .csv и .txt".
Proof.
  intros H.
  apply validate_emails_raises, driver_errors_not_internal in H.
  unfold internal_errors in H. tauto.
Qed.

End Frames.

(** ** Loading a snapshot *)

Section Loader.

Context {E : Env}.

Lemma foldM_invariant {A B} (P : B -> Prop) (f : B -> A -> M B) l :
  (forall b a w w' b', P b -> f b a w = (w', inr b') -> P b') ->
  forall b w w' b', P b -> foldM f b l w = (w', inr b') -> P b'.
Proof.
  intros Hf. induction l as [|a l IH]; intros b w w' b' Hb; cbn [foldM].
  - intros [= _ <-]. exact Hb.
  - unfold bind. destruct (f b a w) as [w1 [x|b1]] eqn:H1; [discriminate |].
    apply IH. exact (Hf _ _ _ _ _ Hb H1).
Qed.

Lemma keys_normal_empty : keys_normal ∅.
Proof. intros d [f H]. rewrite lookup_empty in H. discriminate. Qed.

Lemma keys_normal_insert cache d f :
  keys_normal cache -> d <> "" -> Str.lower d = d -> Str.strip d = d ->
  keys_normal (<[d := f]> cache).
Proof.
  intros Hc H1 H2 H3 d' Hd'. destruct (decide (d = d')) as [<-|Hne]; [auto |].
  rewrite lookup_insert_ne in Hd' by assumption. now apply Hc.
Qed.

Lemma normalised_key s :
  Str.truthy (Str.lower (Str.strip s)) = true ->
  Str.lower (Str.strip s) <> ""
  /\ Str.lower (Str.lower (Str.strip s)) = Str.lower (Str.strip s)
  /\ Str.strip (Str.lower (Str.strip s)) = Str.lower (Str.strip s).
Proof.
  intros Ht. split; [intros H; rewrite H in Ht; discriminate |].
  split; [apply CaseFacts.lower_lower |].
  now rewrite CaseFacts.strip_lower, StrFacts.strip_strip.
Qed.

Lemma load_row_keys_normal cache row w w' cache' :
  keys_normal cache -> load_row cache row w = (w', inr cache') ->
  keys_normal cache'.
Proof.
  intros Hc. unfold load_row.
  destruct (dict_get "domain" (CStr "") row) as [s| |]; try discriminate.
  destruct (Str.truthy (Str.lower (Str.strip s))) eqn:Ht; cbn [negb].
  - intros [= _ <-]. destruct (normalised_key s Ht) as (H1 & H2 & H3).
    now apply keys_normal_insert.
  - intros [= _ <-]. exact Hc.
Qed.

(** X7. Whatever the snapshot holds, every key of a cache that
    [_load_domain_cache] returns is non-empty, lower-cased and free of
    white space at both ends. *)
Theorem loaded_keys_normal (path : option string) (w w' : World)
        (cache : gmap string DomainFact) :
  _load_domain_cache path w = (w', inr cache) -> keys_normal cache.
Proof.
  destruct path as [p|]; [| intros [= _ <-]; apply keys_normal_empty].
  destruct (Str.truthy p) eqn:Hp.
  - rewrite (load_cases p w Hp).
    destruct (files w !! p); [| intros [= _ <-]; apply keys_normal_empty].
    apply (foldM_invariant keys_normal); [| apply keys_normal_empty].
    intros b a w1 w2 b'. apply load_row_keys_normal.
  - unfold _load_domain_cache. rewrite Hp.
    intros [= _ <-]. apply keys_normal_empty.
Qed.

(** Caching is optional. With the cache path unset ([None] or empty),
    loading returns the empty cache and saving does nothing, both without
    any effect on the world; with a path that names no file, loading
    returns the empty cache after the existence check and opens nothing. *)
Lemma cache_path_unset_or_missing (w : World) :
  (forall path, path = None \/ path = Some "" ->
      _load_domain_cache path w = (w, inr ∅)
      /\ forall cache, _save_domain_cache path cache w = (w, inr tt))
  /\ (forall p, Str.truthy p = true -> files w !! p = None ->
        _load_domain_cache (Some p) w
        = ({| tick := tick w; trace := trace w ++ [EvExists p];
              files := files w |}, inr ∅)).
Proof.
  split.
  - intros path [-> | ->]; split; reflexivity.
  - intros p Hp Hf. rewrite (load_cases p w Hp), Hf. reflexivity.
Qed.

Lemma dict_get_set k dflt k' v d :
  dict_get k dflt (dict_set k' v d)
  = if decide (Some k = k') then v else dict_get k dflt d.
Proof.
  induction d as [|[k0 v0] d IH]; cbn [dict_set dict_get]; [reflexivity |].
  destruct (decide (k' = k0)) as [<-|Hne]; cbn [dict_get].
  - destruct (decide (Some k = k')); reflexivity.
  - rewrite IH. destruct (decide (Some k = k0)) as [<-|];
      destruct (decide (Some k = k')); try reflexivity; congruence.
Qed.

Lemma dict_get_foldl_zip k dflt l : forall d,
  k ∉ l.*1 ->
  dict_get k dflt (foldl (fun d (kv : string * string) =>
                            dict_set (Some kv.1) (CStr kv.2) d) d l)
  = dict_get k dflt d.
Proof.
  induction l as [|[k0 v0] l IH]; intros d Hk; cbn [foldl]; [reflexivity |].
  rewrite IH, dict_get_set; cbn [fst snd].
  - destruct (decide (Some k = Some k0)) as [[= ->]|]; [| reflexivity].
    exfalso. apply Hk. cbn. apply list_elem_of_here.
  - intros H. apply Hk. cbn. now apply list_elem_of_further.
Qed.

Lemma dict_get_foldl_restval k dflt l : forall d,
  k ∉ l ->
  dict_get k dflt (foldl (fun d k => dict_set (Some k) CNone d) d l)
  = dict_get k dflt d.
Proof.
  induction l as [|k0 l IH]; intros d Hk; cbn [foldl]; [reflexivity |].
  rewrite IH, dict_get_set.
  - destruct (decide (Some k = Some k0)) as [[= ->]|]; [| reflexivity].
    exfalso. apply Hk. apply list_elem_of_here.
  - intros H. apply Hk. now apply list_elem_of_further.
Qed.

(** When the first field name, and no other, is [k], the value under [k]
    is the first field of the record. *)
Lemma dictreader_row_first k rest x r dflt :
  k ∉ rest ->
  dict_get k dflt (dictreader_row (k :: rest) (x :: r)) = CStr x.
Proof.
  intros Hk. unfold dictreader_row. cbn [zip zip_with foldl dict_set length drop].
  assert (Hz : k ∉ (zip rest r).*1).
  { intros H. apply list_elem_of_fmap in H as ([k' v] & -> & H).
    apply elem_of_zip_l in H. contradiction. }
  assert (Hbase : dict_get k dflt
                    (foldl (fun d (kv : string * string) =>
                              dict_set (Some kv.1) (CStr kv.2) d)
                           [(Some k, CStr x)] (zip rest r)) = CStr x).
  { rewrite dict_get_foldl_zip by assumption. cbn.
    destruct (decide (Some k = Some k)); [reflexivity | congruence]. }
  destruct (S (length rest) <? S (length r))%nat.
  - rewrite dict_get_set.
    destruct (decide (Some k = None)); [discriminate | exact Hbase].
  - rewrite dict_get_foldl_restval; [exact Hbase |].
    intros H. apply Hk. exact (subseteq_drop _ _ _ H).
Qed.

Lemma load_row_first_column rest x r cache w :
  "domain" ∉ rest ->
  exists f,
    load_row cache (dictreader_row ("domain" :: rest) (x :: r)) w
    = (w, inr (if Str.truthy (Str.lower (Str.strip x))
               then <[Str.lower (Str.strip x) := f]> cache else cache)).
Proof.
  intros Hk.
  set (row := dictreader_row ("domain" :: rest) (x :: r)).
  exists {| whois_alive := cell_is (dict_get "whois_alive" (CStr "0") row) "1";
            mx_exists := cell_is (dict_get "mx_exists" (CStr "0") row) "1";
            checked_at := match dict_get "checked_at" (CStr "") row with
                          | CStr t => Some t
                          | _ => None
                          end |}.
  unfold load_row. unfold row at 1.
  rewrite (dictreader_row_first "domain" rest x r _ Hk).
  destruct (Str.truthy (Str.lower (Str.strip x))); reflexivity.
Qed.

Lemma load_rows_first_column rest records :
  "domain" ∉ rest ->
  forall cache w,
  exists cache',
    foldM load_row cache
      (dictreader_row ("domain" :: rest) <$> filter (fun r => r ≠ []) records) w
    = (w, inr cache')
    /\ forall d, is_Some (cache' !! d) <->
                 is_Some (cache !! d)
                 \/ (d <> ""
                     /\ exists x r, (x :: r) ∈ records
                                    /\ Str.lower (Str.strip x) = d).
Proof.
  intros Hk. induction records as [|rec records IH]; intros cache w.
  - exists cache. split; [reflexivity |]. intros d. split; [auto |].
    intros [H|(_ & x & r & H & _)]; [exact H |].
    apply elem_of_nil in H. contradiction.
  - destruct rec as [|x r].
    + rewrite filter_cons_False by (intros H; now apply H).
      destruct (IH cache w) as (c' & Hrun & Hdom). exists c'.
      split; [exact Hrun |]. intros d. rewrite Hdom. split.
      * intros [H|(Hne & x & r & H & Hx)]; [auto |].
        right. split; [exact Hne |]. exists x, r.
        split; [now apply list_elem_of_further | exact Hx].
      * intros [H|(Hne & x & r & H & Hx)]; [auto |].
        apply elem_of_cons in H as [H|H]; [discriminate |].
        right. eauto.
    + rewrite filter_cons_True by discriminate.
      cbn [fmap list_fmap foldM]. unfold bind.
      destruct (load_row_first_column rest x r cache w Hk) as [f ->].
      destruct (Str.truthy (Str.lower (Str.strip x))) eqn:Ht.
      * destruct (IH (<[Str.lower (Str.strip x) := f]> cache) w)
          as (c' & Hrun & Hdom).
        exists c'. split; [exact Hrun |]. intros d. rewrite Hdom.
        destruct (normalised_key x Ht) as (Hne & _).
        destruct (decide (Str.lower (Str.strip x) = d)) as [<-|Hd].
        -- split; intros _.
           ++ right. split; [exact Hne |]. exists x, r.
              split; [apply list_elem_of_here | reflexivity].
           ++ left. rewrite lookup_insert_eq. eauto.
        -- rewrite lookup_insert_ne by assumption. split.
           ++ intros [H|(Hn & x' & r' & H & Hx)]; [auto |].
              right. split; [exact Hn |]. exists x', r'.
              split; [now apply list_elem_of_further | exact Hx].
           ++ intros [H|(Hn & x' & r' & H & Hx)]; [auto |].
              apply elem_of_cons in H as [[= -> ->]|H]; [contradiction |].
              right. eauto.
      * destruct (IH cache w) as (c' & Hrun & Hdom).
        exists c'. split; [exact Hrun |]. intros d. rewrite Hdom.
        assert (Hx0 : Str.lower (Str.strip x) = "")
          by (destruct (Str.lower (Str.strip x)); [reflexivity | discriminate]).
        split.
        -- intros [H|(Hn & x' & r' & H & Hx)]; [auto |].
           right. split; [exact Hn |]. exists x', r'.
           split; [now apply list_elem_of_further | exact Hx].
        -- intros [H|(Hn & x' & r' & H & Hx)]; [auto |].
           apply elem_of_cons in H as [[= -> ->]|H]; [congruence |].
           right. eauto.
Qed.

(** X8. When [domain] is the first column of the snapshot and occurs only
    there, loading never fails, whatever the length of the records: blank
    records and records whose trimmed, lower-cased first field is empty
    are skipped, and the domains of the loaded cache are exactly the other
    trimmed, lower-cased first fields. *)
Theorem load_first_column_total (p text : string) (rest : list string)
        (records : list (list string)) (w : World) :
  Str.truthy p = true ->
  files w !! p = Some text ->
  csv_parse text = ("domain" :: rest) :: records ->
  "domain" ∉ rest ->
  exists w' cache,
    _load_domain_cache (Some p) w = (w', inr cache)
    /\ forall d, is_Some (cache !! d) <->
                 d <> "" /\ exists x r, (x :: r) ∈ records
                                        /\ Str.lower (Str.strip x) = d.
Proof.
  intros Hp Hf Hparse Hk.
  rewrite (load_run p w text _ _ Hp Hf Hparse).
  match goal with |- context [foldM load_row ∅ _ ?w1] =>
    destruct (load_rows_first_column rest records Hk ∅ w1) as (c' & Hrun & Hdom)
  end.
  do 2 eexists. split; [exact Hrun |]. intros d. rewrite Hdom. split.
  - intros [[f H]|H]; [rewrite lookup_empty in H; discriminate | exact H].
  - auto.
Qed.

End Loader.

(** ** What a run adds *)

Section MoreResolution.

Context {E : Env}.

Lemma bit_cases b : bit b = "0" \/ bit b = "1".
Proof. destruct b; auto. Qed.

(** One resolution: the rows it appends to the output file and the entry
    it adds to the cache. *)
Lemma process_email_effect e cache wr w :
  exists w' c' new rows,
    _process_email e cache wr w = (w', inr c')
    /\ trace w' = trace w ++ new
    /\ (forall acc, foldl (record_step wr) acc new = acc ++ rows)
    /\ (if _is_valid_email e
        then exists row, rows = [row] /\ row_of_address e row
        else rows = [])
    /\ (c' = cache
        \/ exists d f stamp,
            _is_valid_email e = true /\ _get_domain e = Some d
            /\ cache !! d = None /\ c' = <[d := f]> cache
            /\ fact_ok f /\ checked_at f = Some stamp /\ stamp <> "").
Proof.
  destruct (_is_valid_email e) eqn:Hv.
  2:{ exists w, cache, [], []. rewrite process_email_invalid by assumption.
      split; [reflexivity |]. split; [now rewrite app_nil_r |].
      split; [intros acc; now rewrite app_nil_r |]. split; [reflexivity | auto]. }
  destruct (valid_email_domain e Hv) as [d Hd].
  destruct (cache !! d) as [f|] eqn:Hc.
  - pose proof (cache_hit_run e cache wr w d f Hv Hd Hc) as Hp.
    eexists. exists cache. eexists. eexists. split; [exact Hp |].
    split; [reflexivity |]. split; [| split; [| auto]].
    + intros acc. cbn [foldl record_step]. now rewrite decide_True.
    + eexists. split; [reflexivity |]. exists d. do 2 eexists.
      split; [exact Hd |]. split; [reflexivity |]. split; apply bit_cases.
  - destruct (process_email_miss e cache wr w d Hv Hd Hc)
      as (w1 & alive & w2 & mx & n1 & Hw & Ht1 & Hn1 & Hmx & Ht2 & Hmxf & Hp).
    eexists. eexists. eexists. eexists. split; [exact Hp |].
    split; [| split; [| split]].
    + unfold wrote. cbn [trace]. rewrite Ht2, Ht1.
      rewrite <- !app_assoc. reflexivity.
    + intros acc. destruct Hn1 as [-> | ->]; destruct alive;
        cbn [app foldl record_step]; now rewrite decide_True.
    + eexists. split; [reflexivity |]. exists d. do 2 eexists.
      split; [exact Hd |]. split; [reflexivity |]. split; apply bit_cases.
    + right. do 3 eexists. split; [reflexivity |]. split; [exact Hd |].
      split; [exact Hc |]. split; [reflexivity |]. split; [exact Hmxf |].
      split; [reflexivity | apply isoformat_nonempty].
Qed.

Lemma process_all_effect emails : forall cache wr w,
  exists w' c' new rows,
    process_all emails cache wr w = (w', inr c')
    /\ trace w' = trace w ++ new
    /\ (forall acc, foldl (record_step wr) acc new = acc ++ rows)
    /\ Forall2 row_of_address (List.filter _is_valid_email emails) rows
    /\ cache ⊆ c'
    /\ (forall d, is_Some (c' !! d) ->
                  is_Some (cache !! d)
                  \/ exists e, e ∈ emails /\ _is_valid_email e = true
                               /\ _get_domain e = Some d)
    /\ (forall d f, cache !! d = None -> c' !! d = Some f ->
                    fact_ok f
                    /\ exists stamp, checked_at f = Some stamp /\ stamp <> "")
    /\ (keys_normal cache -> keys_normal c').
Proof.
  induction emails as [|e emails IH]; intros cache wr w.
  - exists w, cache, [], []. split; [reflexivity |].
    split; [now rewrite app_nil_r |].
    split; [intros acc; now rewrite app_nil_r |].
    split; [constructor |]. split; [reflexivity |].
    split; [auto |]. split; [| auto]. intros d f H1 H2. congruence.
  - destruct (process_email_effect e cache wr w)
      as (w1 & c1 & n1 & r1 & Hp & Ht & Hf & Hrow & Hgrow).
    destruct (IH c1 wr w1)
      as (w2 & c2 & n2 & r2 & Hp2 & Ht2 & Hf2 & Hrows2 & Hsub2 & Hdom2 & Hnew2 & Hkeys2).
    exists w2, c2, (n1 ++ n2), (r1 ++ r2). rewrite process_all_cons, Hp.
    split; [exact Hp2 |]. split; [now rewrite Ht2, Ht, app_assoc |].
    split; [intros acc; now rewrite foldl_app, Hf, Hf2, app_assoc |].
    assert (Hsub1 : cache ⊆ c1).
    { destruct Hgrow as [->|(d & f & st & _ & _ & Hc & -> & _)];
        [reflexivity | now apply insert_subseteq]. }
    split; [| split; [etrans; eassumption | split; [| split]]].
    + cbn [List.filter]. destruct (_is_valid_email e).
      * destruct Hrow as (row & -> & Hrow). constructor; assumption.
      * subst r1. exact Hrows2.
    + intros d Hd. destruct (Hdom2 d Hd) as [H1|(e' & He' & Hv' & Hd')].
      * destruct Hgrow as [->|(d0 & f & st & Hv & Hd0 & Hc & -> & _)]; [auto |].
        destruct (decide (d0 = d)) as [<-|Hne].
        -- right. exists e. split; [apply list_elem_of_here | auto].
        -- rewrite lookup_insert_ne in H1 by assumption. auto.
      * right. exists e'. split; [now apply list_elem_of_further | auto].
    + intros d f Hnone Hf'.
      destruct (c1 !! d) as [f1|] eqn:H1; [| now apply (Hnew2 d f)].
      pose proof (lookup_weaken _ _ _ _ H1 Hsub2) as H2.
      rewrite Hf' in H2. injection H2 as ->.
      destruct Hgrow as [->|(d0 & f0 & st & _ & _ & Hc & -> & Hok & Hst & Hne)];
        [congruence |].
      destruct (decide (d0 = d)) as [<-|Hne'].
      * rewrite lookup_insert_eq in H1. injection H1 as <-. eauto.
      * rewrite lookup_insert_ne in H1 by assumption. congruence.
    + intros Hk. apply Hkeys2.
      destruct Hgrow as [->|(d0 & f0 & st & Hv & Hd0 & _ & -> & _)]; [exact Hk |].
      destruct (valid_domain_normal e Hv) as (d' & Hd' & H1 & H2 & H3 & _).
      rewrite Hd0 in Hd'. injection Hd' as <-.
      now apply keys_normal_insert.
Qed.

(** X9. A run writes exactly one output row per syntactically valid
    address, in the order of the input, and none for the others; each row
    carries the trimmed address, its domain and two flags that read [0] or
    [1]. The rows are appended to what the output file already held. *)
Theorem one_row_per_valid_address (emails : list string)
        (cache : gmap string DomainFact) (wr : string) (w : World) :
  exists w' cache' new rows,
    process_all emails cache wr w = (w', inr cache')
    /\ trace w' = trace w ++ new
    /\ (forall acc, foldl (record_step wr) acc new = acc ++ rows)
    /\ Forall2 row_of_address (List.filter _is_valid_email emails) rows.
Proof.
  destruct (process_all_effect emails cache wr w)
    as (w' & c' & new & rows & Hp & Ht & Hf & Hrows & _).
  exists w', c', new, rows. auto.
Qed.

(** X10. A run adds to the cache exactly the domains of the valid
    addresses that were not cached before, and changes no entry that was
    there. Every fact it adds has a non-empty time stamp and no mail
    exchanger unless its registration is alive. *)
Theorem cache_grows_by_valid_domains (emails : list string)
        (cache : gmap string DomainFact) (wr : string) (w : World) :
  exists w' cache',
    process_all emails cache wr w = (w', inr cache')
    /\ cache ⊆ cache'
    /\ (forall d, is_Some (cache' !! d) <->
                  is_Some (cache !! d)
                  \/ exists e, e ∈ emails /\ _is_valid_email e = true
                               /\ _get_domain e = Some d)
    /\ (forall d f, cache !! d = None -> cache' !! d = Some f ->
                    fact_ok f
                    /\ exists stamp, checked_at f = Some stamp /\ stamp <> "").
Proof.
  destruct (process_all_effect emails cache wr w)
    as (w' & c' & new & rows & Hp & _ & _ & _ & Hsub & Hdom & Hnew & _).
  destruct (process_all_run emails cache wr w)
    as (w'' & c'' & new' & Hp' & _ & _ & _ & Hin).
  rewrite Hp in Hp'. injection Hp' as <- <-.
  exists w', c'. split; [exact Hp |]. split; [exact Hsub |].
  split; [| exact Hnew].
  intros d. split; [apply Hdom |].
  intros [[f Hf]|(e & He & Hv & Hd)].
  - exists f. exact (lookup_weaken _ _ _ _ Hf Hsub).
  - exact (Hin e d He Hv Hd).
Qed.

(** X11. A run keeps the cache keys well formed: if every key of the cache
    it starts with is non-empty, lower-cased and free of white space at
    both ends, so is every key of the cache it ends with. *)
Theorem run_keeps_keys_normal (emails : list string)
        (cache : gmap string DomainFact) (wr : string) (w : World) :
  keys_normal cache ->
  exists w' cache',
    process_all emails cache wr w = (w', inr cache') /\ keys_normal cache'.
Proof.
  intros Hk.
  destruct (process_all_effect emails cache wr w)
    as (w' & c' & new & rows & Hp & _ & _ & _ & _ & _ & _ & Hkeys).
  exists w', c'. auto.
Qed.

End MoreResolution.

(** ** The driver on a text file *)

Section TextRun.

Context {E : Env}.

Lemma open_read_run p w text :
  files w !! p = Some text ->
  open_read p w
  = ({| tick := tick w; trace := trace w ++ [EvOpen p "r"]; files := files w |},
     inr text).
Proof.
  intros Hf. unfold open_read, bind, emit, get_files, ret. cbn [files].
  now rewrite Hf.
Qed.

(** In the model, where opening the output file cannot fail, the driver
    on a text file without a cache returns, and the output file holds the
    header and one row per valid line. *)
Lemma txt_run_model (emails_file output_file text : string)
      (w : World) :
  Str.rsplit1_last "." (Str.lower emails_file) = "txt" ->
  emails_file <> output_file ->
  files w !! emails_file = Some text ->
  exists w' rows,
    validate_emails emails_file output_file None w = (w', inr tt)
    /\ file_records output_file (trace w') = output_fieldnames :: rows
    /\ Forall2 row_of_address
         (List.filter _is_valid_email (Str.strip <$> text_lines text)) rows.
Proof.
  intros Hext Hne Hf.
  assert (Hvalid : _is_valid_extension emails_file = true).
  { unfold _is_valid_extension. rewrite Hext. vm_compute. reflexivity. }
  unfold validate_emails. rewrite Hvalid, Hext. cbn [negb].
  unfold bind at 1. cbn [_load_domain_cache ret].
  set (pre := if Str.truthy (os_path_dirname output_file)
              then os_makedirs (os_path_dirname output_file) else ret tt).
  assert (Hpre : exists w0 n0,
             pre w = (w0, inr tt) /\ trace w0 = trace w ++ n0
             /\ (forall acc, foldl (record_step output_file) acc n0 = acc)
             /\ files w0 = files w).
  { unfold pre. destruct (Str.truthy (os_path_dirname output_file)).
    - do 2 eexists. split; [reflexivity |]. split; [reflexivity |].
      split; reflexivity.
    - exists w, []. split; [reflexivity |]. split; [now rewrite app_nil_r |].
      split; reflexivity. }
  destruct Hpre as (w0 & n0 & Hpre & Ht0 & Hq0 & Hf0).
  unfold bind at 1. rewrite Hpre.
  unfold bind at 1. rewrite open_write_run.
  unfold bind at 1. rewrite writerow_run.
  rewrite bool_decide_eq_false_2 by discriminate.
  rewrite bool_decide_eq_true_2 by reflexivity.
  unfold bind at 1, txt_branch. unfold bind at 1.
  rewrite (open_read_run _ _ text).
  2:{ cbn [wrote files]. rewrite !lookup_insert_ne by congruence.
      now rewrite Hf0. }
  match goal with |- context [process_all ?l ?c ?wr ?w1] =>
    destruct (process_all_effect l c wr w1)
      as (w2 & c2 & new & rows & Hp & Ht & Hrec & Hrows & _)
  end.
  rewrite Hp. cbn [_save_domain_cache ret].
  exists w2, rows. split; [reflexivity |]. split; [| exact Hrows].
  rewrite Ht. cbn [wrote trace]. rewrite Ht0. unfold file_records.
  rewrite !foldl_app, Hrec, Hq0. cbn [foldl record_step].
  rewrite (decide_False (P := emails_file = output_file /\ "r" = "w"))
    by (intros [? ?]; congruence).
  rewrite (decide_True (P := output_file = output_file)) by reflexivity.
  rewrite (decide_True (P := output_file = output_file /\ "w" = "w"))
    by (split; reflexivity).
  reflexivity.
Qed.

(** X12. The driver works without a cache. For an input whose extension
    is [txt], which exists and is not the output file, and with the cache
    path unset: whenever [validate_emails] returns normally, the output
    file holds the header followed by one row for each line that, trimmed,
    is a valid address, in the order of the lines. *)
Theorem txt_run_without_cache (emails_file output_file text : string)
        (w w' : World) :
  Str.rsplit1_last "." (Str.lower emails_file) = "txt" ->
  emails_file <> output_file ->
  files w !! emails_file = Some text ->
  validate_emails emails_file output_file None w = (w', inr tt) ->
  exists rows,
    file_records output_file (trace w') = output_fieldnames :: rows
    /\ Forall2 row_of_address
         (List.filter _is_valid_email (Str.strip <$> text_lines text)) rows.
Proof.
  intros Hext Hne Hf Hrun.
  destruct (txt_run_model emails_file output_file text w Hext Hne Hf)
    as (w'' & rows & Hrun' & Hrec & Hrows).
  rewrite Hrun in Hrun'. injection Hrun' as <-.
  exists rows. auto.
Qed.

End TextRun.

(** ** Decoding a snapshot in the layout the program writes *)

Section Decode.

Context {E : Env}.

Lemma foldM_app {A B} (f : B -> A -> M B) l1 l2 b w :
  foldM f b (l1 ++ l2) w
  = match foldM f b l1 w with
    | (w1, inr b1) => foldM f b1 l2 w1
    | (w1, inl x) => (w1, inl x)
    end.
Proof.
  revert b w. induction l1 as [|a l1 IH]; intros b w; [reflexivity |].
  cbn [app foldM]. unfold bind.
  destruct (f b a w) as [w1 [x|b1]]; [reflexivity | apply IH].
Qed.

Lemma load_rows_keep rest d post :
  "domain" ∉ rest ->
  (forall x r, (x :: r) ∈ post -> Str.lower (Str.strip x) <> d) ->
  forall cache w w' cache',
    foldM load_row cache
      (dictreader_row ("domain" :: rest) <$> filter (fun r => r ≠ []) post) w
    = (w', inr cache') ->
    cache' !! d = cache !! d.
Proof.
  intros Hk. induction post as [|rec post IH]; intros Hpost cache w w' cache'.
  - intros [= _ <-]. reflexivity.
  - assert (Hpost' : forall x r, (x :: r) ∈ post -> Str.lower (Str.strip x) <> d)
      by (intros x r H; apply (Hpost x r); now apply list_elem_of_further).
    destruct rec as [|x r].
    + rewrite filter_cons_False by (intros H; now apply H). now apply IH.
    + rewrite filter_cons_True by discriminate.
      cbn [fmap list_fmap foldM]. unfold bind.
      destruct (load_row_first_column rest x r cache w Hk) as [f ->].
      intros Hrun. rewrite (IH Hpost' _ _ _ _ Hrun).
      destruct (Str.truthy (Str.lower (Str.strip x))); [| reflexivity].
      apply lookup_insert_ne. apply (Hpost x r), list_elem_of_here.
Qed.

Lemma load_row_decode cache x a m t w :
  Str.lower (Str.strip x) <> "" ->
  load_row cache (dictreader_row cache_fieldnames [x; a; m; t]) w
  = (w, inr (<[Str.lower (Str.strip x) :=
                 {| whois_alive := bool_decide (a = "1");
                    mx_exists := bool_decide (m = "1");
                    checked_at := Some t |}]> cache)).
Proof.
  intros Hne.
  change (dictreader_row cache_fieldnames [x; a; m; t])
    with [(Some "domain", CStr x); (Some "whois_alive", CStr a);
          (Some "mx_exists", CStr m); (Some "checked_at", CStr t)].
  unfold load_row.
  change (dict_get "domain" (CStr "") _) with (CStr x). cbv beta iota.
  destruct (Str.lower (Str.strip x)) as [|c s] eqn:Hx; [contradiction |].
  reflexivity.
Qed.

(** X13. In a snapshot with the header the program writes, the fact loaded
    for a domain is decoded from the last record of that domain: its flags
    are true exactly when the field is the text [1], and its time stamp is
    the fourth field as it stands. Records before it, of whatever length,
    and later records of other domains do not matter. *)
Theorem load_last_record_wins (p text : string)
        (pre post : list (list string)) (x a m t : string) (w : World) :
  Str.truthy p = true ->
  files w !! p = Some text ->
  csv_parse text = cache_fieldnames :: pre ++ [x; a; m; t] :: post ->
  Str.lower (Str.strip x) <> "" ->
  (forall x' r', (x' :: r') ∈ post ->
                 Str.lower (Str.strip x') <> Str.lower (Str.strip x)) ->
  exists w' cache,
    _load_domain_cache (Some p) w = (w', inr cache)
    /\ cache !! Str.lower (Str.strip x)
       = Some {| whois_alive := bool_decide (a = "1");
                 mx_exists := bool_decide (m = "1");
                 checked_at := Some t |}.
Proof.
  intros Hp Hf Hparse Hne Hpost.
  assert (Hk : "domain" ∉ ["whois_alive"; "mx_exists"; "checked_at"]).
  { rewrite !not_elem_of_cons. repeat split; try discriminate.
    apply not_elem_of_nil. }
  rewrite (load_run p w text _ _ Hp Hf Hparse).
  rewrite filter_app, fmap_app, foldM_app.
  match goal with |- context [foldM load_row ∅ _ ?w1] => set (w1' := w1) end.
  destruct (load_rows_first_column _ pre Hk ∅ w1') as (c1 & Hrun1 & _).
  change ("domain" :: ["whois_alive"; "mx_exists"; "checked_at"])
    with cache_fieldnames in Hrun1.
  rewrite Hrun1. rewrite filter_cons_True by discriminate.
  cbn [fmap list_fmap foldM]. unfold bind.
  rewrite (load_row_decode c1 x a m t w1' Hne).
  match goal with |- context [foldM load_row ?c _ w1'] =>
    destruct (load_rows_first_column _ post Hk c w1') as (c2 & Hrun2 & _);
    pose proof (load_rows_keep _ _ post Hk Hpost c w1' w1' c2 Hrun2) as Hkeep
  end.
  change ("domain" :: ["whois_alive"; "mx_exists"; "checked_at"])
    with cache_fieldnames in Hrun2.
  exists w1', c2. split; [exact Hrun2 |].
  rewrite Hkeep. apply lookup_insert_eq.
Qed.

End Decode.

(** ** The driver on a delimited file *)

Section DelimitedRun.

Context {E : Env}.

Lemma zip_keys_NoDup (fn r : list string) : NoDup fn -> NoDup (zip fn r).*1.
Proof.
  revert r. induction fn as [|k fn IH]; intros r Hnd; [constructor |].
  destruct r as [|x r]; [constructor |].
  apply NoDup_cons in Hnd as [Hk Hnd]. cbn. apply NoDup_cons. split; [| auto].
  intros H. apply list_elem_of_fmap in H as ([k' v] & -> & H).
  apply elem_of_zip_l in H. contradiction.
Qed.

Lemma zip_lookup (fn r : list string) i k x :
  fn !! i = Some k -> r !! i = Some x -> (k, x) ∈ zip fn r.
Proof.
  revert fn r. induction i as [|i IH]; intros [|k0 fn] [|x0 r]; try discriminate.
  - intros [= ->] [= ->]. apply list_elem_of_here.
  - intros H1 H2. cbn. apply list_elem_of_further. now apply IH.
Qed.

Lemma dict_get_foldl_zip_in k x dflt l : forall d,
  NoDup l.*1 -> (k, x) ∈ l ->
  dict_get k dflt (foldl (fun d (kv : string * string) =>
                            dict_set (Some kv.1) (CStr kv.2) d) d l)
  = CStr x.
Proof.
  induction l as [|[k0 v0] l IH]; intros d Hnd Hin.
  - apply elem_of_nil in Hin. contradiction.
  - cbn in Hnd. apply NoDup_cons in Hnd as [Hk Hnd]. cbn [foldl].
    apply elem_of_cons in Hin as [[= -> ->]|Hin]; [| now apply IH].
    rewrite dict_get_foldl_zip by assumption. rewrite dict_get_set. cbn.
    destruct (decide (Some k0 = Some k0)); [reflexivity | congruence].
Qed.

(** The value of a row dictionary under the name of column [i], when the
    record reaches that column. *)
Lemma dictreader_row_column fn r i k x dflt :
  NoDup fn -> fn !! i = Some k -> r !! i = Some x ->
  dict_get k dflt (dictreader_row fn r) = CStr x.
Proof.
  intros Hnd Hk Hx. unfold dictreader_row.
  assert (Hbase : dict_get k dflt
                    (foldl (fun d (kv : string * string) =>
                              dict_set (Some kv.1) (CStr kv.2) d) []
                           (zip fn r)) = CStr x).
  { apply dict_get_foldl_zip_in; [now apply zip_keys_NoDup |].
    now apply (zip_lookup fn r i). }
  destruct (length fn <? length r)%nat.
  - rewrite dict_get_set.
    destruct (decide (Some k = None)); [discriminate | exact Hbase].
  - rewrite dict_get_foldl_restval; [exact Hbase |].
    intros H. apply list_elem_of_lookup in H as [j Hj].
    rewrite lookup_drop in Hj.
    pose proof (NoDup_lookup _ _ _ _ Hnd Hk Hj) as Hij.
    apply lookup_lt_Some in Hx. lia.
Qed.

Lemma dict_get_foldl_restval_in k dflt l : forall d,
  k ∈ l ->
  dict_get k dflt (foldl (fun d k => dict_set (Some k) CNone d) d l) = CNone.
Proof.
  induction l as [|k0 l IH]; intros d Hin.
  - apply elem_of_nil in Hin. contradiction.
  - cbn [foldl]. destruct (decide (k ∈ l)) as [Hl|Hl]; [now apply IH |].
    apply elem_of_cons in Hin as [->|Hin]; [| contradiction].
    rewrite dict_get_foldl_restval by assumption. rewrite dict_get_set.
    destruct (decide (Some k0 = Some k0)); [reflexivity | congruence].
Qed.

(** The value under the name of column [i] is [None] when the record stops
    before that column. *)
Lemma dictreader_row_short fn r i k dflt :
  fn !! i = Some k -> (length r <= i)%nat ->
  dict_get k dflt (dictreader_row fn r) = CNone.
Proof.
  intros Hk Hlen. unfold dictreader_row.
  pose proof (lookup_lt_Some _ _ _ Hk) as Hi.
  replace (length fn <? length r)%nat with false
    by (symmetry; apply Nat.ltb_ge; lia).
  apply dict_get_foldl_restval_in.
  apply list_elem_of_lookup. exists (i - length r)%nat.
  rewrite lookup_drop. replace (length r + (i - length r))%nat with i by lia.
  exact Hk.
Qed.

Lemma dict_set_head k' v k0 v0 (d : rowdict) :
  k' <> k0 -> dict_set k' v ((k0, v0) :: d) = (k0, v0) :: dict_set k' v d.
Proof. intros H. cbn. now rewrite decide_False. Qed.

Lemma foldl_zip_head k0 v0 l : forall d,
  k0 ∉ l.*1 ->
  exists tl, foldl (fun d (kv : string * string) =>
                      dict_set (Some kv.1) (CStr kv.2) d)
                   ((Some k0, v0) :: d) l = (Some k0, v0) :: tl.
Proof.
  induction l as [|[k v] l IH]; intros d Hk; cbn [foldl]; [eauto |].
  rewrite dict_set_head.
  - apply IH. intros H. apply Hk. cbn. now apply list_elem_of_further.
  - cbn. intros [= ->]. apply Hk. cbn. apply list_elem_of_here.
Qed.

Lemma foldl_restval_head k0 v0 l : forall d,
  k0 ∉ l ->
  exists tl, foldl (fun d k => dict_set (Some k) CNone d)
                   ((Some k0, v0) :: d) l = (Some k0, v0) :: tl.
Proof.
  induction l as [|k l IH]; intros d Hk; cbn [foldl]; [eauto |].
  rewrite dict_set_head.
  - apply IH. intros H. apply Hk. now apply list_elem_of_further.
  - intros [= ->]. apply Hk. apply list_elem_of_here.
Qed.

(** The first entry of a row dictionary is the first field under the first
    name, when that name is not used again. *)
Lemma dictreader_row_head k rest x r :
  k ∉ rest ->
  exists tl, dictreader_row (k :: rest) (x :: r) = (Some k, CStr x) :: tl.
Proof.
  intros Hk. unfold dictreader_row. cbn [zip zip_with foldl dict_set length drop].
  assert (Hz : k ∉ (zip rest r).*1).
  { intros H. apply list_elem_of_fmap in H as ([k' v] & -> & H).
    apply elem_of_zip_l in H. contradiction. }
  cbn [fst snd].
  destruct (foldl_zip_head k (CStr x) (zip rest r) [] Hz) as [tl ->].
  destruct (S (length rest) <? S (length r))%nat.
  - rewrite dict_set_head by discriminate. eauto.
  - apply foldl_restval_head. intros H. apply Hk.
    exact (subseteq_drop _ _ _ H).
Qed.

(** A record that reaches the address column is resolved as its address. *)
Lemma csv_step_ok fn i r x output_file cache w :
  NoDup fn -> address_column fn i -> r !! i = Some x ->
  csv_step fn output_file cache (dictreader_row fn r) w
  = _process_email (Str.strip x) cache output_file w.
Proof.
  intros Hnd [Hcol|(Hno & -> & Hfn)] Hx; unfold csv_step.
  - assert (Hin : "email" ∈ fn) by (apply list_elem_of_lookup; eauto).
    pose proof (dictreader_row_keys fn r "email" Hin) as Hkey.
    pose proof (dictreader_row_column fn r i "email" x CNone Hnd Hcol Hx)
      as Hget.
    rewrite (bool_decide_eq_true_2 _ Hin).
    remember (dictreader_row fn r) as row eqn:Hrow.
    destruct row as [|first tl].
    { apply elem_of_nil in Hkey. contradiction. }
    unfold bind at 1 2, dict_index.
    rewrite (bool_decide_eq_true_2 _ Hkey), Hget.
    reflexivity.
  - rewrite (bool_decide_eq_false_2 _ Hno).
    destruct fn as [|k rest]; [contradiction |].
    destruct r as [|x0 r]; [discriminate |]. injection Hx as ->.
    apply NoDup_cons in Hnd as [Hk _].
    destruct (dictreader_row_head k rest x r Hk) as [tl ->].
    reflexivity.
Qed.

(** A record that stops before the [email] column aborts the loop. *)
Lemma csv_step_short fn i r output_file cache w :
  fn !! i = Some "email" -> r <> [] -> (length r <= i)%nat ->
  csv_step fn output_file cache (dictreader_row fn r) w
  = (w, inl AttributeError).
Proof.
  intros Hcol Hr Hlen. unfold csv_step.
  assert (Hin : "email" ∈ fn) by (apply list_elem_of_lookup; eauto).
  pose proof (dictreader_row_keys fn r "email" Hin) as Hkey.
  pose proof (dictreader_row_short fn r i "email" CNone Hcol Hlen) as Hget.
  rewrite (bool_decide_eq_true_2 _ Hin).
  remember (dictreader_row fn r) as row eqn:Hrow.
  destruct row as [|first tl].
  { apply elem_of_nil in Hkey. contradiction. }
  unfold bind at 1 2, dict_index.
  rewrite (bool_decide_eq_true_2 _ Hkey), Hget.
  reflexivity.
Qed.

Lemma csv_loop_ok fn i output_file records :
  NoDup fn -> address_column fn i ->
  (forall r, r ∈ records -> r <> [] -> (i < length r)%nat) ->
  forall cache w,
    foldM (csv_step fn output_file) cache
          (dictreader_row fn <$> filter (fun r => r ≠ []) records) w
    = process_all (addresses_of i records) cache output_file w.
Proof.
  intros Hnd Hcol. unfold addresses_of.
  induction records as [|r records IH]; intros Hlen cache w; [reflexivity |].
  assert (Hlen' : forall r', r' ∈ records -> r' <> [] -> (i < length r')%nat)
    by (intros r' H; apply Hlen; now apply list_elem_of_further).
  destruct (decide (r = [])) as [->|Hr].
  - rewrite filter_cons_False by (intros H; now apply H). now apply IH.
  - rewrite filter_cons_True by assumption.
    destruct (lookup_lt_is_Some_2 r i (Hlen r (list_elem_of_here _ _) Hr))
      as [x Hx].
    cbn [fmap list_fmap omap list_omap foldM]. rewrite Hx. cbn [fmap option_fmap option_map].
    rewrite process_all_cons. unfold bind.
    rewrite (csv_step_ok fn i r x output_file cache w Hnd Hcol Hx).
    destruct (_process_email (Str.strip x) cache output_file w) as [w1 [e|c1]];
      [reflexivity | now apply IH].
Qed.

Lemma csv_branch_unfold emails_file output_file cache w text fn records :
  files w !! emails_file = Some text ->
  csv_parse text = fn :: records ->
  csv_branch emails_file output_file cache w
  = foldM (csv_step fn output_file) cache
          (dictreader_row fn <$> filter (fun r => r ≠ []) records)
          {| tick := tick w; trace := trace w ++ [EvOpen emails_file "r"];
             files := files w |}.
Proof.
  intros Hf Hparse. unfold csv_branch, bind at 1.
  rewrite (open_read_run _ _ text Hf). unfold DictReader. rewrite Hparse.
  reflexivity.
Qed.

(** The driver up to the reading branch, once the cache is loaded. *)
Lemma driver_prelude emails_file output_file cached w w0 c0 n0 :
  _is_valid_extension emails_file = true ->
  _load_domain_cache cached w = (w0, inr c0) ->
  trace w0 = trace w ++ n0 ->
  (forall acc, foldl (record_step output_file) acc n0 = acc) ->
  exists w3,
    (forall q, q <> output_file -> files w3 !! q = files w0 !! q)
    /\ (forall tr, file_records output_file (trace w3 ++ tr)
                   = foldl (record_step output_file) [output_fieldnames] tr)
    /\ validate_emails emails_file output_file cached w
       = match (if bool_decide (Str.rsplit1_last "." (Str.lower emails_file)
                                = "csv")
                then csv_branch emails_file output_file c0
                else if bool_decide (Str.rsplit1_last "." (Str.lower emails_file)
                                     = "txt")
                then txt_branch emails_file output_file c0
                else raise (ValueError "Поддерживаются только .csv и .txt")) w3
         with
         | (w', inr c) => _save_domain_cache cached c w'
         | (w', inl x) => (w', inl x)
         end.
Proof.
  intros Hvalid Hload Ht0 Hq0.
  set (pre := if Str.truthy (os_path_dirname output_file)
              then os_makedirs (os_path_dirname output_file) else ret tt).
  assert (Hpre : exists w1 n1,
             pre w0 = (w1, inr tt) /\ trace w1 = trace w0 ++ n1
             /\ (forall acc, foldl (record_step output_file) acc n1 = acc)
             /\ files w1 = files w0).
  { unfold pre. destruct (Str.truthy (os_path_dirname output_file)).
    - do 2 eexists. split; [reflexivity |]. split; [reflexivity |].
      split; reflexivity.
    - exists w0, []. split; [reflexivity |]. split; [now rewrite app_nil_r |].
      split; reflexivity. }
  destruct Hpre as (w1 & n1 & Hpre & Ht1 & Hq1 & Hf1).
  exists (wrote output_file output_fieldnames
            {| tick := tick w1; trace := trace w1 ++ [EvOpen output_file "w"];
               files := <[output_file := ""]> (files w1) |}).
  split; [| split].
  - intros q Hq. cbn [wrote files]. rewrite !lookup_insert_ne by congruence.
    now rewrite Hf1.
  - intros tr. cbn [wrote trace]. rewrite Ht1, Ht0. unfold file_records.
    rewrite !foldl_app, Hq0, Hq1. cbn [foldl record_step].
    rewrite (decide_True (P := output_file = output_file)) by reflexivity.
    rewrite (decide_True (P := output_file = output_file /\ "w" = "w"))
      by (split; reflexivity).
    reflexivity.
  - unfold validate_emails. rewrite Hvalid. cbn [negb].
    unfold bind at 1. rewrite Hload.
    unfold bind at 1. fold pre. rewrite Hpre.
    unfold bind at 1. rewrite open_write_run.
    unfold bind at 1. rewrite writerow_run.
    unfold bind at 1. reflexivity.
Qed.

Lemma csv_extension_valid emails_file :
  Str.rsplit1_last "." (Str.lower emails_file) = "csv" ->
  _is_valid_extension emails_file = true.
Proof.
  intros Hext. unfold _is_valid_extension. rewrite Hext. vm_compute. reflexivity.
Qed.

(** In the model, where opening the output file cannot fail, the driver
    on a delimited file without a cache returns, and the output file holds
    the header and one row per valid address of the address column. *)
Lemma csv_run_model (emails_file output_file text : string)
      (fn : list string) (records : list (list string)) (i : nat)
      (w : World) :
  Str.rsplit1_last "." (Str.lower emails_file) = "csv" ->
  emails_file <> output_file ->
  files w !! emails_file = Some text ->
  csv_parse text = fn :: records ->
  NoDup fn ->
  address_column fn i ->
  (forall r, r ∈ records -> r <> [] -> (i < length r)%nat) ->
  exists w' rows,
    validate_emails emails_file output_file None w = (w', inr tt)
    /\ file_records output_file (trace w') = output_fieldnames :: rows
    /\ Forall2 row_of_address
         (List.filter _is_valid_email (addresses_of i records)) rows.
Proof.
  intros Hext Hne Hf Hparse Hnd Hcol Hlen.
  destruct (driver_prelude emails_file output_file None w w ∅ []
              (csv_extension_valid _ Hext) eq_refl
              (eq_sym (app_nil_r _)) (fun acc => eq_refl))
    as (w3 & Hfiles & Hrec & ->).
  rewrite Hext. rewrite bool_decide_eq_true_2 by reflexivity.
  rewrite (csv_branch_unfold _ _ _ _ text fn records)
    by (first [exact Hparse | rewrite Hfiles by congruence; exact Hf]).
  rewrite (csv_loop_ok fn i output_file records Hnd Hcol Hlen).
  match goal with |- context [process_all ?l ?c ?wr ?w1] =>
    destruct (process_all_effect l c wr w1)
      as (w2 & c2 & new & rows & Hp & Ht & Hrows & Hall & _)
  end.
  rewrite Hp. exists w2, rows. split; [reflexivity |]. split; [| exact Hall].
  rewrite Ht. cbn [trace]. rewrite <- app_assoc, Hrec.
  cbn [app foldl record_step].
  rewrite (decide_False (P := emails_file = output_file /\ "r" = "w"))
    by (intros [? ?]; congruence).
  apply Hrows.
Qed.

(** X14. The driver on a delimited file, without a cache. Let the input
    have the extension [csv], exist and not be the output file; let its
    header have no repeated name, let the address column be the one named
    [email], or the first one when no column has that name, and let every
    record that is not blank reach that column. Then, whenever
    [validate_emails] returns normally, the output file holds the header
    followed by one row for each valid address of that column, in the
    order of the records; blank records are passed over. *)
Theorem csv_run_without_cache (emails_file output_file text : string)
        (fn : list string) (records : list (list string)) (i : nat)
        (w w' : World) :
  Str.rsplit1_last "." (Str.lower emails_file) = "csv" ->
  emails_file <> output_file ->
  files w !! emails_file = Some text ->
  csv_parse text = fn :: records ->
  NoDup fn ->
  address_column fn i ->
  (forall r, r ∈ records -> r <> [] -> (i < length r)%nat) ->
  validate_emails emails_file output_file None w = (w', inr tt) ->
  exists rows,
    file_records output_file (trace w') = output_fieldnames :: rows
    /\ Forall2 row_of_address
         (List.filter _is_valid_email (addresses_of i records)) rows.
Proof.
  intros Hext Hne Hf Hparse Hnd Hcol Hlen Hrun.
  destruct (csv_run_model emails_file output_file text fn records i w
              Hext Hne Hf Hparse Hnd Hcol Hlen)
    as (w'' & rows & Hrun' & Hrec & Hrows).
  rewrite Hrun in Hrun'. injection Hrun' as <-.
  exists rows. auto.
Qed.

(** In the model, where opening the output file cannot fail, a record that
    stops before the [email] column ends the run with the attribute error
    of [None.strip()], the rows of the records before it in the output
    file and the cache file still absent. *)
Lemma short_record_model (emails_file output_file p text : string)
      (fn : list string) (pre post : list (list string))
      (short : list string) (i : nat) (w : World) :
  Str.rsplit1_last "." (Str.lower emails_file) = "csv" ->
  emails_file <> output_file ->
  p <> output_file ->
  Str.truthy p = true ->
  files w !! p = None ->
  files w !! emails_file = Some text ->
  csv_parse text = fn :: pre ++ short :: post ->
  NoDup fn ->
  fn !! i = Some "email" ->
  (forall r, r ∈ pre -> r <> [] -> (i < length r)%nat) ->
  short <> [] ->
  (length short <= i)%nat ->
  exists w' rows,
    validate_emails emails_file output_file (Some p) w
    = (w', inl AttributeError)
    /\ files w' !! p = None
    /\ file_records output_file (trace w') = output_fieldnames :: rows
    /\ Forall2 row_of_address
         (List.filter _is_valid_email (addresses_of i pre)) rows.
Proof.
  intros Hext Hne Hp Htruthy Hnone Hf Hparse Hnd Hcol Hlen Hshort Hlen'.
  pose proof (load_cases p w Htruthy) as Hload. rewrite Hnone in Hload.
  destruct (driver_prelude emails_file output_file (Some p) w _ ∅ [EvExists p]
              (csv_extension_valid _ Hext) Hload eq_refl (fun acc => eq_refl))
    as (w3 & Hfiles & Hrec & ->).
  cbn [files] in Hfiles.
  rewrite Hext. rewrite bool_decide_eq_true_2 by reflexivity.
  rewrite (csv_branch_unfold _ _ _ _ text fn (pre ++ short :: post))
    by (first [exact Hparse | rewrite Hfiles by congruence; exact Hf]).
  rewrite filter_app, fmap_app, foldM_app.
  rewrite (csv_loop_ok fn i output_file pre Hnd (or_introl Hcol) Hlen).
  match goal with |- context [process_all ?l ?c ?wr ?w1] =>
    destruct (process_all_effect l c wr w1)
      as (w2 & c2 & new & rows & Hrun & Ht & Hrows & Hall & _);
    pose proof (process_all_touches (fun q => q = output_file) l wr eq_refl
                  c w1 p Hp) as Hframe
  end.
  rewrite Hrun in Hframe |- *. cbn [fst files] in Hframe.
  rewrite filter_cons_True by assumption.
  cbn [fmap list_fmap foldM]. unfold bind.
  rewrite (csv_step_short fn i short output_file c2 w2 Hcol Hshort Hlen').
  exists w2, rows. split; [reflexivity |].
  split; [now rewrite Hframe, Hfiles by assumption |].
  split; [| exact Hall].
  rewrite Ht. cbn [trace]. rewrite <- app_assoc, Hrec.
  cbn [app foldl record_step].
  rewrite (decide_False (P := emails_file = output_file /\ "r" = "w"))
    by (intros [? ?]; congruence).
  apply Hrows.
Qed.

(** X15. A record that stops before the [email] column aborts the run.
    The step of the loop at such a record raises the attribute error of
    [None.strip()] at once, whatever the cache and the world. And for an
    input with the extension [csv] that is not the output file, whose
    header has no repeated name and has the column [email], and a cache
    path that is usable, is not the output file and names no file yet: if
    some record that is not blank stops before the [email] column while
    every non-blank record before it reaches that column, then
    [validate_emails] does not return normally and the cache is not
    saved: the cache file is still absent, so the lookups made so far are
    lost. *)
Theorem short_record_aborts_run (emails_file output_file p text : string)
        (fn : list string) (pre post : list (list string))
        (short : list string) (i : nat) (w : World) :
  Str.rsplit1_last "." (Str.lower emails_file) = "csv" ->
  emails_file <> output_file ->
  p <> output_file ->
  Str.truthy p = true ->
  files w !! p = None ->
  files w !! emails_file = Some text ->
  csv_parse text = fn :: pre ++ short :: post ->
  NoDup fn ->
  fn !! i = Some "email" ->
  (forall r, r ∈ pre -> r <> [] -> (i < length r)%nat) ->
  short <> [] ->
  (length short <= i)%nat ->
  (forall cache w0,
      csv_step fn output_file cache (dictreader_row fn short) w0
      = (w0, inl AttributeError))
  /\ (validate_emails emails_file output_file (Some p) w).2 <> inr tt
  /\ files (validate_emails emails_file output_file (Some p) w).1 !! p = None.
Proof.
  intros Hext Hne Hp Htruthy Hnone Hf Hparse Hnd Hcol Hlen Hshort Hlen'.
  split.
  { intros cache w0. now apply (csv_step_short fn i). }
  destruct (short_record_model emails_file output_file p text fn pre post
              short i w Hext Hne Hp Htruthy Hnone Hf Hparse Hnd Hcol Hlen
              Hshort Hlen')
    as (w' & rows & -> & Hfile & _).
  split; [discriminate | exact Hfile].
Qed.

End DelimitedRun.

(** ** The invariant of the facts, by where a fact comes from *)

Section Provenance.

Context {E : Env}.

Lemma foldM_invariant_Forall {A B} (P : B -> Prop) (Q : A -> Prop)
      (f : B -> A -> M B) l :
  (forall b a w w' b', P b -> Q a -> f b a w = (w', inr b') -> P b') ->
  Forall Q l ->
  forall b w w' b', P b -> foldM f b l w = (w', inr b') -> P b'.
Proof.
  intros Hf Hl. induction Hl as [|a l Ha Hl IH]; intros b w w' b' Hb;
    cbn [foldM].
  - intros [= _ <-]. exact Hb.
  - unfold bind. destruct (f b a w) as [w1 [x|b1]] eqn:H1; [discriminate |].
    apply IH. exact (Hf _ _ _ _ _ Hb Ha H1).
Qed.

Lemma cell_is_true c s : cell_is c s = true <-> c = CStr s.
Proof.
  destruct c as [x| |l]; cbn; [| split; discriminate ..].
  rewrite bool_decide_eq_true. split; congruence.
Qed.

(** The loader copies the flags of a record; a sound record gives a sound
    fact. *)
Lemma load_row_sound cache row w w' cache' :
  cache_ok cache -> record_ok row ->
  load_row cache row w = (w', inr cache') -> cache_ok cache'.
Proof.
  intros Hok Hrec. unfold load_row.
  destruct (dict_get "domain" (CStr "") row) as [s| |l]; [| discriminate ..].
  destruct (negb (Str.truthy _)); intros [= _ <-]; [exact Hok |].
  intros d f Hf. destruct (decide (Str.lower (Str.strip s) = d)) as [<-|Hne].
  - rewrite lookup_insert_eq in Hf. injection Hf as <-.
    unfold fact_ok. cbn [whois_alive mx_exists]. intros Ha.
    destruct (cell_is (dict_get "mx_exists" (CStr "0") row) "1") eqn:Hm;
      [| reflexivity].
    apply cell_is_true, Hrec, cell_is_true in Hm. congruence.
  - rewrite lookup_insert_ne in Hf by assumption. exact (Hok d f Hf).
Qed.

Lemma load_sound path w w0 cache0 :
  _load_domain_cache path w = (w0, inr cache0) ->
  snapshot_ok path w -> cache_ok cache0.
Proof.
  intros Hload Hsnap. destruct path as [p|].
  2:{ injection Hload as _ <-. apply cache_ok_empty. }
  destruct (Str.truthy p) eqn:Hp.
  - rewrite (load_cases p w Hp) in Hload.
    destruct (files w !! p) as [text|] eqn:Hf.
    + refine (foldM_invariant_Forall cache_ok record_ok load_row _ _
                (Hsnap p text eq_refl Hf) _ _ _ _ cache_ok_empty Hload).
      intros b a w1 w2 b' Hb Ha Hrow. exact (load_row_sound _ _ _ _ _ Hb Ha Hrow).
    + injection Hload as _ <-. apply cache_ok_empty.
  - unfold _load_domain_cache in Hload. rewrite Hp in Hload.
    injection Hload as _ <-. apply cache_ok_empty.
Qed.

(** C1, as the code has it. The invariant is established for the facts of
    fresh lookups and only carried along for the others.

    First, for a run of the resolution from any cache whatever: an entry of
    the final cache for a domain that was not cached at the start is sound
    (no mail exchanger unless the registration is alive), and so is every
    output row of such a domain; an entry for a domain that was cached is
    the entry the run started with, and the output rows of such a domain
    show the flags of that entry as they are. Hence, if every entry of the
    starting cache is sound, so is every entry of the final cache and
    every output row.

    Second, for the loader: if every record of the snapshot reports a mail
    exchanger only together with a live registration, every entry of the
    loaded cache is sound. *)
Theorem invariant_preserved :
  (forall emails (cache : gmap string DomainFact) wr w,
      exists w' cache' new,
        process_all emails cache wr w = (w', inr cache')
        /\ trace w' = trace w ++ new
        /\ (forall d f, cache' !! d = Some f ->
               match cache !! d with
               | Some f0 => f = f0
               | None => fact_ok f
               end)
        /\ (forall p e d a m,
               EvWriteRow p [e; d; a; m] ∈ new ->
               match cache !! d with
               | Some f0 => a = bit (whois_alive f0) /\ m = bit (mx_exists f0)
               | None => a = "0" -> m = "0"
               end)
        /\ (cache_ok cache ->
            cache_ok cache'
            /\ forall p e d a m,
                EvWriteRow p [e; d; a; m] ∈ new -> a = "0" -> m = "0"))
  /\ (forall path w w0 cache0,
         _load_domain_cache path w = (w0, inr cache0) ->
         snapshot_ok path w ->
         cache_ok cache0).
Proof.
  split; [| exact load_sound].
  intros emails cache wr w.
  destruct (process_all_run emails cache wr w)
    as (w' & c' & new & Hp & Ht & (Hsub & _ & _ & _ & Hrow) & _ & _).
  destruct (process_all_effect emails cache wr w)
    as (w'' & c'' & new' & rows & Hp' & _ & _ & _ & _ & _ & Hnew & _).
  rewrite Hp in Hp'. injection Hp' as <- <-.
  assert (Hentry : forall d f, c' !! d = Some f ->
             match cache !! d with
             | Some f0 => f = f0
             | None => fact_ok f
             end).
  { intros d f Hf. destruct (cache !! d) as [f0|] eqn:Hc.
    - pose proof (lookup_weaken _ _ _ _ Hc Hsub) as Hf0. congruence.
    - exact (proj1 (Hnew d f Hc Hf)). }
  assert (Hrows : forall p e d a m,
             EvWriteRow p [e; d; a; m] ∈ new ->
             match cache !! d with
             | Some f0 => a = bit (whois_alive f0) /\ m = bit (mx_exists f0)
             | None => a = "0" -> m = "0"
             end).
  { intros p e d a m Hin. destruct (Hrow _ _ _ _ _ Hin) as (f & Hf & -> & ->).
    specialize (Hentry d f Hf). destruct (cache !! d) as [f0|].
    - subst f0. split; reflexivity.
    - intros Ha. apply bit_zero. apply bit_zero in Ha. exact (Hentry Ha). }
  exists w', c', new. split; [exact Hp |]. split; [exact Ht |].
  split; [exact Hentry |]. split; [exact Hrows |].
  intros Hok. split.
  - intros d f Hf. specialize (Hentry d f Hf).
    destruct (cache !! d) as [f0|] eqn:Hc; [| exact Hentry].
    subst f0. exact (Hok d f Hc).
  - intros p e d a m Hin Ha. specialize (Hrows p e d a m Hin).
    destruct (cache !! d) as [f0|] eqn:Hc; [| exact (Hrows Ha)].
    destruct Hrows as [-> ->]. apply bit_zero. apply bit_zero in Ha.
    exact (Hok d f0 Hc Ha).
Qed.

End Provenance.

(** ** The guard of the driver *)

Section Guard.

Context {E : Env}.

Lemma appends_only_ret {A} (a : A) : appends_only (ret a).
Proof. intros w. exists []. cbn. now rewrite app_nil_r. Qed.

Lemma appends_only_raise {A} x : appends_only (@raise A x).
Proof. intros w. exists []. cbn. now rewrite app_nil_r. Qed.

Lemma appends_only_emit e : appends_only (emit e).
Proof. intros w. exists [e]. reflexivity. Qed.

Lemma appends_only_advance : appends_only advance.
Proof. intros w. exists []. cbn. now rewrite app_nil_r. Qed.

Lemma appends_only_get_files : appends_only get_files.
Proof. intros w. exists []. cbn. now rewrite app_nil_r. Qed.

Lemma appends_only_set_file p text : appends_only (set_file p text).
Proof. intros w. exists []. cbn. now rewrite app_nil_r. Qed.

Lemma appends_only_bind {A B} (m : M A) (k : A -> M B) :
  appends_only m -> (forall a, appends_only (k a)) -> appends_only (bind m k).
Proof.
  intros Hm Hk w. unfold bind. destruct (Hm w) as [t1 H1].
  destruct (m w) as [w1 [x|a]]; cbn [fst] in *; [eauto |].
  destruct (Hk a w1) as [t2 H2]. exists (t1 ++ t2).
  now rewrite H2, H1, app_assoc.
Qed.

Lemma appends_only_try {A} (m h : M A) :
  appends_only m -> appends_only h -> appends_only (try_except m h).
Proof.
  intros Hm Hh w. unfold try_except. destruct (Hm w) as [t1 H1].
  destruct (m w) as [w1 [x|a]]; cbn [fst] in *; [| eauto].
  destruct (Hh w1) as [t2 H2]. exists (t1 ++ t2).
  now rewrite H2, H1, app_assoc.
Qed.

Lemma appends_only_foldM {A B} (f : B -> A -> M B) l :
  (forall b a, appends_only (f b a)) -> forall b, appends_only (foldM f b l).
Proof.
  intros Hf. induction l as [|a l IH]; intros b; cbn [foldM].
  - apply appends_only_ret.
  - apply appends_only_bind; [apply Hf | exact IH].
Qed.

Ltac appends :=
  repeat first
    [ apply appends_only_ret | apply appends_only_raise
    | apply appends_only_emit | apply appends_only_advance
    | apply appends_only_get_files | apply appends_only_set_file
    | apply appends_only_bind; [| intros ?]
    | apply appends_only_try
    | apply appends_only_foldM; intros ? ?
    | match goal with
      | |- appends_only (let _ := _ in _) => cbv zeta
      | |- appends_only (match ?x with _ => _ end) => destruct x
      | |- appends_only (if ?b then _ else _) => destruct b
      end ].

Lemma process_email_appends e cache wr :
  appends_only (_process_email e cache wr).
Proof.
  unfold _process_email, _whois_domain, _mx_queries_domain, whois_whois,
    dns_resolve_mx, datetime_now_utc, datetime_gt, writerow.
  appends.
Qed.

Lemma load_appends path : appends_only (_load_domain_cache path).
Proof.
  unfold _load_domain_cache, os_path_exists, open_read, load_row. appends.
Qed.

Lemma save_appends path cache : appends_only (_save_domain_cache path cache).
Proof.
  unfold _save_domain_cache, os_makedirs, open_write, writerow, save_row,
    datetime_now_utc, writerow.
  appends.
Qed.

Lemma bind_after {A B} (m : M A) (k : A -> M B) w :
  (forall a, appends_only (k a)) ->
  match m w with
  | (w0, inl x) => bind m k w = (w0, inl x)
  | (w0, inr _) => exists tr, trace (bind m k w).1 = trace w0 ++ tr
  end.
Proof.
  intros Hk. unfold bind. destruct (m w) as [w0 [x|a]]; [reflexivity |].
  apply Hk.
Qed.

(** An accepted path passes the guard: the driver goes on to load the
    cache, and what follows only adds to the trace of the load. *)
Lemma validate_accepted_loads emails_file output_file cached_domains w :
  _is_valid_extension emails_file = true ->
  match _load_domain_cache cached_domains w with
  | (w0, inl x) =>
      validate_emails emails_file output_file cached_domains w = (w0, inl x)
  | (w0, inr _) =>
      exists tr,
        trace (validate_emails emails_file output_file cached_domains w).1
        = trace w0 ++ tr
  end.
Proof.
  intros Hext. unfold validate_emails. rewrite Hext. cbn [negb].
  apply bind_after. intros cache. cbv zeta.
  apply appends_only_bind; [unfold os_makedirs; appends |].
  intros _. apply appends_only_bind; [unfold open_write; appends |].
  intros _. apply appends_only_bind; [unfold writerow; appends |].
  intros _. apply appends_only_bind; [| intros c; apply save_appends].
  destruct (bool_decide _).
  - unfold csv_branch, open_read. apply appends_only_bind; [appends |].
    intros text. apply appends_only_foldM. intros b row.
    destruct row as [|first row']; [apply appends_only_ret |].
    apply appends_only_bind; [| intros email; apply process_email_appends].
    unfold dict_index, cell_strip. appends.
  - destruct (bool_decide _); [| apply appends_only_raise].
    unfold txt_branch, open_read, process_all.
    apply appends_only_bind; [appends |].
    intros text. apply appends_only_foldM. intros b a.
    apply process_email_appends.
Qed.

End Guard.

(** C8. The driver accepts the extensions [csv] and [txt] in any letter
    case and no other, the extension being the text after the last full
    stop of the path (the whole path when it has none).

    A path that fails the check makes the driver raise [ValueError] at
    once, the world untouched: no cache loaded, no output file created, no
    address read, no query made, no clock read. A path that passes it gets
    past the guard: the run does not end in either complaint about the
    extension, it goes on to load the cache (an exception of the load is
    the exception of the run, and otherwise the trace of the run continues
    the trace of the load), and it reaches one of the two reading
    branches. So the complaint is raised exactly for the paths that fail
    the check. On the two sample inputs the run completes. *)
Theorem unsupported_extension_is_fatal :
  (forall (E : Env) emails_file output_file cached_domains w,
      _is_valid_extension emails_file = false ->
      validate_emails emails_file output_file cached_domains w
      = (w, inl (ValueError "Входной файл должен быть .csv/.txt")))
  /\ (forall (E : Env) emails_file output_file cached_domains w,
         _is_valid_extension emails_file = true ->
         (validate_emails emails_file output_file cached_domains w).2
         <> inl (ValueError "Входной файл должен быть .csv/.txt")
         /\ (validate_emails emails_file output_file cached_domains w).2
            <> inl (ValueError "Поддерживаются только .csv и .txt")
         /\ match _load_domain_cache cached_domains w with
            | (w0, inl x) =>
                validate_emails emails_file output_file cached_domains w
                = (w0, inl x)
            | (w0, inr _) =>
                exists tr,
                  trace (validate_emails emails_file output_file
                           cached_domains w).1
                  = trace w0 ++ tr
            end)
  /\ (forall (E : Env) emails_file output_file cached_domains w,
         (validate_emails emails_file output_file cached_domains w).2
         = inl (ValueError "Входной файл должен быть .csv/.txt")
         <-> _is_valid_extension emails_file = false)
  /\ (forall path,
         _is_valid_extension path = true <->
         Str.lower (Str.rsplit1_last "." path) = "csv"
         \/ Str.lower (Str.rsplit1_last "." path) = "txt")
  /\ (forall base e,
         Str.contains "." e = false ->
         (_is_valid_extension (base +:+ "." +:+ e) = true <->
          Str.lower e = "csv" \/ Str.lower e = "txt"))
  /\ (forall emails_file,
         _is_valid_extension emails_file = true ->
         Str.rsplit1_last "." (Str.lower emails_file) = "csv"
         \/ Str.rsplit1_last "." (Str.lower emails_file) = "txt")
  /\ (@validate_emails Demo.env "in.txt" "out.csv" None Demo.txt_world).2
     = inr tt
  /\ (@validate_emails Demo.env "in.csv" "out.csv" None Demo.csv_world).2
     = inr tt.
Proof.
  assert (Hrej : forall (E : Env) emails_file output_file cached_domains w,
             _is_valid_extension emails_file = false ->
             validate_emails emails_file output_file cached_domains w
             = (w, inl (ValueError "Входной файл должен быть .csv/.txt"))).
  { intros E emails_file output_file cached_domains w H.
    unfold validate_emails. rewrite H. reflexivity. }
  assert (Hacc : forall (E : Env) emails_file output_file cached_domains w x,
             _is_valid_extension emails_file = true ->
             (validate_emails emails_file output_file cached_domains w).2
             = inl x -> x = OSError \/ x = AttributeError).
  { intros E emails_file output_file cached_domains w x H Hx.
    exact (validate_accepted_raises emails_file output_file cached_domains
             H w x Hx). }
  split; [exact Hrej |]. split; [| split; [| split; [| split; [| split]]]].
  - intros E emails_file output_file cached_domains w H.
    split; [| split].
    + intros Hx. destruct (Hacc _ _ _ _ _ _ H Hx); discriminate.
    + intros Hx. destruct (Hacc _ _ _ _ _ _ H Hx); discriminate.
    + now apply validate_accepted_loads.
  - intros E emails_file output_file cached_domains w. split.
    + intros Hx. destruct (_is_valid_extension emails_file) eqn:H;
        [| reflexivity].
      destruct (Hacc _ _ _ _ _ _ H Hx); discriminate.
    + intros H. now rewrite (Hrej E _ output_file cached_domains w H).
  - exact valid_extension_iff.
  - intros base e He. rewrite valid_extension_iff.
    change (base +:+ "." +:+ e) with (base +:+ String "." e).
    now rewrite (StrFacts.rsplit1_last_app "." base e He).
  - intros emails_file H. apply valid_extension_iff in H.
    now rewrite rsplit1_last_lower.
  - split; vm_compute; reflexivity.
Qed.

(** ** Concrete runs, continued *)

Section MoreRuns.

#[local] Existing Instance Demo.env.

Lemma valid_address_has_normal_domain_witness :
  _is_valid_email " A@B.Com " = true
  /\ exists d, _get_domain " A@B.Com " = Some d
               /\ d <> "" /\ Str.lower d = d /\ Str.strip d = d
               /\ Str.contains "@" d = false
               /\ Str.all (fun c => negb (Str.isspace c)) d = true
               /\ Str.contains "." d = true.
Proof.
  split; [vm_compute; reflexivity |].
  apply (valid_address_has_normal_domain " A@B.Com ").
  vm_compute. reflexivity.
Defined.

Lemma loaded_keys_normal_witness :
  exists cache,
    _load_domain_cache (Some "cache.csv") Demo.dup_world
    = ((_load_domain_cache (Some "cache.csv") Demo.dup_world).1, inr cache)
    /\ keys_normal cache.
Proof.
  eexists. split; [vm_compute; reflexivity |].
  apply (loaded_keys_normal (Some "cache.csv") Demo.dup_world
           (_load_domain_cache (Some "cache.csv") Demo.dup_world).1).
  vm_compute. reflexivity.
Defined.

Lemma dup_parse :
  csv_parse Demo.dup_text
  = cache_fieldnames
      :: [] ++ [" B.com"; "0"; "0"; "2023-01-01"]
      :: [["b.com"; "1"; "1"; "2024-01-01"]; ["d.org"; "1"]].
Proof. vm_compute. reflexivity. Qed.

Lemma domain_first_only :
  "domain" ∉ ["whois_alive"; "mx_exists"; "checked_at"].
Proof.
  rewrite !not_elem_of_cons. repeat split; try discriminate.
  apply not_elem_of_nil.
Qed.

Lemma load_first_column_total_witness :
  Str.truthy "cache.csv" = true
  /\ files Demo.dup_world !! "cache.csv" = Some Demo.dup_text
  /\ csv_parse Demo.dup_text
     = ("domain" :: ["whois_alive"; "mx_exists"; "checked_at"])
         :: [[" B.com"; "0"; "0"; "2023-01-01"];
             ["b.com"; "1"; "1"; "2024-01-01"]; ["d.org"; "1"]]
  /\ ("domain" ∉ ["whois_alive"; "mx_exists"; "checked_at"])
  /\ exists w' cache,
      _load_domain_cache (Some "cache.csv") Demo.dup_world = (w', inr cache)
      /\ forall d, is_Some (cache !! d) <->
                   d <> ""
                   /\ exists x r,
                       (x :: r) ∈ [[" B.com"; "0"; "0"; "2023-01-01"];
                                   ["b.com"; "1"; "1"; "2024-01-01"];
                                   ["d.org"; "1"]]
                       /\ Str.lower (Str.strip x) = d.
Proof.
  split; [reflexivity |]. split; [vm_compute; reflexivity |].
  split; [vm_compute; reflexivity |]. split; [exact domain_first_only |].
  apply (load_first_column_total "cache.csv" Demo.dup_text
           ["whois_alive"; "mx_exists"; "checked_at"] _ Demo.dup_world).
  - reflexivity.
  - vm_compute. reflexivity.
  - vm_compute. reflexivity.
  - exact domain_first_only.
Defined.

Lemma dup_later_records x' r' :
  (x' :: r') ∈ [["d.org"; "1"]] ->
  Str.lower (Str.strip x') <> Str.lower (Str.strip "b.com").
Proof.
  intros H. apply list_elem_of_singleton in H. injection H as -> _.
  vm_compute. discriminate.
Qed.

(** The later of the two records of [b.com] decides, and the short record
    of [d.org] does no harm. *)
Lemma load_last_record_wins_witness :
  Str.truthy "cache.csv" = true
  /\ files Demo.dup_world !! "cache.csv" = Some Demo.dup_text
  /\ csv_parse Demo.dup_text
     = cache_fieldnames
         :: [[" B.com"; "0"; "0"; "2023-01-01"]]
            ++ ["b.com"; "1"; "1"; "2024-01-01"] :: [["d.org"; "1"]]
  /\ Str.lower (Str.strip "b.com") <> ""
  /\ (forall x' r', (x' :: r') ∈ [["d.org"; "1"]] ->
                    Str.lower (Str.strip x') <> Str.lower (Str.strip "b.com"))
  /\ exists w' cache,
      _load_domain_cache (Some "cache.csv") Demo.dup_world = (w', inr cache)
      /\ cache !! Str.lower (Str.strip "b.com")
         = Some {| whois_alive := bool_decide ("1" = "1");
                   mx_exists := bool_decide ("1" = "1");
                   checked_at := Some "2024-01-01" |}.
Proof.
  split; [reflexivity |]. split; [vm_compute; reflexivity |].
  split; [vm_compute; reflexivity |]. split; [vm_compute; discriminate |].
  split; [exact dup_later_records |].
  apply (load_last_record_wins "cache.csv" Demo.dup_text
           [[" B.com"; "0"; "0"; "2023-01-01"]] [["d.org"; "1"]]
           "b.com" "1" "1" "2024-01-01" Demo.dup_world).
  - reflexivity.
  - vm_compute. reflexivity.
  - vm_compute. reflexivity.
  - vm_compute. discriminate.
  - exact dup_later_records.
Defined.

Lemma run_keeps_keys_normal_witness :
  keys_normal Demo.two_facts
  /\ exists w' cache',
      process_all ["q@z.io"; "a@b.com"] Demo.two_facts "out.csv" Demo.world0
      = (w', inr cache')
      /\ keys_normal cache'.
Proof.
  split; [exact two_facts_keys_normal |].
  apply (run_keeps_keys_normal ["q@z.io"; "a@b.com"] Demo.two_facts "out.csv"
           Demo.world0).
  exact two_facts_keys_normal.
Defined.

Lemma txt_run_without_cache_witness :
  Str.rsplit1_last "." (Str.lower "in.txt") = "txt"
  /\ "in.txt" <> "out.csv"
  /\ files Demo.txt_world !! "in.txt" = Some Demo.txt_text
  /\ validate_emails "in.txt" "out.csv" None Demo.txt_world
     = ((validate_emails "in.txt" "out.csv" None Demo.txt_world).1, inr tt)
  /\ exists rows,
      file_records "out.csv"
        (trace (validate_emails "in.txt" "out.csv" None Demo.txt_world).1)
      = output_fieldnames :: rows
      /\ Forall2 row_of_address
           (List.filter _is_valid_email (Str.strip <$> text_lines Demo.txt_text))
           rows.
Proof.
  split; [vm_compute; reflexivity |]. split; [discriminate |].
  split; [vm_compute; reflexivity |]. split; [vm_compute; reflexivity |].
  apply (txt_run_without_cache "in.txt" "out.csv" Demo.txt_text Demo.txt_world
           (validate_emails "in.txt" "out.csv" None Demo.txt_world).1).
  - vm_compute. reflexivity.
  - discriminate.
  - vm_compute. reflexivity.
  - vm_compute. reflexivity.
Defined.

(** What that run leaves in the output file. *)
Example txt_run_output :
  files (validate_emails "in.txt" "out.csv" None Demo.txt_world).1 !! "out.csv"
  = Some ("email,domain,whois_alive,mx_exists" +:+ Demo.LF
          +:+ "a@b.com,b.com,1,1" +:+ Demo.LF
          +:+ "c@d.org,d.org,0,0" +:+ Demo.LF).
Proof. vm_compute. reflexivity. Qed.

Lemma name_email_NoDup : NoDup ["name"; "email"].
Proof.
  apply NoDup_cons. split.
  - rewrite list_elem_of_singleton. discriminate.
  - apply NoDup_singleton.
Qed.

Lemma csv_records_reach_email r :
  r ∈ [["ann"; "a@b.com"]; []; ["bob"; " c@d.org"]] -> r <> [] ->
  (1 < length r)%nat.
Proof.
  intros Hr Hne. repeat (apply elem_of_cons in Hr as [->|Hr]);
    cbn; try lia; try contradiction.
  apply elem_of_nil in Hr. contradiction.
Qed.

Lemma csv_run_without_cache_witness :
  Str.rsplit1_last "." (Str.lower "in.csv") = "csv"
  /\ "in.csv" <> "out.csv"
  /\ files Demo.csv_world !! "in.csv" = Some Demo.csv_text
  /\ csv_parse Demo.csv_text
     = ["name"; "email"] :: [["ann"; "a@b.com"]; []; ["bob"; " c@d.org"]]
  /\ NoDup ["name"; "email"]
  /\ address_column ["name"; "email"] 1
  /\ (forall r, r ∈ [["ann"; "a@b.com"]; []; ["bob"; " c@d.org"]] ->
                r <> [] -> (1 < length r)%nat)
  /\ validate_emails "in.csv" "out.csv" None Demo.csv_world
     = ((validate_emails "in.csv" "out.csv" None Demo.csv_world).1, inr tt)
  /\ exists rows,
      file_records "out.csv"
        (trace (validate_emails "in.csv" "out.csv" None Demo.csv_world).1)
      = output_fieldnames :: rows
      /\ Forall2 row_of_address
           (List.filter _is_valid_email
              (addresses_of 1 [["ann"; "a@b.com"]; []; ["bob"; " c@d.org"]]))
           rows.
Proof.
  split; [vm_compute; reflexivity |]. split; [discriminate |].
  split; [vm_compute; reflexivity |]. split; [vm_compute; reflexivity |].
  split; [exact name_email_NoDup |]. split; [left; reflexivity |].
  split; [exact csv_records_reach_email |].
  split; [vm_compute; reflexivity |].
  apply (csv_run_without_cache "in.csv" "out.csv" Demo.csv_text
           ["name"; "email"] _ 1 Demo.csv_world
           (validate_emails "in.csv" "out.csv" None Demo.csv_world).1).
  - vm_compute. reflexivity.
  - discriminate.
  - vm_compute. reflexivity.
  - vm_compute. reflexivity.
  - exact name_email_NoDup.
  - left. reflexivity.
  - exact csv_records_reach_email.
  - vm_compute. reflexivity.
Defined.

Lemma short_pre_reach_email r :
  r ∈ [["ann"; "a@b.com"]] -> r <> [] -> (1 < length r)%nat.
Proof.
  intros Hr _. apply list_elem_of_singleton in Hr as ->. cbn. lia.
Qed.

Lemma short_record_aborts_run_witness :
  Str.rsplit1_last "." (Str.lower "in.csv") = "csv"
  /\ "in.csv" <> "out.csv"
  /\ "cache.csv" <> "out.csv"
  /\ Str.truthy "cache.csv" = true
  /\ files Demo.short_world !! "cache.csv" = None
  /\ files Demo.short_world !! "in.csv" = Some Demo.short_text
  /\ csv_parse Demo.short_text
     = ["name"; "email"]
         :: [["ann"; "a@b.com"]] ++ ["bob"] :: [["cy"; "c@d.org"]]
  /\ NoDup ["name"; "email"]
  /\ ["name"; "email"] !! 1%nat = Some "email"
  /\ (forall r, r ∈ [["ann"; "a@b.com"]] -> r <> [] -> (1 < length r)%nat)
  /\ ["bob"] <> []
  /\ (length ["bob"] <= 1)%nat
  /\ (forall cache w0,
         csv_step ["name"; "email"] "out.csv" cache
           (dictreader_row ["name"; "email"] ["bob"]) w0
         = (w0, inl AttributeError))
  /\ (validate_emails "in.csv" "out.csv" (Some "cache.csv")
        Demo.short_world).2 <> inr tt
  /\ files (validate_emails "in.csv" "out.csv" (Some "cache.csv")
              Demo.short_world).1 !! "cache.csv" = None.
Proof.
  split; [vm_compute; reflexivity |]. split; [discriminate |].
  split; [discriminate |]. split; [reflexivity |].
  split; [vm_compute; reflexivity |]. split; [vm_compute; reflexivity |].
  split; [vm_compute; reflexivity |]. split; [exact name_email_NoDup |].
  split; [reflexivity |]. split; [exact short_pre_reach_email |].
  split; [discriminate |]. split; [cbn; lia |].
  apply (short_record_aborts_run "in.csv" "out.csv" "cache.csv"
           Demo.short_text ["name"; "email"] [["ann"; "a@b.com"]]
           [["cy"; "c@d.org"]] ["bob"] 1 Demo.short_world).
  - vm_compute. reflexivity.
  - discriminate.
  - discriminate.
  - reflexivity.
  - vm_compute. reflexivity.
  - vm_compute. reflexivity.
  - vm_compute. reflexivity.
  - exact name_email_NoDup.
  - reflexivity.
  - exact short_pre_reach_email.
  - discriminate.
  - cbn. lia.
Defined.

(** What the aborted run leaves behind: one row, and the rest unread. *)
Example short_run_output :
  files (validate_emails "in.csv" "out.csv" (Some "cache.csv")
           Demo.short_world).1 !! "out.csv"
  = Some ("email,domain,whois_alive,mx_exists" +:+ Demo.LF
          +:+ "a@b.com,b.com,1,1" +:+ Demo.LF).
Proof. vm_compute. reflexivity. Qed.

Lemma sound_snapshot_ok : snapshot_ok (Some "cache.csv") Demo.sound_snapshot.
Proof.
  intros p text [= <-] Hf. vm_compute in Hf. injection Hf as <-.
  vm_compute.
  repeat (constructor; [intros H; first [reflexivity | discriminate H] |]).
  constructor.
Qed.

(** A snapshot with a live and a dead domain, then two hits and a miss. *)
Lemma invariant_preserved_witness :
  snapshot_ok (Some "cache.csv") Demo.sound_snapshot
  /\ exists w0 cache0,
      _load_domain_cache (Some "cache.csv") Demo.sound_snapshot
      = (w0, inr cache0)
      /\ is_Some (cache0 !! "b.com")
      /\ is_Some (cache0 !! "d.org")
      /\ cache0 !! "z.io" = None
      /\ cache_ok cache0
      /\ exists w' cache' new,
          process_all ["x@b.com"; "c@d.org"; "q@z.io"] cache0 "out.csv" w0
          = (w', inr cache')
          /\ trace w' = trace w0 ++ new
          /\ cache_ok cache'
          /\ (forall p e d a m,
                 EvWriteRow p [e; d; a; m] ∈ new -> a = "0" -> m = "0").
Proof.
  split; [exact sound_snapshot_ok |].
  destruct (_load_domain_cache (Some "cache.csv") Demo.sound_snapshot)
    as [w0 [x|cache0]] eqn:Hload.
  { vm_compute in Hload. discriminate Hload. }
  pose proof (proj2 invariant_preserved _ _ _ _ Hload sound_snapshot_ok)
    as Hok.
  destruct (proj1 invariant_preserved ["x@b.com"; "c@d.org"; "q@z.io"]
              cache0 "out.csv" w0)
    as (w' & c' & new & Hp & Ht & _ & _ & Hkeep).
  exists w0, cache0. split; [reflexivity |].
  split.
  { vm_compute in Hload. injection Hload as _ <-. vm_compute. eauto. }
  split.
  { vm_compute in Hload. injection Hload as _ <-. vm_compute. eauto. }
  split.
  { vm_compute in Hload. injection Hload as _ <-. vm_compute. reflexivity. }
  split; [exact Hok |].
  exists w', c', new. split; [exact Hp |]. split; [exact Ht |].
  exact (Hkeep Hok).
Defined.

Lemma validate_emails_errors_witness :
  (validate_emails "in.csv" "out.csv" (Some "cache.csv") Demo.short_world).2
  = inl AttributeError
  /\ AttributeError <> QueryError /\ AttributeError <> IndexError
  /\ AttributeError <> KeyError /\ AttributeError <> TypeError
  /\ AttributeError <> ValueError "Поддерживаются только .csv и .txt".
Proof.
  split; [vm_compute; reflexivity |].
  apply (validate_emails_errors "in.csv" "out.csv" (Some "cache.csv")
           Demo.short_world AttributeError).
  vm_compute. reflexivity.
Defined.

End MoreRuns.
